(** * tron_server: the lobby-and-session server of [server/server.go]

    A shallow embedding of the Go package [server] and a verification of the
    properties its design document states about it.

    The Go program runs one Broker loop ([Server.Start]) that receives
    connections, inbound messages and disconnect notices and dispatches them
    to [handleConnect], [handleMessage] and [handleDisconnect]; a listener
    goroutine ([hostServer]) and, once the game started, a ticker goroutine
    ([ticker]) run beside it.  The embedding keeps the handlers as functions
    in a small state-and-outcome monad over the [Server] struct, the store of
    [client] structs the struct points into, and the three buffered control
    channels, and it keeps the goroutines as the labelled steps of a
    transition system. *)

From Stdlib Require Import ZArith Lia Ascii String.
From stdpp Require Import base list strings.

Local Open Scope Z_scope.

(** ** Strings *)

(** The double quote and the line feed, as one-character strings. *)
Definition dq : string := String "034"%char EmptyString.
Definition nl : string := String "010"%char EmptyString.

(** [quoted s] is [s] between double quotes, as it stands in a JSON text. *)
Definition quoted (s : string) : string := dq +:+ s +:+ dq.

Definition bytes_of_string (s : string) : list N :=
  N_of_ascii <$> list_ascii_of_string s.

Definition string_of_bytes (bs : list N) : string :=
  string_of_list_ascii (ascii_of_N <$> bs).

(** *** [strings.TrimSpace]

    Go's [strings.TrimSpace] removes the leading and the trailing white space
    of a string, "as defined by Unicode": the six ASCII characters
    ['\t' '\n' '\v' '\f' '\r' ' '] and the runes U+0085, U+00A0, U+1680,
    U+2000..U+200A, U+2028, U+2029, U+202F, U+205F and U+3000.  A Go string
    is a byte sequence; a rune is recognised where its UTF-8 encoding stands
    (an ill-formed byte decodes to U+FFFD, which is no white space). *)
Definition isSpaceRune (bs : list N) : bool :=
  match bs with
  | [c] => ((9 <=? c) && (c <=? 13) || (c =? 32))%N
  | [194; c]%N => ((c =? 133) || (c =? 160))%N
  | [225; 154; 128]%N => true
  | [226; 128; c]%N =>
      ((128 <=? c) && (c <=? 138) || (c =? 168) || (c =? 169) || (c =? 175))%N
  | [226; 129; 159]%N => true
  | [227; 128; 128]%N => true
  | _ => false
  end.

(** Drops white-space runes from the front, one rune per unit of fuel. *)
Fixpoint trimFront (fuel : nat) (bs : list N) : list N :=
  match fuel with
  | O => bs
  | S fuel' =>
      if isSpaceRune (take 1 bs) then trimFront fuel' (drop 1 bs)
      else if isSpaceRune (take 2 bs) then trimFront fuel' (drop 2 bs)
      else if isSpaceRune (take 3 bs) then trimFront fuel' (drop 3 bs)
      else bs
  end.

(** The same from the back, on the reversed byte sequence: the last rune of a
    string is the one whose encoding ends the string. *)
Fixpoint trimBack (fuel : nat) (rbs : list N) : list N :=
  match fuel with
  | O => rbs
  | S fuel' =>
      if isSpaceRune (reverse (take 1 rbs)) then trimBack fuel' (drop 1 rbs)
      else if isSpaceRune (reverse (take 2 rbs)) then trimBack fuel' (drop 2 rbs)
      else if isSpaceRune (reverse (take 3 rbs)) then trimBack fuel' (drop 3 rbs)
      else rbs
  end.

Definition TrimSpace (s : string) : string :=
  let bs := bytes_of_string s in
  let front := trimFront (length bs) bs in
  string_of_bytes (reverse (trimBack (length front) (reverse front))).

(** ** The [encoding/json] library, as an interface

    [server.go] decodes each inbound line with [json.Unmarshal] and encodes
    the start-game notice with [json.Marshal].  The library is not part of
    the repository; the development is parametric in it. *)

(** The records of [jsontypes]. *)
Record ChatData := { cd_Type : string; cd_Color : string; cd_Message : string }.

Record EventData := { CoordX : Z; CoordY : Z; Direction : string }.

Record GameData := { gd_Type : string; gd_Color : string; gd_Event : EventData }.

Record StartGame := { sg_Type : string; sg_Colors : list string }.

(** What [&jsontypes.ChatData{}] and [&jsontypes.GameData{}] point to. *)
Definition zeroChatData : ChatData :=
  {| cd_Type := EmptyString; cd_Color := EmptyString; cd_Message := EmptyString |}.

Definition zeroGameData : GameData :=
  {| gd_Type := EmptyString; gd_Color := EmptyString;
     gd_Event := {| CoordX := 0; CoordY := 0; Direction := EmptyString |} |}.

(** [json.Unmarshal] first checks that its input is well-formed JSON
    ([checkValid]) and returns the syntax error without touching the target;
    only then it decodes, returning the (possibly partly filled) target with
    the first type error it met.  [json.Marshal] of a struct of strings and
    string slices has no failing case, which [json_marshal_ok] records. *)
Record JSON := {
  json_checkValid : string -> option string;
  json_decodeChat : string -> ChatData * option string;
  json_decodeGame : string -> GameData * option string;
  json_marshalStartGame : StartGame -> string + string;
  json_marshal_ok : forall sg, exists js, json_marshalStartGame sg = inl js
}.

Definition Unmarshal_ChatData (J : JSON) (m : string) : ChatData * option string :=
  match json_checkValid J m with
  | Some e => (zeroChatData, Some e)
  | None => json_decodeChat J m
  end.

Definition Unmarshal_GameData (J : JSON) (m : string) : GameData * option string :=
  match json_checkValid J m with
  | Some e => (zeroGameData, Some e)
  | None => json_decodeGame J m
  end.

(** ** Data model *)

(** A [net.Conn] is a handle; a [*client] is an address in the store of
    client structs, [None] standing for Go's [nil]. *)
Definition Conn := nat.
Definition ptr := nat.

Record msgFormat := { senderId : Z; msg : string }.

Record client := { id : Z; conn : Conn; color : string; ready : bool }.

#[global] Instance client_inhabited : Inhabited client :=
  populate {| id := 0; conn := O; color := EmptyString; ready := false |}.

(** [s.serverListener]: [nil] until [hostServer] has bound the port. *)
Inductive Listener := lnNil | lnOpen | lnClosed.

(** The three control channels, each made with capacity 1. *)
Inductive Chan := chStopTick | chStopListen | chStopServer.

Definition chanCap : nat := 1.

(** The [Server] struct.  A buffered channel is the list of the values it
    holds; the unbuffered [conns], [msgs] and [dconns] hold nothing and are
    the labels of the Broker's steps.  [heap] is the store the elements of
    [players] point into: [heap !!! a] is the struct at address [a]. *)
Record Server := {
  players : list ptr;
  free_colors : list string;
  ids : Z;
  phase : Z;
  ticking : bool;
  stopTick : list bool;
  stopListen : list bool;
  stopServer : list bool;
  serverListener : Listener;
  heap : list client
}.

Definition set_players (v : list ptr) (s : Server) : Server :=
  {| players := v; free_colors := free_colors s; ids := ids s; phase := phase s;
     ticking := ticking s; stopTick := stopTick s; stopListen := stopListen s;
     stopServer := stopServer s; serverListener := serverListener s; heap := heap s |}.

Definition set_free_colors (v : list string) (s : Server) : Server :=
  {| players := players s; free_colors := v; ids := ids s; phase := phase s;
     ticking := ticking s; stopTick := stopTick s; stopListen := stopListen s;
     stopServer := stopServer s; serverListener := serverListener s; heap := heap s |}.

Definition set_ids (v : Z) (s : Server) : Server :=
  {| players := players s; free_colors := free_colors s; ids := v; phase := phase s;
     ticking := ticking s; stopTick := stopTick s; stopListen := stopListen s;
     stopServer := stopServer s; serverListener := serverListener s; heap := heap s |}.

Definition set_phase (v : Z) (s : Server) : Server :=
  {| players := players s; free_colors := free_colors s; ids := ids s; phase := v;
     ticking := ticking s; stopTick := stopTick s; stopListen := stopListen s;
     stopServer := stopServer s; serverListener := serverListener s; heap := heap s |}.

Definition set_ticking (v : bool) (s : Server) : Server :=
  {| players := players s; free_colors := free_colors s; ids := ids s; phase := phase s;
     ticking := v; stopTick := stopTick s; stopListen := stopListen s;
     stopServer := stopServer s; serverListener := serverListener s; heap := heap s |}.

Definition set_serverListener (v : Listener) (s : Server) : Server :=
  {| players := players s; free_colors := free_colors s; ids := ids s; phase := phase s;
     ticking := ticking s; stopTick := stopTick s; stopListen := stopListen s;
     stopServer := stopServer s; serverListener := v; heap := heap s |}.

Definition set_heap (v : list client) (s : Server) : Server :=
  {| players := players s; free_colors := free_colors s; ids := ids s; phase := phase s;
     ticking := ticking s; stopTick := stopTick s; stopListen := stopListen s;
     stopServer := stopServer s; serverListener := serverListener s; heap := v |}.

Definition chan (ch : Chan) (s : Server) : list bool :=
  match ch with
  | chStopTick => stopTick s
  | chStopListen => stopListen s
  | chStopServer => stopServer s
  end.

Definition set_chan (ch : Chan) (v : list bool) (s : Server) : Server :=
  {| players := players s; free_colors := free_colors s; ids := ids s; phase := phase s;
     ticking := ticking s;
     stopTick := match ch with chStopTick => v | _ => stopTick s end;
     stopListen := match ch with chStopListen => v | _ => stopListen s end;
     stopServer := match ch with chStopServer => v | _ => stopServer s end;
     serverListener := serverListener s; heap := heap s |}.

(** Field updates through a pointer: [p.id = v], [p.color = v], [p.ready = v]. *)
Definition with_id (v : Z) (c : client) : client :=
  {| id := v; conn := conn c; color := color c; ready := ready c |}.
Definition with_color (v : string) (c : client) : client :=
  {| id := id c; conn := conn c; color := v; ready := ready c |}.
Definition with_ready (v : bool) (c : client) : client :=
  {| id := id c; conn := conn c; color := color c; ready := v |}.

Definition store (a : ptr) (f : client -> client) (s : Server) : Server :=
  set_heap (alter f a (heap s)) s.

(** Go's [int] is 64 bits wide on the platforms the server runs on;
    [s.ids++] wraps around. *)
Definition wrap_int (z : Z) : Z := (z + 2 ^ 63) mod 2 ^ 64 - 2 ^ 63.

(** ** Effects *)

(** What a handler does to the world outside the struct. *)
Inductive Arg := AStr (s : string) | AInt (n : Z) | AAddr (c : Conn).

Inductive Action :=
  | ConnWrite (c : Conn) (bytes : string)   (* c.Write([]byte(bytes)) *)
  | Printf (format : string) (args : list Arg)
  | ChanSend (ch : Chan) (v : bool)
  | ListenerClose                           (* s.serverListener.Close() *)
  | GoTicker.                               (* go s.ticker() *)

(** A handler runs to its end, panics (a [nil] dereference, a slice bound),
    or stays blocked in a send on a full channel.  Each outcome carries the
    state reached and the actions done so far. *)
Inductive Outcome (A : Type) : Type :=
  | Done (a : A) (s : Server) (out : list Action)
  | Panic (s : Server) (out : list Action)
  | Blocked (s : Server) (out : list Action).
Arguments Done {A} a s out.
Arguments Panic {A} s out.
Arguments Blocked {A} s out.

Definition M (A : Type) : Type := Server -> Outcome A.

Definition ret {A} (a : A) : M A := fun s => Done a s [].

(** [prepend out o]: the outcome [o] of what ran after the actions [out]. *)
Definition prepend {B} (out1 : list Action) (o : Outcome B) : Outcome B :=
  match o with
  | Done b s2 out2 => Done b s2 (out1 ++ out2)
  | Panic s2 out2 => Panic s2 (out1 ++ out2)
  | Blocked s2 out2 => Blocked s2 (out1 ++ out2)
  end.

Definition bind {A B} (m : M A) (f : A -> M B) : M B := fun s =>
  match m s with
  | Done a s1 out1 => prepend out1 (f a s1)
  | Panic s1 out1 => Panic s1 out1
  | Blocked s1 out1 => Blocked s1 out1
  end.

#[global] Instance M_ret : MRet M := @ret.
#[global] Instance M_bind : MBind M := fun A B f m => bind m f.

Definition get : M Server := fun s => Done s s [].
Definition modify (f : Server -> Server) : M unit := fun s => Done tt (f s) [].
Definition emit (a : Action) : M unit := fun s => Done tt s [a].
Definition panic {A} : M A := fun s => Panic s [].
Definition block {A} : M A := fun s => Blocked s [].
Definition skip : M unit := ret tt.

Definition printf (format : string) (args : list Arg) : M unit :=
  emit (Printf format args).
Definition println (line : string) : M unit := printf (line +:+ nl) [].

(** [ch <- v] on a channel of capacity [chanCap]. *)
Definition chan_send (ch : Chan) (v : bool) : M unit :=
  s ← get;
  if (length (chan ch s) <? chanCap)%nat
  then modify (set_chan ch (chan ch s ++ [v])) ;; emit (ChanSend ch v)
  else block.

(** The receiving case of a [select] with a [default]: takes the value at the
    front when there is one. *)
Definition chan_poll (ch : Chan) : M (option bool) :=
  s ← get;
  match chan ch s with
  | v :: rest => modify (set_chan ch rest) ;; ret (Some v)
  | [] => ret None
  end.

(** [s.serverListener.Close()]; the error of a second close is dropped. *)
Definition listener_close : M unit :=
  s ← get;
  match serverListener s with
  | lnNil => panic
  | _ => modify (set_serverListener lnClosed) ;; emit ListenerClose
  end.

(** A [for] loop over the elements of a list. *)
Fixpoint for_each {A} (l : list A) (body : A -> M unit) : M unit :=
  match l with
  | [] => skip
  | x :: l' => body x ;; for_each l' body
  end.

(** ** The functions of [server.go] *)

(** [Create]: an empty server whose pool holds the three colors, in this
    order. *)
Definition colors : list string := ["#ff0000"; "#00ff00"; "#0000ff"].

Definition Create : Server :=
  {| players := []; free_colors := colors; ids := 0; phase := 0; ticking := false;
     stopTick := []; stopListen := []; stopServer := [];
     serverListener := lnNil; heap := [] |}.

(** [p := client{conn: c}] followed by [&p]: a fresh struct, at an address
    no live pointer holds. *)
Definition new_client (c : Conn) : M ptr := fun s =>
  Done (length (heap s))
       (set_heap (heap s ++ [{| id := 0; conn := c; color := EmptyString; ready := false |}]) s)
       [].

(** [subscribe]: the player joins the list and gets the next id and the color
    at the front of the pool.  With an empty pool [Front] returns [nil] and
    [e.Value] panics. *)
Definition subscribe (p : ptr) : M unit :=
  s ← get;
  modify (set_players (players s ++ [p]));;
  modify (store p (with_id (ids s)));;
  modify (set_ids (wrap_int (ids s + 1)));;
  match free_colors s with
  | [] => panic
  | e :: rest =>
      modify (store p (with_color e));;
      printf ("Client subscribed. Color: %s" +:+ nl) [AStr e];;
      modify (set_free_colors rest)
  end.

(** [append(s.players[:i], s.players[i+1:]...)] writes inside the backing
    array of [s.players]: the elements after [i] move one place down, and the
    places from the new length on keep what they held.  [arr] is the array as
    the [range] loop sees it, [ps] the current [s.players], a prefix of it. *)
Definition remove_at (i : nat) (ps arr : list ptr) : list ptr :=
  (take i ps ++ drop (S i) ps) ++ drop (length ps - 1)%nat arr.

(** The loop of [unsubscribe]: [for i, player := range s.players].  The range
    expression is evaluated once, so the loop runs over the [n] places of the
    array that [s.players] had at the start, and reads each place when it
    gets there; [k] places remain, the next one is [i]. *)
Fixpoint unsubscribe_loop (p : option ptr) (k i : nat) (arr : list ptr) : M unit :=
  match k with
  | O => skip
  | S k' =>
      s ← get;
      if decide (p = arr !! i) then
        match p with
        | None => panic
        | Some a =>
            let c := color (heap s !!! a) in
            printf ("Client with color: %s unsubscribed" +:+ nl) [AStr c];;
            modify (set_free_colors (free_colors s ++ [c]));;
            if (S i <=? length (players s))%nat then
              modify (set_players (take i (players s) ++ drop (S i) (players s)));;
              unsubscribe_loop p k' (S i) (remove_at i (players s) arr)
            else panic
        end
      else unsubscribe_loop p k' (S i) arr
  end.

Definition unsubscribe (p : option ptr) : M unit :=
  s ← get;
  unsubscribe_loop p (length (players s)) O (players s).

(** [findById]: the first player with the id, or [nil] and an error. *)
Fixpoint findById_in (h : list client) (l : list ptr) (i : Z) : option ptr :=
  match l with
  | [] => None
  | a :: l' => if id (h !!! a) =? i then Some a else findById_in h l' i
  end.

Definition findById (i : Z) (s : Server) : option ptr :=
  findById_in (heap s) (players s) i.

(** [sendAllClients]: one write per player whose id is not [except_id], in
    the order of [s.players]. *)
Definition sendAllClients (message : string) (except_id : Z) : M unit :=
  let message := message +:+ nl in
  s ← get;
  for_each (players s) (fun a =>
    if id (heap s !!! a) =? except_id then skip
    else emit (ConnWrite (conn (heap s !!! a)) message)).

Definition send (c : Conn) (m : string) : M unit :=
  emit (ConnWrite c (m +:+ nl)).

Definition isAllReady (s : Server) : bool :=
  if (length (players s) <? 2)%nat then false
  else forallb (fun a => ready (heap s !!! a)) (players s).

(** Dereferencing a [*client] that may be [nil]. *)
Definition deref (p : option ptr) : M ptr :=
  match p with
  | None => panic
  | Some a => ret a
  end.

(** The ticker goroutine: its first line, one turn of its loop (the result
    says whether the loop is done), and its end, where the deferred
    [s.ticking.UnSet()] runs. *)
Definition tickMsg : string := "{" +:+ quoted "type" +:+ " : " +:+ quoted "tick" +:+ "}".

Definition ticker_begin : M unit :=
  s ← get;
  printf ("Ticker started with %d players" +:+ nl) [AInt (Z.of_nat (length (players s)))].

Definition ticker_turn : M bool :=
  sendAllClients tickMsg (-1);;
  v ← chan_poll chStopTick;
  match v with
  | Some _ => println "Ticking stopping";; ret true
  | None => ret false
  end.

Definition ticker_end : M unit :=
  println "Ticking stopped";;
  modify (set_ticking false).

(** [handleMessage]: the two cases of [switch s.phase], then the function.
    [m] is the trimmed line and [p] what [findById] returned. *)
Definition handleMessage_lobby (J : JSON) (m : string) (p : option ptr) : M unit :=
  let '(data, err) := Unmarshal_ChatData J m in
  (if err is Some e
   then printf ("Error processing chat message: '%s': %s" +:+ nl) [AStr m; AStr e]
   else skip);;
  if String.eqb (cd_Type data) "chat" then
    (* broadcast chat message *)
    a ← deref p;
    s ← get;
    sendAllClients m (id (heap s !!! a))
  else if String.eqb (cd_Type data) "ready" then
    a ← deref p;
    modify (store a (with_ready true));;
    (* check on all ready *)
    s ← get;
    if isAllReady s then
      let sg := {| sg_Type := "start_game";
                   sg_Colors := (fun q => color (heap s !!! q)) <$> players s |} in
      match json_marshalStartGame J sg with
      | inr e => printf ("Fatal: could not produce start game json: %s" +:+ nl) [AStr e]
      | inl jsonByte =>
          sendAllClients jsonByte (-1);;
          modify (set_phase 1)
      end
    else skip
  else printf ("Error: unknown message type in lobby phase" +:+ nl) [].

Definition handleMessage_game (J : JSON) (m : string) (p : option ptr) : M unit :=
  (* accept no more connections *)
  chan_send chStopListen true;;
  listener_close;;
  let '(data, err) := Unmarshal_GameData J m in
  (if err is Some e
   then printf "Error processing chat message: '%s'" [AStr m]
   else skip);;
  if String.eqb (gd_Type data) "start" then
    (* start ticking: s.ticking.SetToIf(false, true) *)
    s ← get;
    if ticking s then skip
    else modify (set_ticking true);; emit GoTicker
  else if String.eqb (gd_Type data) "player_event" then
    (* player changing direction: broadcast *)
    a ← deref p;
    s ← get;
    sendAllClients m (id (heap s !!! a))
  else printf "Error: unknown message type in game phase" [].

Definition handleMessage (J : JSON) (mf : msgFormat) : M unit :=
  let m := TrimSpace (msg mf) in
  s0 ← get;
  let p := findById (senderId mf) s0 in
  (if p is None then println "Error: Player not found in list." else skip);;
  if phase s0 =? 0 then handleMessage_lobby J m p
  else if phase s0 =? 1 then handleMessage_game J m p
  else skip.

(** [shutdown] and [handleDisconnect]. *)
Definition shutdown : M unit :=
  printf ("Initiating shutdown" +:+ nl) [];;
  chan_send chStopListen true;;
  listener_close;;
  chan_send chStopServer true.

Definition handleDisconnect (i : Z) : M unit :=
  s0 ← get;
  let p := findById i s0 in
  (if p is None then printf "Error during disconnect" [] else skip);;
  unsubscribe p;;
  printf ("Client with id: %d disconnected" +:+ nl) [AInt i];;
  s ← get;
  if (length (players s) <? 1)%nat then
    (if ticking s then chan_send chStopTick true else skip);;
    shutdown
  else skip.

(** [handleConnect], up to its read loop: the player is subscribed, told its
    color, and announced to the others.  The read loop that follows turns
    the lines of the connection into [msgs] events carrying [p.id] and ends
    with one [dconns] event. *)
Definition connectMsg (c : string) : string :=
  "{ " +:+ quoted "type" +:+ " : " +:+ quoted "connect" +:+ ", " +:+
  quoted "color" +:+ " : " +:+ quoted c +:+ " }".

Definition joinedMsg (c : string) : string :=
  "{ " +:+ quoted "type" +:+ " : " +:+ quoted "chat" +:+ ", " +:+
  quoted "color" +:+ " : " +:+ quoted c +:+ ", " +:+
  quoted "message" +:+ " : " +:+ quoted (c +:+ " has connected") +:+ " }".

Definition handleConnect (c : Conn) : M ptr :=
  printf ("Serving %s" +:+ nl) [AAddr c];;
  p ← new_client c;
  subscribe p;;
  s ← get;
  send c (connectMsg (color (heap s !!! p)));;
  sendAllClients (joinedMsg (color (heap s !!! p))) (id (heap s !!! p));;
  ret p.

(** [hostServer]: binding the port, and one turn of the accept loop.  On a
    failed [Accept] the loop stops when a stop request waits in [stopListen];
    otherwise it logs the error and forwards the [nil] connection it got. *)
Inductive Accepted := acceptConn (c : Conn) | acceptErr (e : string).

Inductive Listening := forwardConn (c : option Conn) | stopListening.

Definition hostServer_begin : M unit :=
  println "Start hosting server";;
  modify (set_serverListener lnOpen).

Definition hostServer_turn (a : Accepted) : M Listening :=
  match a with
  | acceptConn c => ret (forwardConn (Some c))
  | acceptErr e =>
      v ← chan_poll chStopListen;
      match v with
      | Some _ => println "Stop listening";; ret stopListening
      | None =>
          printf ("Error while listening: %s" +:+ nl) [AStr e];;
          ret (forwardConn None)
      end
  end.

(** ** The Broker loop and the goroutines beside it *)

(** The events [Start]'s [select] hands to a handler. *)
Inductive Event :=
  | evConn (c : Conn)          (* case conn := <-s.conns *)
  | evMsg (mf : msgFormat)     (* case msg := <-s.msgs *)
  | evDconn (i : Z).           (* case dconn := <-s.dconns *)

Definition Start_turn (J : JSON) (e : Event) : M unit :=
  match e with
  | evConn c => _ ← handleConnect c; skip
  | evMsg mf => handleMessage J mf
  | evDconn i => handleDisconnect i
  end.

(** The Broker is in its loop, stuck in a send on a full channel, or out of
    the loop. *)
Inductive Broker := brRunning | brStuck | brStopped.

(** The accept loop of [hostServer] is blocked in [Accept], or holds a
    connection it has accepted and is sending on [conns], or is gone. *)
Inductive AcceptLoop := alAccept | alHandOver (c : Conn) | alGone.

(** The server and its goroutines: the Broker, the accept loop, and the
    number of [ticker] goroutines that run. *)
Record World := {
  srv : Server;
  broker : Broker;
  acceptLoop : AcceptLoop;
  tickers : nat
}.

(** The world once [Start] has launched [hostServer] and the port is bound. *)
Definition bound (s : Server) : Server := set_serverListener lnOpen s.

Definition boot : World :=
  {| srv := bound Create; broker := brRunning; acceptLoop := alAccept; tickers := O |}.

(** The number of [go s.ticker()] statements among the actions. *)
Fixpoint launches (out : list Action) : nat :=
  match out with
  | [] => O
  | GoTicker :: out' => S (launches out')
  | _ :: out' => launches out'
  end.

Definition max_int : Z := 2 ^ 63 - 1.

(** What the Broker's [select] can receive.  A connection is the one the
    accept loop holds (and comes before the id counter has run through the
    range of [int]); a message or a disconnect notice comes from the read
    loop of a subscribed player and carries its id. *)
Definition deliverable (w : World) (e : Event) : Prop :=
  match e with
  | evConn c => acceptLoop w = alHandOver c /\ ids (srv w) < max_int
  | evMsg mf => is_Some (findById (senderId mf) (srv w))
  | evDconn i => is_Some (findById i (srv w))
  end.

(** The accept loop once the Broker has received the event: after a
    connection it is back in [Accept]. *)
Definition received (e : Event) (al : AcceptLoop) : AcceptLoop :=
  match e with
  | evConn _ => alAccept
  | _ => al
  end.

(** The labels of the steps: an event handled by the Broker, the stop case
    of its [select], an [Accept] of [hostServer] that returns a connection
    or fails, a turn of the ticker loop. *)
Inductive Label :=
  | lEvent (e : Event)
  | lStop
  | lAccept (c : Conn)
  | lAcceptErr (e : string)
  | lTick.

(** One step of the system.  Each handler is one step: the Go code runs
    [handleConnect] in a goroutine of its own and the ticker beside the
    Broker, without a lock; the steps are the runs in which they do not
    overlap.  A handler that returns leaves the Broker in its loop; one that
    blocks leaves it stuck at the state it reached (a Broker blocked while
    the accept loop can still take the stop request would go on afterwards:
    that run is the one in which the loop's turn comes first); a panic ends
    the process and makes no step.  [Accept] returns a connection only on an
    open listener, and fails on a closed one. *)
Inductive step (J : JSON) : World -> Label -> list Action -> World -> Prop :=
  | step_done w e s' out :
      broker w = brRunning ->
      deliverable w e ->
      Start_turn J e (srv w) = Done tt s' out ->
      step J w (lEvent e) out
        {| srv := s'; broker := brRunning; acceptLoop := received e (acceptLoop w);
           tickers := (tickers w + launches out)%nat |}
  | step_stuck w e s' out :
      broker w = brRunning ->
      deliverable w e ->
      Start_turn J e (srv w) = Blocked s' out ->
      step J w (lEvent e) out
        {| srv := s'; broker := brStuck; acceptLoop := received e (acceptLoop w);
           tickers := (tickers w + launches out)%nat |}
  | step_stop w v rest :
      broker w = brRunning ->
      stopServer (srv w) = v :: rest ->
      step J w lStop [Printf ("Server shutdown" +:+ nl) []]
        {| srv := set_chan chStopServer rest (srv w); broker := brStopped;
           acceptLoop := acceptLoop w; tickers := tickers w |}
  | step_accept w c s' out :
      acceptLoop w = alAccept ->
      serverListener (srv w) = lnOpen ->
      hostServer_turn (acceptConn c) (srv w) = Done (forwardConn (Some c)) s' out ->
      step J w (lAccept c) out
        {| srv := s'; broker := broker w; acceptLoop := alHandOver c;
           tickers := tickers w |}
  | step_accept_err w e s' out :
      acceptLoop w = alAccept ->
      serverListener (srv w) = lnClosed ->
      hostServer_turn (acceptErr e) (srv w) = Done stopListening s' out ->
      step J w (lAcceptErr e) out
        {| srv := s'; broker := broker w; acceptLoop := alGone; tickers := tickers w |}
  | step_tick_on w s' out :
      (0 < tickers w)%nat ->
      ticker_turn (srv w) = Done false s' out ->
      step J w lTick out
        {| srv := s'; broker := broker w; acceptLoop := acceptLoop w;
           tickers := tickers w |}
  | step_tick_off w s' out s'' out' :
      (0 < tickers w)%nat ->
      ticker_turn (srv w) = Done true s' out ->
      ticker_end s' = Done tt s'' out' ->
      step J w lTick (out ++ out')
        {| srv := s''; broker := broker w; acceptLoop := acceptLoop w;
           tickers := (tickers w - 1)%nat |}.

(** Runs: the labels and the actions of a sequence of steps. *)
Inductive steps (J : JSON) : World -> list Label -> list Action -> World -> Prop :=
  | steps_nil w : steps J w [] [] w
  | steps_cons w l out w' ls outs w'' :
      step J w l out w' ->
      steps J w' ls outs w'' ->
      steps J w (l :: ls) (out ++ outs) w''.

Definition reachable (J : JSON) (w : World) : Prop :=
  exists ls out, steps J boot ls out w.

(** ** Reading outcomes and actions *)

(** The state and the actions an outcome carries. *)
Definition state_of {A} (o : Outcome A) : Server :=
  match o with
  | Done _ s _ => s
  | Panic s _ => s
  | Blocked s _ => s
  end.

Definition actions_of {A} (o : Outcome A) : list Action :=
  match o with
  | Done _ _ out => out
  | Panic _ out => out
  | Blocked _ out => out
  end.

Definition panics {A} (o : Outcome A) : Prop :=
  match o with
  | Panic _ _ => True
  | _ => False
  end.

(** The bytes written to connections, in order. *)
Definition written (a : Action) : option (Conn * string) :=
  match a with
  | ConnWrite c b => Some (c, b)
  | _ => None
  end.

Definition writes (out : list Action) : list (Conn * string) := omap written out.

(** The writes of one [sendAllClients] in state [s]. *)
Definition deliveries (message : string) (except_id : Z) (s : Server) : list Action :=
  (fun a => ConnWrite (conn (heap s !!! a)) (message +:+ nl))
    <$> filter (fun a => id (heap s !!! a) <> except_id) (players s).

(** The colors the players hold, in the order of [s.players]. *)
Definition held (s : Server) : list string :=
  (fun a => color (heap s !!! a)) <$> players s.

(** The ids of the players, in the same order. *)
Definition player_ids (s : Server) : list Z :=
  (fun a => id (heap s !!! a)) <$> players s.

(** The fields of the session that the control channels and the listener
    are no part of. *)
Definition same_session (s s' : Server) : Prop :=
  players s' = players s /\ heap s' = heap s /\ free_colors s' = free_colors s /\
  ids s' = ids s /\ phase s' = phase s /\ ticking s' = ticking s /\
  stopTick s' = stopTick s.

(** Well-formed states: every player is in the store, ids are distinct and
    below the counter, the pool and the held colors make up the three
    colors, the phase is one of the two, no channel holds more than its
    capacity, and the listener is bound. *)
Definition wf (s : Server) : Prop :=
  Forall (fun a => (a < length (heap s))%nat) (players s) /\
  NoDup (player_ids s) /\
  Forall (fun i => 0 <= i < ids s) (player_ids s) /\
  0 <= ids s <= max_int /\
  (free_colors s ++ held s) ≡ₚ colors /\
  (phase s = 0 \/ phase s = 1) /\
  (length (stopTick s) <= chanCap)%nat /\
  (length (stopListen s) <= chanCap)%nat /\
  (length (stopServer s) <= chanCap)%nat /\
  serverListener s <> lnNil.

#[global] Instance Listener_eq_dec : EqDecision Listener.
Proof. solve_decision. Defined.

#[global] Instance wf_dec (s : Server) : Decision (wf s).
Proof. unfold wf. apply _. Defined.

(** The state after a connection [c] has been given the color [e]. *)
Definition joined (c : Conn) (e : string) (rest : list string) (s : Server) : Server :=
  set_free_colors rest
    (set_ids (wrap_int (ids s + 1))
       (set_heap (heap s ++ [{| id := ids s; conn := c; color := e; ready := false |}])
          (set_players (players s ++ [length (heap s)]) s))).

(** Two states agree on the players, their ids and colors, the pool and the
    id counter. *)
Definition same_roster (s s' : Server) : Prop :=
  players s' = players s /\ free_colors s' = free_colors s /\ ids s' = ids s /\
  player_ids s' = player_ids s /\ held s' = held s /\
  length (heap s') = length (heap s).

(** Between the state before and a state after [handleMessage]: the roster
    is the same; the phase is the same or went from 0 to 1; in phase 1 the
    stop request for the listener was sent and the listener closed, or
    nothing of it was done; the ticking flag is the same or was set. *)
Definition msg_effect (s s' : Server) : Prop :=
  same_roster s s' /\ stopTick s' = stopTick s /\ stopServer s' = stopServer s /\
  (phase s' = phase s \/ phase s = 0 /\ phase s' = 1) /\
  (stopListen s' = stopListen s /\ serverListener s' = serverListener s \/
   phase s = 1 /\ stopListen s = [] /\ stopListen s' = [true] /\
   (serverListener s' = lnClosed \/ serverListener s = lnNil)) /\
  (ticking s' = ticking s \/ phase s = 1 /\ ticking s = false /\ ticking s' = true).

(** What [handleDisconnect] does once the player is out of the list. *)
Definition teardown : M unit :=
  s ← get;
  if (length (players s) <? 1)%nat then
    (if ticking s then chan_send chStopTick true else skip);;
    shutdown
  else skip.

Definition left (a : ptr) (l : list ptr) (s : Server) : Server :=
  set_players l (set_free_colors (free_colors s ++ [color (heap s !!! a)]) s).

(** Between the state before and a state after [teardown]: nothing changes
    while a player is left; with none left the stop requests are sent, each
    into its empty channel, and the listener is closed, as far as the
    handler gets. *)
Definition sent (before after : list bool) : Prop :=
  after = before \/ before = [] /\ after = [true].

Definition teardown_effect (s s' : Server) : Prop :=
  same_roster s s' /\ phase s' = phase s /\ ticking s' = ticking s /\
  (players s <> [] -> s' = s) /\
  (stopTick s' = stopTick s \/
   ticking s = true /\ stopTick s = [] /\ stopTick s' = [true]) /\
  (stopListen s' = stopListen s /\ serverListener s' = serverListener s \/
   stopListen s = [] /\ stopListen s' = [true] /\
   (serverListener s' = lnClosed \/ serverListener s = lnNil)) /\
  sent (stopServer s) (stopServer s').


(** Connections handled one after the other; the result lists the new
    players. *)
Fixpoint connectAll (cs : list Conn) : M (list ptr) :=
  match cs with
  | [] => mret []
  | c :: cs' =>
      p ← handleConnect c;
      ps ← connectAll cs';
      mret (p :: ps)
  end.

(** The state once the stop request for the listener is sent into its empty
    channel and the listener closed. *)
Definition closing (s : Server) : Server :=
  set_serverListener lnClosed (set_chan chStopListen [true] s).

(** The handler returned or is blocked in a send: it did not panic. *)
Definition safe {A} (o : Outcome A) : Prop :=
  match o with
  | Panic _ _ => False
  | _ => True
  end.

(** The line [handleMessage] logs when [findById] found no player. *)
Definition notFound : Action := Printf ("Error: Player not found in list." +:+ nl) [].

(** The number of stop requests sent to the listener, and of closes of the
    listener, among the actions. *)
Fixpoint stop_requests (out : list Action) : nat :=
  match out with
  | [] => O
  | ChanSend chStopListen _ :: out' => S (stop_requests out')
  | _ :: out' => stop_requests out'
  end.

Fixpoint closes (out : list Action) : nat :=
  match out with
  | [] => O
  | ListenerClose :: out' => S (closes out')
  | _ :: out' => closes out'
  end.

(** While the accept loop runs on a closed listener, a stop request waits
    for it. *)
Definition listener_inv (w : World) : Prop :=
  acceptLoop w <> alGone -> serverListener (srv w) = lnClosed -> stopListen (srv w) <> [].

(** The number of connections the Broker handles in a run. *)
Fixpoint conns_handled (ls : list Label) : nat :=
  match ls with
  | [] => O
  | lEvent (evConn _) :: ls' => S (conns_handled ls')
  | _ :: ls' => conns_handled ls'
  end.

(** The number of connections the accept loop holds: one or none. *)
Definition held_conns (al : AcceptLoop) : nat :=
  match al with
  | alHandOver _ => 1
  | _ => 0
  end.

(** What a run that launched [n] tickers has led to: as many ticker
    goroutines run as the ticking flag says; at most one ticker was ever
    launched; the flag is set, or a stop request waits for the ticker, only
    after a launch and with the listener closed; and once a stop request was
    sent to the ticker no player is left and none will come: the accept
    loop is gone, or the Broker goes on no more. *)
Definition deserted (w : World) : Prop :=
  players (srv w) = [] /\ serverListener (srv w) = lnClosed /\
  (acceptLoop w = alGone \/ broker w <> brRunning).

Definition hist (n : nat) (w : World) : Prop :=
  tickers w = (if ticking (srv w) then 1 else 0)%nat /\
  (n <= 1)%nat /\
  (ticking (srv w) = true -> n = 1%nat /\ serverListener (srv w) = lnClosed) /\
  (stopTick (srv w) <> [] -> n = 1%nat /\ deserted w) /\
  (n = 1%nat -> ticking (srv w) = false -> deserted w).

(** A list of actions that only logs. *)
Definition only_logs (out : list Action) : Prop :=
  Forall (fun a => match a with Printf _ _ => True | _ => False end) out.

(** The type tag [handleMessage] reads in a line, in the lobby and in the
    game. *)
Definition lobby_type (J : JSON) (m : string) : string := cd_Type (Unmarshal_ChatData J m).1.
Definition game_type (J : JSON) (m : string) : string := gd_Type (Unmarshal_GameData J m).1.

(** A protocol error: the line is no JSON text, or its type tag is none of
    the phase. *)
Definition protocol_error (J : JSON) (s : Server) (m : string) : Prop :=
  json_checkValid J m <> None \/
  phase s = 0 /\ lobby_type J m <> "chat" /\ lobby_type J m <> "ready" \/
  phase s = 1 /\ game_type J m <> "start" /\ game_type J m <> "player_event".
(** ** A session to run the model on

  The lines that the repository's test ([TestServerTwoPlayers]) sends, a
  player event, and a decoder that answers on these lines what
  [encoding/json] answers on them; every other input it treats as
  ill-formed JSON. *)
Module Fixture.

Definition readyLine : string := "{" +:+ quoted "type" +:+ ":" +:+ quoted "ready" +:+ "}".

Definition startLine : string := "{" +:+ quoted "type" +:+ ":" +:+ quoted "start" +:+ "}".

Definition chatLine (c : string) : string :=
  "{" +:+ quoted "type" +:+ ": " +:+ quoted "chat" +:+ ", " +:+
  quoted "color" +:+ " : " +:+ quoted c +:+ ", " +:+
  quoted "message" +:+ ": " +:+ quoted "hello player 2" +:+ "}".

Definition eventLine : string :=
  "{" +:+ quoted "type" +:+ ":" +:+ quoted "player_event" +:+ "," +:+
  quoted "event" +:+ ":{" +:+ quoted "coord_x" +:+ ":3," +:+
  quoted "coord_y" +:+ ":4," +:+ quoted "direction" +:+ ":" +:+ quoted "up" +:+ "}}".

(** A well-formed line of a type no phase knows. *)
Definition pingLine : string := "{" +:+ quoted "type" +:+ ":" +:+ quoted "ping" +:+ "}".

(** A line that is no JSON text. *)
Definition brokenLine : string := "{" +:+ quoted "type" +:+ ":".

Definition chat (t c m : string) : ChatData :=
  {| cd_Type := t; cd_Color := c; cd_Message := m |}.

Definition game (t c : string) (x y : Z) (d : string) : GameData :=
  {| gd_Type := t; gd_Color := c;
     gd_Event := {| CoordX := x; CoordY := y; Direction := d |} |}.

Definition table : list (string * (ChatData * GameData)) :=
  [ (readyLine, (chat "ready" EmptyString EmptyString,
                 game "ready" EmptyString 0 0 EmptyString));
    (startLine, (chat "start" EmptyString EmptyString,
                 game "start" EmptyString 0 0 EmptyString));
    (chatLine "#ff0000", (chat "chat" "#ff0000" "hello player 2",
                          game "chat" "#ff0000" 0 0 EmptyString));
    (eventLine, (chat "player_event" EmptyString EmptyString,
                 game "player_event" EmptyString 3 4 "up"));
    (pingLine, (chat "ping" EmptyString EmptyString,
                game "ping" EmptyString 0 0 EmptyString)) ].

Fixpoint decode (t : list (string * (ChatData * GameData))) (m : string)
  : option (ChatData * GameData) :=
  match t with
  | [] => None
  | (k, v) :: t' => if String.eqb k m then Some v else decode t' m
  end.

Fixpoint join (sep : string) (l : list string) : string :=
  match l with
  | [] => EmptyString
  | [x] => x
  | x :: l' => x +:+ sep +:+ join sep l'
  end.

Definition marshal (sg : StartGame) : string :=
  "{" +:+ quoted "type" +:+ ":" +:+ quoted (sg_Type sg) +:+ "," +:+
  quoted "colors" +:+ ":[" +:+ join "," (quoted <$> sg_Colors sg) +:+ "]}".

Definition json : JSON :=
  {| json_checkValid m :=
       if decode table m is Some _ then None
       else Some "unexpected end of JSON input";
     json_decodeChat m :=
       if decode table m is Some (c, _) then (c, None) else (zeroChatData, None);
     json_decodeGame m :=
       if decode table m is Some (_, g) then (g, None) else (zeroGameData, None);
     json_marshalStartGame sg := inl (marshal sg);
     json_marshal_ok sg := ex_intro _ (marshal sg) eq_refl |}.

Definition after (e : Event) (s : Server) : Server := state_of (Start_turn json e s).

(** Two players in the lobby; both ready and the game on; the game after
    its first message, before and after the accept loop has seen the
    closed listener; the game after its second message. *)
Definition lobby1 : Server := Eval vm_compute in after (evConn 7%nat) (bound Create).

Definition lobby2 : Server := Eval vm_compute in after (evConn 8%nat) lobby1.

Definition ready_from (i : Z) : msgFormat := {| senderId := i; msg := readyLine +:+ nl |}.

Definition lobby2r : Server := Eval vm_compute in after (evMsg (ready_from 0)) lobby2.

Definition game0 : Server := Eval vm_compute in after (evMsg (ready_from 1)) lobby2r.

Definition chat_from (i : Z) : msgFormat :=
  {| senderId := i; msg := chatLine "#ff0000" +:+ nl |}.

(** The same chat line, sent with a blank before it. *)
Definition chat_indented_from (i : Z) : msgFormat :=
  {| senderId := i; msg := " " +:+ chatLine "#ff0000" +:+ nl |}.

Definition broken_from (i : Z) : msgFormat := {| senderId := i; msg := brokenLine +:+ nl |}.

Definition ping_from (i : Z) : msgFormat := {| senderId := i; msg := pingLine +:+ nl |}.

Definition start_from (i : Z) : msgFormat := {| senderId := i; msg := startLine +:+ nl |}.

Definition event_from (i : Z) : msgFormat := {| senderId := i; msg := eventLine +:+ nl |}.

Definition closedErr : string := "use of closed network connection".

Definition game1 : Server := Eval vm_compute in after (evMsg (start_from 0)) game0.

Definition game1' : Server :=
  Eval vm_compute in state_of (hostServer_turn (acceptErr closedErr) game1).

Definition game2 : Server := Eval vm_compute in after (evMsg (event_from 1)) game1'.

(** One player has left the game after its second message. *)
Definition game2_alone : Server := Eval vm_compute in after (evDconn 0) game2.

(** The last player leaves: the handler blocks. *)
Definition game2_stuck : Server := Eval vm_compute in after (evDconn 1) game2_alone.

(** The worlds around these states. *)
Definition world (s : Server) (b : Broker) (al : AcceptLoop) (n : nat) : World :=
  {| srv := s; broker := b; acceptLoop := al; tickers := n |}.

Definition w_boot_held : World := world (bound Create) brRunning (alHandOver 7%nat) 0.
Definition w_lobby1 : World := world lobby1 brRunning alAccept 0.
Definition w_lobby1_held : World := world lobby1 brRunning (alHandOver 8%nat) 0.
Definition w_lobby2 : World := world lobby2 brRunning alAccept 0.
Definition w_lobby2r : World := world lobby2r brRunning alAccept 0.
Definition w_game0 : World := world game0 brRunning alAccept 0.
Definition w_game1 : World := world game1 brRunning alAccept 1.
Definition w_game1' : World := world game1' brRunning alGone 1.
Definition w_game2 : World := world game2 brRunning alGone 1.
Definition w_game2_alone : World := world game2_alone brRunning alGone 1.
Definition w_game2_stuck : World := world game2_stuck brStuck alGone 1.

(** The game after its second message, with the Broker blocked in the
    handler of a third. *)
Definition w_game2_blocked : World := world game2 brStuck alGone 1.



End Fixture.

(** ** The test's check of the start-game notice

    [assertStartGameReceived] in the repository's test: the decoded notice
    must have the type [start_game] ([assertEqual], which ends the test
    otherwise), and for every expected color [colors[j]] the flag
    [colorsOk[j]] must have been set by the double loop over the received and
    the expected colors.  The result says whether the test goes on without
    a failure reported. *)
Definition mark (colors : list string) (received : string) (ok : list bool) : list bool :=
  zip_with (fun c b => if String.eqb received c then true else b) colors ok.

Definition colorsOk (received colors : list string) : list bool :=
  foldl (fun ok r => mark colors r ok) (replicate (length colors) false) received.

Definition assertStartGameReceived (startData : StartGame) (colors : list string) : bool :=
  String.eqb (sg_Type startData) "start_game"
  && forallb (fun b => b) (colorsOk (sg_Colors startData) colors).

(** ** More vocabulary *)

(** A byte sequence that [TrimSpace] leaves as it is at its front: no
    white-space rune stands there.  And the same at the front of a reversed
    sequence, for the back. *)
Definition untrimmable_front (bs : list N) : Prop :=
  isSpaceRune (take 1 bs) = false /\ isSpaceRune (take 2 bs) = false /\
  isSpaceRune (take 3 bs) = false.

Definition untrimmable_back (rbs : list N) : Prop :=
  isSpaceRune (reverse (take 1 rbs)) = false /\
  isSpaceRune (reverse (take 2 rbs)) = false /\
  isSpaceRune (reverse (take 3 rbs)) = false.

(** The bytes [TrimSpace] keeps of a byte sequence. *)
Definition trimmed (bs : list N) : list N :=
  let front := trimFront (length bs) bs in
  reverse (trimBack (length front) (reverse front)).

(** What the server may do to the struct of a player: the id, the
    connection and the color stay, and a ready flag that is set stays set. *)
Definition kept (c c' : client) : Prop :=
  id c' = id c /\ conn c' = conn c /\ color c' = color c /\
  (ready c = true -> ready c' = true).

(** The ticking flag is set only in the game. *)
Definition ticking_in_game (s : Server) : Prop := ticking s = true -> phase s = 1.

(** A stop request for the listener waits only with the listener closed. *)
Definition listen_inv (s : Server) : Prop :=
  stopListen s <> [] -> serverListener s = lnClosed.

(** The Broker loop is asked to stop, or has stopped, only with the listener
    closed. *)
Definition stop_inv (w : World) : Prop :=
  stopServer (srv w) <> [] \/ broker w = brStopped -> serverListener (srv w) = lnClosed.

(** The stop requests the accept loop has taken: it takes one, and is
    gone. *)
Definition taken (al : AcceptLoop) : nat :=
  match al with
  | alGone => 1
  | _ => 0
  end.

(** ** More sessions *)

Module Crowd.

(** Three players in the lobby: the pool is empty. *)
Definition lobby3 : Server :=
  Eval vm_compute in Fixture.after (evConn 9%nat) Fixture.lobby2.

(** The first two of them are ready. *)
Definition lobby3r : Server :=
  Eval vm_compute in
    Fixture.after (evMsg (Fixture.ready_from 1))
      (Fixture.after (evMsg (Fixture.ready_from 0)) lobby3).

(** A decoder that reads the type tag of a line as [Fixture.json] does and
    nothing else: color, message, coordinates and direction stay zero. *)
Definition blind : JSON :=
  {| json_checkValid := json_checkValid Fixture.json;
     json_decodeChat m :=
       (Fixture.chat (cd_Type (json_decodeChat Fixture.json m).1) EmptyString EmptyString,
        None);
     json_decodeGame m :=
       (Fixture.game (gd_Type (json_decodeGame Fixture.json m).1) EmptyString 0 0
          EmptyString,
        None);
     json_marshalStartGame := json_marshalStartGame Fixture.json;
     json_marshal_ok := json_marshal_ok Fixture.json |}.

End Crowd.

(** * Verification *)

(** ** Running the primitives *)

Lemma prepend_nil {B} (o : Outcome B) : prepend [] o = o.
Proof. destruct o; reflexivity. Qed.

Lemma prepend_prepend {B} (out1 out2 : list Action) (o : Outcome B) :
  prepend out1 (prepend out2 o) = prepend (out1 ++ out2) o.
Proof. destruct o; cbn; rewrite app_assoc; reflexivity. Qed.

Lemma state_of_prepend {B} (out : list Action) (o : Outcome B) :
  state_of (prepend out o) = state_of o.
Proof. destruct o; reflexivity. Qed.

Lemma actions_of_prepend {B} (out : list Action) (o : Outcome B) :
  actions_of (prepend out o) = out ++ actions_of o.
Proof. destruct o; reflexivity. Qed.

(** Unfolds the monad's operations and reads fields of updated structs. *)
Ltac step_m :=
  repeat (progress (
    unfold mbind, M_bind, mret, M_ret, bind, printf, println, skip, ret, get, modify,
      emit, panic, block;
    cbn [prepend app state_of actions_of panics
         players free_colors ids phase ticking stopTick stopListen stopServer
         serverListener heap
         set_players set_free_colors set_ids set_phase set_ticking
         set_serverListener set_heap set_chan chan store])).

Lemma for_each_sends (s : Server) (message : string) (except_id : Z) (l : list ptr) :
  for_each l (fun a =>
      if id (heap s !!! a) =? except_id then skip
      else emit (ConnWrite (conn (heap s !!! a)) message)) s
  = Done tt s ((fun a => ConnWrite (conn (heap s !!! a)) message)
                 <$> filter (fun a => id (heap s !!! a) <> except_id) l).
Proof.
  induction l as [|a l IH]; [reflexivity|].
  cbn [for_each]. rewrite filter_cons. unfold mbind, M_bind, bind.
  destruct (Z.eqb_spec (id (heap s !!! a)) except_id) as [E|E].
  - rewrite decide_False by (intros H; apply H, E). cbn. rewrite IH. reflexivity.
  - rewrite decide_True by exact E. cbn. rewrite IH. reflexivity.
Qed.

Lemma sendAllClients_run (message : string) (except_id : Z) (s : Server) :
  sendAllClients message except_id s = Done tt s (deliveries message except_id s).
Proof.
  unfold sendAllClients, deliveries. unfold mbind, M_bind, bind, get.
  rewrite for_each_sends. reflexivity.
Qed.

Lemma chan_send_room (ch : Chan) (v : bool) (s : Server) :
  chan ch s = [] ->
  chan_send ch v s = Done tt (set_chan ch [v] s) [ChanSend ch v].
Proof.
  intros H. unfold chan_send, mbind, M_bind, bind, get. rewrite H. reflexivity.
Qed.

Lemma chan_send_full (ch : Chan) (v : bool) (s : Server) :
  chan ch s <> [] ->
  chan_send ch v s = Blocked s [].
Proof.
  intros H. unfold chan_send, mbind, M_bind, bind, get.
  destruct (chan ch s) as [|x l]; [congruence|]. reflexivity.
Qed.

Lemma listener_close_run (s : Server) :
  serverListener s <> lnNil ->
  listener_close s = Done tt (set_serverListener lnClosed s) [ListenerClose].
Proof.
  intros H. unfold listener_close, mbind, M_bind, bind, get. cbn.
  destruct (serverListener s); [congruence| |]; reflexivity.
Qed.

(** ** [findById] *)

Lemma findById_in_Some (h : list client) (l : list ptr) (i : Z) (a : ptr) :
  findById_in h l i = Some a -> a ∈ l /\ id (h !!! a) = i.
Proof.
  induction l as [|b l IH]; cbn; [discriminate|].
  destruct (Z.eqb_spec (id (h !!! b)) i) as [E|E].
  - intros [= <-]. split; [left | exact E].
  - intros H. destruct (IH H) as [Hin Hid]. split; [right; exact Hin | exact Hid].
Qed.

Lemma findById_in_None (h : list client) (l : list ptr) (i : Z) :
  findById_in h l i = None -> Forall (fun a => id (h !!! a) <> i) l.
Proof.
  induction l as [|b l IH]; cbn; [constructor|].
  destruct (Z.eqb_spec (id (h !!! b)) i) as [E|E]; [discriminate|].
  intros H. constructor; [exact E | exact (IH H)].
Qed.

Lemma findById_in_elem (h : list client) (l : list ptr) (a : ptr) :
  NoDup ((fun q => id (h !!! q)) <$> l) -> a ∈ l ->
  findById_in h l (id (h !!! a)) = Some a.
Proof.
  induction l as [|b l IH]; cbn; intros Hnd Hin.
  - inversion Hin.
  - apply NoDup_cons in Hnd as [Hb Hnd].
    destruct (Z.eqb_spec (id (h !!! b)) (id (h !!! a))) as [E|E].
    + apply elem_of_cons in Hin as [->|Hin]; [reflexivity|].
      exfalso. apply Hb. rewrite E. apply list_elem_of_fmap. exists a. split; [reflexivity | exact Hin].
    + apply elem_of_cons in Hin as [->|Hin]; [congruence|]. apply IH; assumption.
Qed.

Lemma findById_Some (i : Z) (s : Server) (a : ptr) :
  findById i s = Some a -> a ∈ players s /\ id (heap s !!! a) = i.
Proof. apply findById_in_Some. Qed.

(** Ids are distinct, so the pointers are, and comparing ids is comparing
    players. *)
Lemma player_ids_inj (s : Server) (a b : ptr) :
  NoDup (player_ids s) -> a ∈ players s -> b ∈ players s ->
  id (heap s !!! a) = id (heap s !!! b) -> a = b.
Proof.
  unfold player_ids. intros Hnd Ha Hb E.
  apply list_elem_of_lookup in Ha as [i Hi]. apply list_elem_of_lookup in Hb as [j Hj].
  assert (i = j) as ->.
  { eapply NoDup_lookup; [exact Hnd | |].
    - rewrite list_lookup_fmap, Hi. reflexivity.
    - rewrite list_lookup_fmap, Hj. cbn. rewrite E. reflexivity. }
  congruence.
Qed.

Lemma players_NoDup (s : Server) : NoDup (player_ids s) -> NoDup (players s).
Proof. unfold player_ids. apply NoDup_fmap_1. Qed.

(** The players other than [a], by pointer and by id. *)
Lemma filter_on_elems {A} (P Q : A -> Prop) `{!forall x, Decision (P x)}
    `{!forall x, Decision (Q x)} (l : list A) :
  (forall x, x ∈ l -> P x <-> Q x) -> filter P l = filter Q l.
Proof.
  induction l as [|x l IH]; intros HPQ; [reflexivity|].
  rewrite !filter_cons.
  assert (filter P l = filter Q l) as ->.
  { apply IH. intros y Hy. apply HPQ. right. exact Hy. }
  destruct (decide (P x)) as [HP|HP], (decide (Q x)) as [HQ|HQ]; try reflexivity.
  - exfalso. apply HQ, HPQ; [left | exact HP].
  - exfalso. apply HP, HPQ; [left | exact HQ].
Qed.

Lemma filter_others (s : Server) (a : ptr) :
  NoDup (player_ids s) -> a ∈ players s ->
  filter (fun q => id (heap s !!! q) <> id (heap s !!! a)) (players s)
  = filter (fun q => q <> a) (players s).
Proof.
  intros Hnd Ha. apply filter_on_elems. intros q Hq. split.
  - intros H ->. apply H. reflexivity.
  - intros H E. apply H. eapply player_ids_inj; eassumption.
Qed.

(** ** [unsubscribe] *)

(** Places that do not hold [p] are passed over. *)
Lemma unsubscribe_loop_advance (p : option ptr) (k1 k2 i : nat) (arr : list ptr) (s : Server) :
  (forall j, (i <= j < i + k1)%nat -> arr !! j <> p) ->
  unsubscribe_loop p (k1 + k2) i arr s = unsubscribe_loop p k2 (i + k1) arr s.
Proof.
  revert i. induction k1 as [|k1 IH]; intros i H.
  - rewrite Nat.add_0_r. reflexivity.
  - cbn [unsubscribe_loop Nat.add]. step_m.
    rewrite decide_False by (intros E; apply (H i); [lia | congruence]).
    rewrite IH by (intros j Hj; apply H; lia).
    replace (S i + k1)%nat with (i + S k1)%nat by lia.
    apply prepend_nil.
Qed.

Lemma unsubscribe_loop_skip (p : option ptr) (k i : nat) (arr : list ptr) (s : Server) :
  (forall j, (i <= j < i + k)%nat -> arr !! j <> p) ->
  unsubscribe_loop p k i arr s = Done tt s [].
Proof.
  intros H. rewrite <- (Nat.add_0_r k). rewrite unsubscribe_loop_advance by exact H.
  reflexivity.
Qed.

(** A pointer that is in the list once is removed, and its color goes to the
    back of the pool. *)
Lemma unsubscribe_run (a : ptr) (l1 l2 : list ptr) (s : Server) :
  players s = l1 ++ a :: l2 -> a ∉ l1 -> a ∉ l2 ->
  unsubscribe (Some a) s
  = Done tt
      (set_players (l1 ++ l2)
         (set_free_colors (free_colors s ++ [color (heap s !!! a)]) s))
      [Printf ("Client with color: %s unsubscribed" +:+ nl) [AStr (color (heap s !!! a))]].
Proof.
  intros Hps H1 H2. unfold unsubscribe. step_m.
  rewrite Hps, length_app. cbn [length].
  rewrite unsubscribe_loop_advance.
  2: { intros j Hj E. apply H1. eapply list_elem_of_lookup_2.
       rewrite lookup_app_l in E by lia. exact E. }
  cbn [unsubscribe_loop Nat.add]. step_m.
  rewrite decide_True by (symmetry; apply list_lookup_middle; reflexivity).
  step_m. cbn [players set_free_colors]. rewrite Hps, length_app. cbn [length].
  replace (S (length l1) <=? length l1 + S (length l2))%nat with true
    by (symmetry; apply Nat.leb_le; lia).
  step_m.
  assert (Hd : drop (S (length l1)) (l1 ++ a :: l2) = l2).
  { rewrite drop_app_ge by lia.
    replace (S (length l1) - length l1)%nat with 1%nat by lia. reflexivity. }
  rewrite take_app_length, Hd.
  rewrite unsubscribe_loop_skip; [reflexivity|].
  intros j Hj E. unfold remove_at in E.
  rewrite take_app_length, Hd, length_app in E. cbn [length] in E.
  assert (Hin : a ∈ (l1 ++ l2) ++ drop (length l1 + S (length l2) - 1) (l1 ++ a :: l2))
    by (eapply list_elem_of_lookup_2; exact E).
  destruct l2 as [|b l2]; [cbn in Hj; lia|].
  rewrite drop_app_ge in Hin by lia.
  replace (length l1 + S (length (b :: l2)) - 1 - length l1)%nat
    with (S (length l2)) in Hin by (cbn; lia).
  cbn [drop] in Hin.
  apply elem_of_app in Hin as [Hin|Hin].
  - apply elem_of_app in Hin as [Hin|Hin]; [exact (H1 Hin) | exact (H2 Hin)].
  - apply H2. eapply subseteq_drop. exact Hin.
Qed.

Lemma unsubscribe_absent (p : option ptr) (s : Server) :
  (forall a, p = Some a -> a ∉ players s) ->
  unsubscribe p s = Done tt s [].
Proof.
  intros H. unfold unsubscribe. step_m. rewrite unsubscribe_loop_skip; [reflexivity|].
  intros j Hj E. destruct p as [a|].
  - apply (H a eq_refl). eapply list_elem_of_lookup_2. exact E.
  - apply lookup_ge_None in E. cbn in Hj. lia.
Qed.

(** ** [handleConnect] *)

Lemma alter_last {A} (f : A -> A) (l : list A) (x : A) :
  alter f (length l) (l ++ [x]) = l ++ [f x].
Proof. induction l as [|y l IH]; cbn; [reflexivity | rewrite IH; reflexivity]. Qed.

Lemma lookup_total_last `{!Inhabited A} (l : list A) (x : A) :
  (l ++ [x]) !!! length l = x.
Proof. apply list_lookup_total_middle. reflexivity. Qed.

Lemma handleConnect_run (c : Conn) (s : Server) (e : string) (rest : list string) :
  free_colors s = e :: rest ->
  handleConnect c s
  = Done (length (heap s)) (joined c e rest s)
      ([Printf ("Serving %s" +:+ nl) [AAddr c];
        Printf ("Client subscribed. Color: %s" +:+ nl) [AStr e];
        ConnWrite c (connectMsg e +:+ nl)]
       ++ deliveries (joinedMsg e) (ids s) (joined c e rest s)).
Proof.
  intros Hfree. unfold handleConnect, subscribe, new_client, send. step_m.
  rewrite Hfree. step_m. rewrite sendAllClients_run. step_m.
  rewrite !alter_last, !lookup_total_last. cbn [with_id with_color id conn color ready].
  rewrite !app_nil_r.
  match goal with |- Done _ ?s1 _ = _ => assert (Hs : s1 = joined c e rest s) end.
  { unfold joined, store, set_free_colors, set_ids, set_heap, set_players. cbn.
    rewrite !alter_last. reflexivity. }
  rewrite Hs. reflexivity.
Qed.

Lemma handleConnect_empty (c : Conn) (s : Server) :
  free_colors s = [] -> panics (handleConnect c s).
Proof.
  intros Hfree. unfold handleConnect, subscribe, new_client, send. step_m.
  rewrite Hfree. step_m. exact I.
Qed.

(** ** Well-formed states stay well-formed *)

Lemma same_roster_refl (s : Server) : same_roster s s.
Proof. repeat split. Qed.

Lemma same_roster_trans (s1 s2 s3 : Server) :
  same_roster s1 s2 -> same_roster s2 s3 -> same_roster s1 s3.
Proof. unfold same_roster. intros (?&?&?&?&?&?) (?&?&?&?&?&?). repeat split; congruence. Qed.

Lemma same_roster_fields (s s1 s2 : Server) :
  same_roster s s1 ->
  players s2 = players s1 -> heap s2 = heap s1 ->
  free_colors s2 = free_colors s1 -> ids s2 = ids s1 ->
  same_roster s s2.
Proof.
  unfold same_roster, player_ids, held. intros (?&?&?&?&?&?) -> -> -> ->.
  repeat split; assumption.
Qed.

Lemma wf_frame (s s' : Server) :
  wf s -> same_roster s s' ->
  (phase s' = 0 \/ phase s' = 1) ->
  (length (stopTick s') <= chanCap)%nat ->
  (length (stopListen s') <= chanCap)%nat ->
  (length (stopServer s') <= chanCap)%nat ->
  serverListener s' <> lnNil ->
  wf s'.
Proof.
  unfold wf, same_roster.
  intros (H1&H2&H3&[H4 H4']&H5&_) (E1&E2&E3&E4&E5&E6) ? ? ? ? ?.
  rewrite E1, E2, E3, E4, E5, E6. repeat split; assumption.
Qed.

Lemma with_ready_lookup (v : bool) (a q : ptr) (h : list client) :
  id (alter (with_ready v) a h !!! q) = id (h !!! q) /\
  color (alter (with_ready v) a h !!! q) = color (h !!! q) /\
  conn (alter (with_ready v) a h !!! q) = conn (h !!! q).
Proof.
  rewrite list_lookup_total_alter. case_decide as H; [|repeat split].
  destruct H as [-> _]. repeat split.
Qed.

Lemma same_roster_ready (v : bool) (a : ptr) (s : Server) :
  same_roster s (store a (with_ready v) s).
Proof.
  unfold same_roster, player_ids, held. step_m. repeat split.
  - apply list_fmap_ext. intros _ q _. apply with_ready_lookup.
  - apply list_fmap_ext. intros _ q _. apply with_ready_lookup.
  - apply length_alter.
Qed.

(** Admission. *)
Lemma wrap_int_succ (z : Z) : 0 <= z < max_int -> wrap_int (z + 1) = z + 1.
Proof.
  unfold wrap_int, max_int. intros H.
  rewrite Z.mod_small by lia. lia.
Qed.

Lemma joined_player_ids (c : Conn) (e : string) (rest : list string) (s : Server) :
  Forall (fun a => (a < length (heap s))%nat) (players s) ->
  player_ids (joined c e rest s) = player_ids s ++ [ids s].
Proof.
  intros Hh. unfold player_ids, joined. step_m.
  rewrite fmap_app. cbn [fmap list_fmap]. rewrite lookup_total_last. cbn [id].
  f_equal. apply Forall_fmap_ext_1. eapply Forall_impl; [exact Hh|].
  intros a Ha. cbn beta. rewrite lookup_total_app_l by exact Ha. reflexivity.
Qed.

Lemma joined_held (c : Conn) (e : string) (rest : list string) (s : Server) :
  Forall (fun a => (a < length (heap s))%nat) (players s) ->
  held (joined c e rest s) = held s ++ [e].
Proof.
  intros Hh. unfold held, joined. step_m.
  rewrite fmap_app. cbn [fmap list_fmap]. rewrite lookup_total_last. cbn [color].
  f_equal. apply Forall_fmap_ext_1. eapply Forall_impl; [exact Hh|].
  intros a Ha. cbn beta. rewrite lookup_total_app_l by exact Ha. reflexivity.
Qed.

Lemma wf_joined (c : Conn) (e : string) (rest : list string) (s : Server) :
  wf s -> free_colors s = e :: rest -> ids s < max_int ->
  wf (joined c e rest s).
Proof.
  intros (H1&H2&H3&[H4 H4']&H5&H6&H7&H8&H9&H10) Hfree Hids.
  unfold wf. rewrite joined_player_ids, joined_held by exact H1.
  unfold joined. step_m. rewrite wrap_int_succ by lia.
  repeat split; try assumption; try lia.
  - apply Forall_app. split.
    + eapply Forall_impl; [exact H1|]. intros a Ha. cbn beta in *. rewrite length_app. lia.
    + repeat constructor. rewrite length_app. cbn. lia.
  - apply NoDup_app. repeat split; [exact H2| |apply NoDup_singleton].
    intros i Hi [->|[]%elem_of_nil]%elem_of_cons.
    rewrite Forall_forall in H3. specialize (H3 _ Hi). lia.
  - apply Forall_app. split.
    + eapply Forall_impl; [exact H3|]. intros i Hi. cbn beta in *. lia.
    + repeat constructor; lia.
  - rewrite Hfree in H5. rewrite <- H5.
    rewrite (Permutation_app_comm (held s) [e]). cbn [app].
    rewrite Permutation_middle. reflexivity.
Qed.

(** Departure. *)
Lemma wf_unsubscribed (a : ptr) (l1 l2 : list ptr) (s : Server) :
  wf s -> players s = l1 ++ a :: l2 ->
  wf (set_players (l1 ++ l2)
        (set_free_colors (free_colors s ++ [color (heap s !!! a)]) s)).
Proof.
  intros (H1&H2&H3&[H4 H4']&H5&H6&H7&H8&H9&H10) Hps.
  unfold wf, player_ids, held in *. step_m. rewrite Hps in *.
  rewrite !fmap_app, !fmap_cons in *.
  repeat split; try assumption.
  - apply Forall_app in H1 as [? [_ ?]%Forall_cons]. apply Forall_app. split; assumption.
  - apply NoDup_app in H2 as (?&Hd&[? ?]%NoDup_cons).
    apply NoDup_app. repeat split; [assumption| |assumption].
    intros i Hi Hi'. apply (Hd i Hi). right. exact Hi'.
  - apply Forall_app in H3 as [? [_ ?]%Forall_cons]. apply Forall_app. split; assumption.
  - rewrite <- H5, <- (app_assoc (free_colors s)). apply Permutation_app_head.
    cbn [app]. apply Permutation_middle.
Qed.

(** ** What [handleMessage] does to the state *)

(** Splits on the innermost condition the goal branches on. *)
Ltac split_innermost :=
  match goal with
  | |- context [match ?x with _ => _ end] =>
      lazymatch x with
      | context [match _ with _ => _ end] => fail
      | _ => destruct x eqn:?
      end
  end.

Ltac unfold_handler :=
  unfold handleMessage, handleMessage_lobby, handleMessage_game, chan_send, listener_close,
    deref.

Ltac crunch :=
  repeat (first
    [ progress step_m
    | rewrite sendAllClients_run
    | split_innermost ]).

Lemma handleMessage_effect (J : JSON) (mf : msgFormat) (s : Server) :
  msg_effect s (state_of (handleMessage J mf s)).
Proof.
  unfold_handler. crunch.
  all: unfold msg_effect; step_m.
  all: repeat match goal with
       | H : (_ =? _) = true |- _ => apply Z.eqb_eq in H
       | H : (_ <? _)%nat = true |- _ => apply Nat.ltb_lt in H
       end.
  all: try (destruct (stopListen s); [|cbn in *; unfold chanCap in *; lia]).
  all: split;
    [ first [ eapply same_roster_fields; [apply same_roster_refl | reflexivity ..]
            | eapply same_roster_fields; [apply same_roster_ready | reflexivity ..] ] |].
  all: cbn [app]; intuition congruence.
Qed.

Lemma handleMessage_wf (J : JSON) (mf : msgFormat) (s : Server) :
  wf s -> wf (state_of (handleMessage J mf s)).
Proof.
  intros Hwf. pose proof (handleMessage_effect J mf s) as (Hr&Ht&Hs&Hp&Hl&_).
  pose proof Hwf as (_&_&_&_&_&Hphase&Htick&Hlisten&Hserver&Hbound).
  apply (wf_frame s); try assumption.
  - destruct Hp as [->|[_ ->]]; [exact Hphase | right; reflexivity].
  - rewrite Ht. exact Htick.
  - destruct Hl as [[-> _]|(_&_&->&_)]; [exact Hlisten | cbn; unfold chanCap; lia].
  - rewrite Hs. exact Hserver.
  - destruct Hl as [[_ ->]|(_&_&_&[->|E])]; [exact Hbound | discriminate | contradiction].
Qed.

(** ** [handleDisconnect] *)

Lemma handleDisconnect_run (i : Z) (s : Server) (a : ptr) (l1 l2 : list ptr) :
  findById i s = Some a ->
  players s = l1 ++ a :: l2 -> a ∉ l1 -> a ∉ l2 ->
  handleDisconnect i s
  = prepend
      [Printf ("Client with color: %s unsubscribed" +:+ nl) [AStr (color (heap s !!! a))];
       Printf ("Client with id: %d disconnected" +:+ nl) [AInt i]]
      (teardown (left a (l1 ++ l2) s)).
Proof.
  intros Hf Hps H1 H2. unfold handleDisconnect. step_m. rewrite Hf. step_m.
  rewrite (unsubscribe_run a l1 l2 s Hps H1 H2). step_m.
  unfold teardown, left. step_m.
  destruct (length (l1 ++ l2) <? 1)%nat;
    rewrite ?prepend_prepend, ?prepend_nil; cbn [app]; rewrite ?prepend_nil; reflexivity.
Qed.

Lemma handleDisconnect_absent (i : Z) (s : Server) :
  findById i s = None ->
  handleDisconnect i s
  = prepend
      [Printf "Error during disconnect" [];
       Printf ("Client with id: %d disconnected" +:+ nl) [AInt i]]
      (teardown s).
Proof.
  intros Hf. unfold handleDisconnect. step_m. rewrite Hf. step_m.
  rewrite unsubscribe_absent by discriminate. step_m.
  unfold teardown. step_m.
  destruct (length (players s) <? 1)%nat;
    rewrite ?prepend_prepend, ?prepend_nil; cbn [app]; rewrite ?prepend_nil; reflexivity.
Qed.

Lemma teardown_run_effect (s : Server) : teardown_effect s (state_of (teardown s)).
Proof.
  unfold teardown, shutdown, chan_send, listener_close. crunch.
  all: unfold teardown_effect, sent; step_m.
  all: repeat match goal with
       | H : (_ <? _)%nat = true |- _ => apply Nat.ltb_lt in H
       | H : (_ <? _)%nat = false |- _ => apply Nat.ltb_ge in H
       end.
  all: split; [eapply same_roster_fields; [apply same_roster_refl | reflexivity ..] |].
  all: repeat match goal with
       | H : (length ?l < chanCap)%nat |- _ =>
           destruct l; [clear H | cbn in H; unfold chanCap in H; lia]
       end.
  all: cbn [app].
  all: repeat split; try tauto; try (intros Hne; destruct (players s); [congruence | cbn in *; lia]).
Qed.

Lemma left_wf (a : ptr) (l1 l2 : list ptr) (s : Server) :
  wf s -> players s = l1 ++ a :: l2 -> wf (left a (l1 ++ l2) s).
Proof. apply wf_unsubscribed. Qed.

Lemma sent_length (before after : list bool) :
  sent before after -> (length before <= chanCap)%nat -> (length after <= chanCap)%nat.
Proof. intros [->|[_ ->]] H; [exact H | cbn; unfold chanCap; lia]. Qed.

Lemma teardown_wf (s : Server) : wf s -> wf (state_of (teardown s)).
Proof.
  intros Hwf. pose proof (teardown_run_effect s) as (Hr&Hp&_&_&Ht&Hl&Hs).
  pose proof Hwf as (_&_&_&_&_&Hphase&Htick&Hlisten&Hserver&Hbound).
  apply (wf_frame s); try assumption.
  - rewrite Hp. exact Hphase.
  - destruct Ht as [->|(_&_&->)]; [exact Htick | cbn; unfold chanCap; lia].
  - destruct Hl as [[-> _]|(_&->&_)]; [exact Hlisten | cbn; unfold chanCap; lia].
  - eapply sent_length; eassumption.
  - destruct Hl as [[_ ->]|(_&_&[->|E])]; [exact Hbound | discriminate | contradiction].
Qed.

(** A player found by id splits the list around itself. *)
Lemma players_split (s : Server) (a : ptr) :
  NoDup (players s) -> a ∈ players s ->
  exists l1 l2, players s = l1 ++ a :: l2 /\ (a ∉ l1) /\ (a ∉ l2).
Proof.
  intros Hnd Ha. apply list_elem_of_split in Ha as (l1&l2&E).
  exists l1, l2. rewrite E in Hnd.
  apply NoDup_app in Hnd as (_&Hd&[H2 _]%NoDup_cons).
  repeat split; [exact E | | exact H2].
  intros H1. apply (Hd a H1). left.
Qed.

Lemma handleDisconnect_wf (i : Z) (s : Server) :
  wf s -> wf (state_of (handleDisconnect i s)).
Proof.
  intros Hwf. destruct (findById i s) as [a|] eqn:Hf.
  - apply findById_Some in Hf as Ha. destruct Ha as [Ha _].
    destruct (players_split s a) as (l1&l2&Hps&H1&H2);
      [apply players_NoDup, Hwf | exact Ha |].
    rewrite (handleDisconnect_run i s a l1 l2 Hf Hps H1 H2), state_of_prepend.
    apply teardown_wf, left_wf; assumption.
  - rewrite (handleDisconnect_absent i s Hf), state_of_prepend.
    apply teardown_wf, Hwf.
Qed.

Lemma handleConnect_wf (c : Conn) (s : Server) :
  wf s -> ids s < max_int -> ~ panics (handleConnect c s) ->
  wf (state_of (handleConnect c s)).
Proof.
  intros Hwf Hids Hnp. destruct (free_colors s) as [|e rest] eqn:Hfree.
  - exfalso. apply Hnp, handleConnect_empty, Hfree.
  - rewrite (handleConnect_run c s e rest Hfree). apply wf_joined; assumption.
Qed.

(** ** The steps of the system keep the state well-formed *)

Lemma Start_turn_conn (J : JSON) (c : Conn) (s : Server) :
  Start_turn J (evConn c) s
  = match handleConnect c s with
    | Done _ s' out => Done tt s' out
    | Panic s' out => Panic s' out
    | Blocked s' out => Blocked s' out
    end.
Proof.
  cbn [Start_turn]. step_m. destruct (handleConnect c s); cbn; rewrite ?app_nil_r; reflexivity.
Qed.

Lemma Start_turn_wf (J : JSON) (w : World) (e : Event) :
  wf (srv w) -> deliverable w e -> ~ panics (Start_turn J e (srv w)) ->
  wf (state_of (Start_turn J e (srv w))).
Proof.
  intros Hwf Hd Hnp. destruct e as [c|mf|i].
  - destruct Hd as (_&Hids). rewrite Start_turn_conn in *.
    pose proof (handleConnect_wf c (srv w) Hwf Hids) as H.
    destruct (handleConnect c (srv w)); cbn in *; auto.
  - apply handleMessage_wf, Hwf.
  - apply handleDisconnect_wf, Hwf.
Qed.

Lemma sendAllClients_state (m : string) (x : Z) (s : Server) :
  state_of (sendAllClients m x s) = s.
Proof. rewrite sendAllClients_run. reflexivity. Qed.

Lemma ticker_turn_run (s : Server) :
  ticker_turn s
  = match stopTick s with
    | v :: rest =>
        Done true (set_chan chStopTick rest s)
          (deliveries tickMsg (-1) s ++ [Printf ("Ticking stopping" +:+ nl) []])
    | [] => Done false s (deliveries tickMsg (-1) s)
    end.
Proof.
  unfold ticker_turn, chan_poll. step_m. rewrite sendAllClients_run. step_m.
  destruct (stopTick s); step_m; rewrite ?app_nil_r; reflexivity.
Qed.

Lemma hostServer_turn_run (e : string) (s : Server) :
  hostServer_turn (acceptErr e) s
  = match stopListen s with
    | v :: rest =>
        Done stopListening (set_chan chStopListen rest s)
          [Printf ("Stop listening" +:+ nl) []]
    | [] =>
        Done (forwardConn None) s [Printf ("Error while listening: %s" +:+ nl) [AStr e]]
    end.
Proof.
  unfold hostServer_turn, chan_poll. step_m. destruct (stopListen s); reflexivity.
Qed.

Lemma step_wf (J : JSON) (w w' : World) (l : Label) (out : list Action) :
  step J w l out w' -> wf (srv w) -> wf (srv w').
Proof.
  intros Hstep Hwf. destruct Hstep as
    [w e s' out _ Hd Hrun | w e s' out _ Hd Hrun | w v rest _ Hs
    | w c s' out _ _ Hrun
    | w e s' out _ _ Hrun | w s' out _ Hrun | w s' out s'' out' _ Hrun Hend];
    cbn [srv].
  - pose proof (Start_turn_wf J w e Hwf Hd) as H. rewrite Hrun in H. apply H. intros [].
  - pose proof (Start_turn_wf J w e Hwf Hd) as H. rewrite Hrun in H. apply H. intros [].
  - pose proof Hwf as (_&_&_&_&_&?&?&?&Hserver&?).
    apply (wf_frame (srv w)); try assumption.
    + eapply same_roster_fields; [apply same_roster_refl | reflexivity ..].
    + cbn. rewrite Hs in Hserver. cbn in Hserver. lia.
  - injection Hrun as <- _. exact Hwf.
  - pose proof Hwf as (_&_&_&_&_&?&?&Hlisten&?&?).
    rewrite hostServer_turn_run in Hrun.
    destruct (stopListen (srv w)) as [|v rest] eqn:E; [discriminate|].
    injection Hrun as <- <-.
    apply (wf_frame (srv w)); try assumption.
    + eapply same_roster_fields; [apply same_roster_refl | reflexivity ..].
    + cbn in *. lia.
  - rewrite ticker_turn_run in Hrun.
    destruct (stopTick (srv w)); [|discriminate]. injection Hrun as <- <-. exact Hwf.
  - pose proof Hwf as (_&_&_&_&_&?&Htick&?&?&?).
    rewrite ticker_turn_run in Hrun.
    destruct (stopTick (srv w)) as [|v rest] eqn:E; [discriminate|].
    injection Hrun as <- <-. revert Hend. unfold ticker_end. step_m. intros [= <- <-].
    apply (wf_frame (srv w)); try assumption.
    + eapply same_roster_fields; [apply same_roster_refl | reflexivity ..].
    + cbn in *. lia.
Qed.

Lemma wf_boot : wf (srv boot).
Proof. apply (bool_decide_unpack _). vm_compute. reflexivity. Qed.

Lemma steps_wf (J : JSON) (w w' : World) (ls : list Label) (out : list Action) :
  steps J w ls out w' -> wf (srv w) -> wf (srv w').
Proof.
  induction 1 as [|w l out w' ls outs w'' Hstep _ IH]; intros Hwf; [exact Hwf|].
  apply IH. eapply step_wf; eassumption.
Qed.

Lemma reachable_wf (J : JSON) (w : World) : reachable J w -> wf (srv w).
Proof. intros (ls&out&Hsteps). eapply steps_wf; [exact Hsteps | exact wf_boot]. Qed.

(** ** Writes *)

Lemma writes_app (out1 out2 : list Action) : writes (out1 ++ out2) = writes out1 ++ writes out2.
Proof. apply omap_app. Qed.

Lemma writes_deliveries (m : string) (x : Z) (s : Server) :
  writes (deliveries m x s)
  = (fun q => (conn (heap s !!! q), m +:+ nl))
      <$> filter (fun q => id (heap s !!! q) <> x) (players s).
Proof.
  unfold writes, deliveries.
  induction (filter _ (players s)) as [|q l IH]; [reflexivity|].
  cbn. f_equal. exact IH.
Qed.

(** A broadcast reaches every player: no id is [-1]. *)
Lemma filter_all (s : Server) :
  wf s -> filter (fun q => id (heap s !!! q) <> -1) (players s) = players s.
Proof.
  intros (_&_&H3&_). unfold player_ids in H3. rewrite Forall_fmap in H3.
  induction H3 as [|q l Hq _ IH]; [reflexivity|].
  rewrite filter_cons, decide_True by (cbn in Hq; lia). f_equal. exact IH.
Qed.

Lemma launches_app (out1 out2 : list Action) :
  launches (out1 ++ out2) = (launches out1 + launches out2)%nat.
Proof.
  induction out1 as [|a out1 IH]; [reflexivity|].
  destruct a; cbn [app launches]; rewrite IH; reflexivity.
Qed.

Lemma launches_deliveries (m : string) (x : Z) (s : Server) : launches (deliveries m x s) = O.
Proof.
  unfold deliveries.
  induction (filter _ (players s)) as [|q l IH]; [reflexivity | exact IH].
Qed.

(** ** The quorum *)

Lemma isAllReady_iff (s : Server) :
  isAllReady s = true <->
  (2 <= length (players s))%nat /\
  Forall (fun q => ready (heap s !!! q) = true) (players s).
Proof.
  unfold isAllReady. destruct (Nat.ltb_spec (length (players s)) 2) as [Hlt|Hge].
  - split; [discriminate | intros [? _]; lia].
  - rewrite forallb_forall, Forall_forall. split.
    + intros H. split; [exact Hge|]. intros q Hq. apply H, list_elem_of_In, Hq.
    + intros [_ H] q Hq. apply H, list_elem_of_In, Hq.
Qed.

Lemma player_in_heap (s : Server) (a : ptr) :
  wf s -> a ∈ players s -> (a < length (heap s))%nat.
Proof. intros (H1&_) Ha. rewrite Forall_forall in H1. exact (H1 a Ha). Qed.

Lemma held_NoDup (s : Server) : wf s -> NoDup (held s).
Proof.
  intros (_&_&_&_&H5&_).
  assert (Hnd : NoDup (free_colors s ++ held s)).
  { rewrite H5. apply (bool_decide_unpack _). vm_compute. reflexivity. }
  apply NoDup_app in Hnd. tauto.
Qed.

(** The outcome of a ready message in the lobby, from a subscribed sender. *)
Lemma handleMessage_ready (J : JSON) (s : Server) (mf : msgFormat) (a : ptr) (js : string) :
  phase s = 0 ->
  findById (senderId mf) s = Some a ->
  cd_Type (Unmarshal_ChatData J (TrimSpace (msg mf))).1 = "ready" ->
  json_marshalStartGame J {| sg_Type := "start_game"; sg_Colors := held s |} = inl js ->
  exists log,
    writes log = [] /\ launches log = O /\
    handleMessage J mf s
    = if isAllReady (store a (with_ready true) s)
      then Done tt (set_phase 1 (store a (with_ready true) s))
             (log ++ deliveries js (-1) (store a (with_ready true) s))
      else Done tt (store a (with_ready true) s) log.
Proof.
  intros Hphase Hf Htype Hjs. unfold_handler. step_m. rewrite Hf, Hphase.
  cbn [Z.eqb]. step_m.
  destruct (Unmarshal_ChatData J (TrimSpace (msg mf))) as [data err]. cbn [fst] in Htype.
  rewrite Htype. cbn [String.eqb Ascii.eqb Bool.eqb andb].
  assert (Hheld : (fun q => color (alter (with_ready true) a (heap s) !!! q)) <$> players s
                  = held s).
  { apply list_fmap_ext. intros _ q _. apply with_ready_lookup. }
  exists (if err is Some e
          then [Printf ("Error processing chat message: '%s': %s" +:+ nl)
                  [AStr (TrimSpace (msg mf)); AStr e]]
          else []).
  split; [destruct err; reflexivity|]. split; [destruct err; reflexivity|].
  destruct err; step_m; rewrite Hheld, Hjs; destruct (isAllReady _); step_m;
    rewrite ?sendAllClients_run; step_m; rewrite ?app_nil_r; reflexivity.
Qed.

Lemma held_store_ready (v : bool) (a : ptr) (s : Server) :
  held (store a (with_ready v) s) = held s.
Proof. apply (same_roster_ready v a s). Qed.

Lemma conn_store_ready (v : bool) (a q : ptr) (s : Server) :
  conn (heap (store a (with_ready v) s) !!! q) = conn (heap s !!! q).
Proof. step_m. apply with_ready_lookup. Qed.

Lemma wf_store_ready (v : bool) (a : ptr) (s : Server) :
  wf s -> wf (store a (with_ready v) s).
Proof.
  intros Hwf. pose proof Hwf as (_&_&_&_&_&?&?&?&?&?).
  apply (wf_frame s); try assumption. apply same_roster_ready.
Qed.

(** C1. In the lobby, a ready message from a subscribed player sets the
    player's ready flag.  With the flag set, [isAllReady] holds exactly when
    there are at least two players and all of them are ready.  When it
    holds, the handler writes one start-game line to every player, in the
    order of the list; the line is the encoding of a [StartGame] whose colors
    are the players' colors in that order, each color once; and the phase
    becomes 1.  When it does not hold (so always with fewer than two
    players) nothing is written and the phase stays 0. *)
Theorem ready_quorum (J : JSON) (s : Server) (mf : msgFormat) (a : ptr) :
  wf s -> phase s = 0 ->
  findById (senderId mf) s = Some a ->
  cd_Type (Unmarshal_ChatData J (TrimSpace (msg mf))).1 = "ready" ->
  let s1 := store a (with_ready true) s in
  ready (heap s1 !!! a) = true /\
  (isAllReady s1 = true <->
     (2 <= length (players s1))%nat /\
     Forall (fun q => ready (heap s1 !!! q) = true) (players s1)) /\
  NoDup (held s1) /\
  exists js out,
    json_marshalStartGame J {| sg_Type := "start_game"; sg_Colors := held s1 |} = inl js /\
    handleMessage J mf s = Done tt (if isAllReady s1 then set_phase 1 s1 else s1) out /\
    writes out = (if isAllReady s1
                  then (fun q => (conn (heap s1 !!! q), js +:+ nl)) <$> players s1
                  else []).
Proof.
  intros Hwf Hphase Hf Htype s1.
  pose proof (findById_Some _ _ _ Hf) as [Ha _].
  pose proof (wf_store_ready true a s Hwf) as Hwf1.
  split; [|split; [apply isAllReady_iff | split; [apply held_NoDup, Hwf1|]]].
  - subst s1. step_m. rewrite list_lookup_total_alter_eq by (apply player_in_heap; assumption).
    reflexivity.
  - destruct (json_marshal_ok J {| sg_Type := "start_game"; sg_Colors := held s1 |})
      as [js Hjs].
    pose proof Hjs as Hjs'. unfold s1 in Hjs'. rewrite held_store_ready in Hjs'.
    destruct (handleMessage_ready J s mf a js Hphase Hf Htype Hjs') as (log&Hw&_&Hrun).
    fold s1 in Hrun. destruct (isAllReady s1).
    + exists js, (log ++ deliveries js (-1) s1). repeat split; [exact Hjs | exact Hrun |].
      rewrite writes_app, Hw, writes_deliveries, (filter_all s1 Hwf1). reflexivity.
    + exists js, log. repeat split; [exact Hjs | exact Hrun | exact Hw].
Qed.

Lemma ready_quorum_witness :
  exists out,
    handleMessage Fixture.json (Fixture.ready_from 1) Fixture.lobby2r
    = Done tt Fixture.game0 out /\
    writes out
    = [(7%nat, Fixture.marshal {| sg_Type := "start_game"; sg_Colors := ["#ff0000"; "#00ff00"] |}
                +:+ nl);
       (8%nat, Fixture.marshal {| sg_Type := "start_game"; sg_Colors := ["#ff0000"; "#00ff00"] |}
                +:+ nl)].
Proof.
  destruct (ready_quorum Fixture.json Fixture.lobby2r (Fixture.ready_from 1) 1%nat)
    as (_&_&_&js&out&Hjs&Hrun&Hw).
  - apply (bool_decide_unpack _). vm_compute. reflexivity.
  - reflexivity.
  - reflexivity.
  - reflexivity.
  - exists out. injection Hjs as <-. split; [exact Hrun | exact Hw].
Defined.

(** ** Runs *)

Lemma steps_snoc (J : JSON) (w w' w'' : World) (ls : list Label) (outs out : list Action)
    (l : Label) :
  steps J w ls outs w' -> step J w' l out w'' ->
  steps J w (ls ++ [l]) (outs ++ out) w''.
Proof.
  induction 1 as [|w l0 out0 w1 ls outs w2 Hstep _ IH]; intros Hlast.
  - cbn. rewrite <- (app_nil_r out). eapply steps_cons; [exact Hlast | apply steps_nil].
  - cbn. rewrite <- app_assoc. eapply steps_cons; [exact Hstep | apply IH, Hlast].
Qed.

Lemma steps_app (J : JSON) (w w' w'' : World) (ls ls' : list Label) (outs outs' : list Action) :
  steps J w ls outs w' -> steps J w' ls' outs' w'' ->
  steps J w (ls ++ ls') (outs ++ outs') w''.
Proof.
  induction 1 as [|w l0 out0 w1 ls outs w2 Hstep _ IH]; intros Hrest; [exact Hrest|].
  cbn. rewrite <- app_assoc. eapply steps_cons; [exact Hstep | apply IH, Hrest].
Qed.

Lemma reachable_boot (J : JSON) : reachable J boot.
Proof. exists [], []. apply steps_nil. Qed.

Lemma reachable_step (J : JSON) (w w' : World) (l : Label) (out : list Action) :
  reachable J w -> step J w l out w' -> reachable J w'.
Proof.
  intros (ls&outs&Hsteps) Hstep. exists (ls ++ [l]), (outs ++ out).
  eapply steps_snoc; eassumption.
Qed.

Lemma reachable_steps (J : JSON) (w w' : World) (ls : list Label) (out : list Action) :
  reachable J w -> steps J w ls out w' -> reachable J w'.
Proof.
  intros (ls0&outs&Hsteps) Hrest. exists (ls0 ++ ls), (outs ++ out).
  eapply steps_app; eassumption.
Qed.

(** The worlds of the session are reachable. *)
Ltac handled w e :=
  match goal with
  | |- reachable ?J ?w' =>
      let o := eval vm_compute in (actions_of (Start_turn J e (srv w))) in
      apply (reachable_step J w w' (lEvent e) o);
        [ | refine (step_done J w e (srv w') o _ _ _);
            [ reflexivity
            | first [ by eexists | split; reflexivity ]
            | vm_compute; reflexivity ] ]
  end.

Ltac accepted w c :=
  match goal with
  | |- reachable ?J ?w' =>
      apply (reachable_step J w w' (lAccept c) []);
        [ | refine (step_accept J w c (srv w') [] _ _ _); reflexivity ]
  end.

Lemma reachable_lobby1 : reachable Fixture.json Fixture.w_lobby1.
Proof.
  handled Fixture.w_boot_held (evConn 7%nat). accepted boot 7%nat. apply reachable_boot.
Qed.

Lemma reachable_lobby2 : reachable Fixture.json Fixture.w_lobby2.
Proof.
  handled Fixture.w_lobby1_held (evConn 8%nat). accepted Fixture.w_lobby1 8%nat.
  apply reachable_lobby1.
Qed.

Lemma reachable_lobby2r : reachable Fixture.json Fixture.w_lobby2r.
Proof. handled Fixture.w_lobby2 (evMsg (Fixture.ready_from 0)). apply reachable_lobby2. Qed.

Lemma reachable_game0 : reachable Fixture.json Fixture.w_game0.
Proof. handled Fixture.w_lobby2r (evMsg (Fixture.ready_from 1)). apply reachable_lobby2r. Qed.

Lemma reachable_game1 : reachable Fixture.json Fixture.w_game1.
Proof. handled Fixture.w_game0 (evMsg (Fixture.start_from 0)). apply reachable_game0. Qed.

Lemma reachable_game1' : reachable Fixture.json Fixture.w_game1'.
Proof.
  apply (reachable_step _ Fixture.w_game1 _ (lAcceptErr Fixture.closedErr)
           [Printf ("Stop listening" +:+ nl) []]); [apply reachable_game1|].
  refine (step_accept_err _ Fixture.w_game1 Fixture.closedErr (srv Fixture.w_game1') _ _ _ _);
    reflexivity.
Qed.

Lemma reachable_game2 : reachable Fixture.json Fixture.w_game2.
Proof. handled Fixture.w_game1' (evMsg (Fixture.event_from 1)). apply reachable_game1'. Qed.

Lemma reachable_game2_alone : reachable Fixture.json Fixture.w_game2_alone.
Proof. handled Fixture.w_game2 (evDconn 0). apply reachable_game2. Qed.

Lemma reachable_game2_stuck : reachable Fixture.json Fixture.w_game2_stuck.
Proof.
  match goal with
  | |- reachable ?J ?w' =>
      let o := eval vm_compute in
                 (actions_of (Start_turn J (evDconn 1) (srv Fixture.w_game2_alone))) in
      apply (reachable_step J Fixture.w_game2_alone w' (lEvent (evDconn 1)) o);
        [ apply reachable_game2_alone
        | refine (step_stuck J Fixture.w_game2_alone (evDconn 1) (srv w') o _ _ _);
            [ reflexivity | by eexists | vm_compute; reflexivity ] ]
  end.
Qed.



(** The run of the first message of the game. *)
Lemma steps_game0_game1 :
  exists out,
    steps Fixture.json Fixture.w_game0 [lEvent (evMsg (Fixture.start_from 0))] out
      Fixture.w_game1.
Proof.
  exists (actions_of (Start_turn Fixture.json (evMsg (Fixture.start_from 0)) Fixture.game0)
          ++ []).
  eapply steps_cons; [|apply steps_nil].
  refine (step_done Fixture.json Fixture.w_game0 (evMsg (Fixture.start_from 0))
            Fixture.game1 _ _ _ _);
    [reflexivity | by eexists | vm_compute; reflexivity].
Qed.

(** ** The color pool *)









Lemma connectAll_run (cs : list Conn) (s : Server) :
  (length cs <= length (free_colors s))%nat ->
  exists ps s' out,
    connectAll cs s = Done ps s' out /\
    (fun p => color (heap s' !!! p)) <$> ps = take (length cs) (free_colors s) /\
    free_colors s' = drop (length cs) (free_colors s) /\
    Forall (fun p => (length (heap s) <= p)%nat) ps /\
    (forall q, (q < length (heap s))%nat -> heap s' !!! q = heap s !!! q).
Proof.
  revert s. induction cs as [|c cs IH]; intros s Hlen.
  - exists [], s, []. repeat split. constructor.
  - destruct (free_colors s) as [|e rest] eqn:Hfree; [cbn in Hlen; lia|].
    destruct (IH (joined c e rest s)) as (ps&s'&out&Hrun&Hcol&Hfree'&Hps&Hheap).
    { unfold joined. step_m. cbn in Hlen. lia. }
    assert (Hlast : heap (joined c e rest s) !!! length (heap s)
                    = {| id := ids s; conn := c; color := e; ready := false |}).
    { unfold joined. step_m. apply lookup_total_last. }
    assert (Hgrow : length (heap (joined c e rest s)) = S (length (heap s))).
    { unfold joined. step_m. rewrite length_app. cbn. lia. }
    eexists (length (heap s) :: ps), s', _. split; [|split; [|split; [|split]]].
    + cbn [connectAll]. step_m. rewrite (handleConnect_run c s e rest Hfree). step_m.
      rewrite Hrun. step_m. reflexivity.
    + cbn [fmap list_fmap length take]. f_equal.
      * rewrite Hheap by lia. rewrite Hlast. reflexivity.
      * rewrite Hcol. unfold joined. step_m. reflexivity.
    + rewrite Hfree'. unfold joined. step_m. reflexivity.
    + constructor; [lia|]. eapply Forall_impl; [exact Hps|]. intros p Hp. cbn beta in *. lia.
    + intros q Hq. rewrite Hheap by lia. unfold joined. step_m.
      apply lookup_total_app_l. exact Hq.
Qed.

(** C3. The pool is a queue.  Handling a connection takes the color at the
    front of the pool for the new player and leaves the rest.  Unsubscribing
    a player puts its color at the back of the pool.  So after a player has
    left, the connections that follow get the colors that were free before,
    in the order of the pool, and then the color that was freed. *)
Theorem pool_fifo (s : Server) :
  wf s ->
  (forall c e rest,
     free_colors s = e :: rest ->
     exists p s' out,
       handleConnect c s = Done p s' out /\
       players s' = players s ++ [p] /\
       color (heap s' !!! p) = e /\ free_colors s' = rest) /\
  (forall a,
     a ∈ players s ->
     exists s' out,
       unsubscribe (Some a) s = Done tt s' out /\
       free_colors s' = free_colors s ++ [color (heap s !!! a)]) /\
  (forall a cs,
     a ∈ players s ->
     length cs = S (length (free_colors s)) ->
     exists ps s' out,
       (unsubscribe (Some a);; connectAll cs) s = Done ps s' out /\
       (fun p => color (heap s' !!! p)) <$> ps
       = free_colors s ++ [color (heap s !!! a)]).
Proof.
  intros Hwf. split; [|split].
  - intros c e rest Hfree. eexists _, _, _. split; [apply handleConnect_run, Hfree|].
    unfold joined. step_m. rewrite lookup_total_last. repeat split.
  - intros a Ha. destruct (players_split s a) as (l1&l2&Hps&H1&H2);
      [apply players_NoDup, Hwf | exact Ha |].
    eexists _, _. split; [apply (unsubscribe_run a l1 l2 s Hps H1 H2) | reflexivity].
  - intros a cs Ha Hlen. destruct (players_split s a) as (l1&l2&Hps&H1&H2);
      [apply players_NoDup, Hwf | exact Ha |].
    destruct (connectAll_run cs (left a (l1 ++ l2) s)) as (ps&s'&out&Hrun&Hcol&_).
    { unfold left. step_m. rewrite length_app. cbn. lia. }
    eexists ps, s', _. split.
    + step_m. rewrite (unsubscribe_run a l1 l2 s Hps H1 H2). step_m.
      fold (left a (l1 ++ l2) s). rewrite Hrun. step_m. reflexivity.
    + rewrite Hcol. unfold left. step_m. apply take_ge. rewrite length_app. cbn. lia.
Qed.

Lemma pool_fifo_witness :
  exists ps s' out,
    (unsubscribe (Some 0%nat);; connectAll [9%nat; 10%nat]) Fixture.lobby2 = Done ps s' out /\
    (fun p => color (heap s' !!! p)) <$> ps = ["#0000ff"; "#ff0000"].
Proof.
  refine (proj2 (proj2 (pool_fifo Fixture.lobby2 _)) 0%nat [9%nat; 10%nat] _ _).
  - apply (bool_decide_unpack _). vm_compute. reflexivity.
  - apply (bool_decide_unpack _). vm_compute. reflexivity.
  - reflexivity.
Defined.

(** ** Relaying *)

Lemma handleMessage_chat (J : JSON) (s : Server) (mf : msgFormat) (a : ptr) :
  phase s = 0 ->
  findById (senderId mf) s = Some a ->
  cd_Type (Unmarshal_ChatData J (TrimSpace (msg mf))).1 = "chat" ->
  exists log,
    writes log = [] /\ launches log = O /\
    handleMessage J mf s
    = Done tt s (log ++ deliveries (TrimSpace (msg mf)) (id (heap s !!! a)) s).
Proof.
  intros Hphase Hf Htype. unfold_handler. step_m. rewrite Hf, Hphase.
  cbn [Z.eqb]. step_m.
  destruct (Unmarshal_ChatData J (TrimSpace (msg mf))) as [data err]. cbn [fst] in Htype.
  rewrite Htype. cbn [String.eqb Ascii.eqb Bool.eqb andb].
  exists (if err is Some e
          then [Printf ("Error processing chat message: '%s': %s" +:+ nl)
                  [AStr (TrimSpace (msg mf)); AStr e]]
          else []).
  split; [destruct err; reflexivity|]. split; [destruct err; reflexivity|].
  destruct err; step_m; rewrite sendAllClients_run; step_m; rewrite ?app_nil_r; reflexivity.
Qed.

Lemma handleMessage_event (J : JSON) (s : Server) (mf : msgFormat) (a : ptr) :
  phase s = 1 -> stopListen s = [] -> serverListener s <> lnNil ->
  findById (senderId mf) s = Some a ->
  gd_Type (Unmarshal_GameData J (TrimSpace (msg mf))).1 = "player_event" ->
  exists log,
    writes log = [] /\ launches log = O /\
    handleMessage J mf s
    = Done tt (closing s)
        (log ++ deliveries (TrimSpace (msg mf)) (id (heap s !!! a)) s).
Proof.
  intros Hphase Hroom Hbound Hf Htype. unfold handleMessage, handleMessage_game, deref.
  step_m. rewrite Hf, Hphase. cbn [Z.eqb Pos.eqb]. step_m.
  rewrite (chan_send_room chStopListen true s Hroom). step_m.
  rewrite listener_close_run by exact Hbound. step_m.
  destruct (Unmarshal_GameData J (TrimSpace (msg mf))) as [data err]. cbn [fst] in Htype.
  rewrite Htype. cbn [String.eqb Ascii.eqb Bool.eqb andb].
  exists ([ChanSend chStopListen true; ListenerClose]
          ++ if err is Some e
             then [Printf "Error processing chat message: '%s'" [AStr (TrimSpace (msg mf))]]
             else []).
  split; [destruct err; reflexivity|]. split; [destruct err; reflexivity|].
  destruct err; step_m; rewrite sendAllClients_run; step_m; rewrite ?app_nil_r;
    reflexivity.
Qed.

(** C4, amended.  A chat message handled in the lobby, and a player event
    handled in the game when the stop request for the listener can be sent,
    coming from a subscribed player, is written to every other player and to
    no one else: to none when the sender is alone.  What is written is the
    sender's line with the white space around it trimmed, and a line feed; it
    is the sender's line, byte for byte, when that line is its trimmed form
    followed by one line feed. *)
Theorem relay_trimmed (J : JSON) (s : Server) (mf : msgFormat) (a : ptr) :
  wf s ->
  findById (senderId mf) s = Some a ->
  phase s = 0 /\ cd_Type (Unmarshal_ChatData J (TrimSpace (msg mf))).1 = "chat" \/
  phase s = 1 /\ stopListen s = [] /\
    gd_Type (Unmarshal_GameData J (TrimSpace (msg mf))).1 = "player_event" ->
  exists s' out,
    handleMessage J mf s = Done tt s' out /\
    writes out
    = (fun q => (conn (heap s !!! q), TrimSpace (msg mf) +:+ nl))
        <$> filter (fun q => q <> a) (players s) /\
    (players s = [a] -> writes out = []) /\
    (msg mf = TrimSpace (msg mf) +:+ nl ->
     writes out
     = (fun q => (conn (heap s !!! q), msg mf)) <$> filter (fun q => q <> a) (players s)).
Proof.
  intros Hwf Hf Hcase.
  pose proof (findById_Some _ _ _ Hf) as [Ha _].
  assert (Hw : forall log,
    writes log = [] ->
    writes (log ++ deliveries (TrimSpace (msg mf)) (id (heap s !!! a)) s)
    = (fun q => (conn (heap s !!! q), TrimSpace (msg mf) +:+ nl))
        <$> filter (fun q => q <> a) (players s)).
  { intros log Hlog. rewrite writes_app, Hlog, writes_deliveries.
    rewrite filter_others by (apply Hwf || exact Ha). reflexivity. }
  assert (Hgoal : exists s' out,
    handleMessage J mf s = Done tt s' out /\
    writes out
    = (fun q => (conn (heap s !!! q), TrimSpace (msg mf) +:+ nl))
        <$> filter (fun q => q <> a) (players s)).
  { destruct Hcase as [[Hphase Htype]|(Hphase&Hroom&Htype)].
    - destruct (handleMessage_chat J s mf a Hphase Hf Htype) as (log&Hlog&_&Hrun).
      eexists _, _. split; [exact Hrun | apply Hw, Hlog].
    - destruct (handleMessage_event J s mf a Hphase Hroom) as (log&Hlog&_&Hrun);
        [apply Hwf | exact Hf | exact Htype |].
      eexists _, _. split; [exact Hrun | apply Hw, Hlog]. }
  destruct Hgoal as (s'&out&Hrun&Hws). exists s', out.
  split; [exact Hrun | split; [exact Hws | split]].
  - intros Hps. rewrite Hws, Hps. rewrite filter_cons, decide_False by (intros H; apply H; reflexivity).
    reflexivity.
  - intros Hline. rewrite Hws, <- Hline. reflexivity.
Qed.

Lemma relay_trimmed_witness :
  exists s' out,
    handleMessage Fixture.json (Fixture.chat_from 0) Fixture.lobby2 = Done tt s' out /\
    writes out = [(8%nat, msg (Fixture.chat_from 0))].
Proof.
  destruct (relay_trimmed Fixture.json Fixture.lobby2 (Fixture.chat_from 0) 0%nat)
    as (s'&out&Hrun&_&_&Hw).
  - apply (bool_decide_unpack _). vm_compute. reflexivity.
  - reflexivity.
  - left. split; reflexivity.
  - exists s', out. split; [exact Hrun | apply Hw; reflexivity].
Defined.

(** C4 as stated fails: a chat line sent with a blank before it reaches the
    other player without the blank, so not byte for byte as it was sent. *)
Lemma relay_not_verbatim :
  exists s' out,
    handleMessage Fixture.json (Fixture.chat_indented_from 0) Fixture.lobby2
    = Done tt s' out /\
    cd_Type (Unmarshal_ChatData Fixture.json
               (TrimSpace (msg (Fixture.chat_indented_from 0)))).1 = "chat" /\
    writes out = [(8%nat, Fixture.chatLine "#ff0000" +:+ nl)] /\
    Fixture.chatLine "#ff0000" +:+ nl <> msg (Fixture.chat_indented_from 0).
Proof.
  eexists _, _. split; [vm_compute; reflexivity|].
  split; [reflexivity | split; [reflexivity | discriminate]].
Qed.

(** ** The sender of a message *)

Lemma handleMessage_found (J : JSON) (s : Server) (mf : msgFormat) (a : ptr) :
  findById (senderId mf) s = Some a ->
  handleMessage J mf s
  = (if phase s =? 0 then handleMessage_lobby J (TrimSpace (msg mf)) (Some a)
     else if phase s =? 1 then handleMessage_game J (TrimSpace (msg mf)) (Some a)
     else skip) s.
Proof.
  intros Hf. unfold handleMessage. step_m. rewrite Hf. step_m. rewrite !prepend_nil.
  reflexivity.
Qed.

Lemma handleMessage_safe (J : JSON) (s : Server) (mf : msgFormat) :
  serverListener s <> lnNil ->
  is_Some (findById (senderId mf) s) ->
  safe (handleMessage J mf s).
Proof.
  intros Hbound [a Hf]. unfold_handler. step_m. rewrite Hf. crunch.
  all: try exact I.
  all: congruence.
Qed.

(** C10. When [findById] finds no player for the sender id, [handleMessage]
    logs the failure and goes on: for a chat message in the lobby, and for a
    player event in the game once the stop request for the listener is sent,
    it then panics on the [nil] player (after nothing but log lines, and in
    the game the stop request and the close).  When the sender id is that of
    a subscribed player, the failure is not logged, the handler is the code
    of the phase run on that player, and it does not panic. *)
Theorem sender_must_be_subscribed (J : JSON) (s : Server) (mf : msgFormat) :
  wf s ->
  (findById (senderId mf) s = None ->
   (phase s = 0 ->
    cd_Type (Unmarshal_ChatData J (TrimSpace (msg mf))).1 = "chat" ->
    exists log, Forall (fun x => exists f args, x = Printf f args) log /\
      handleMessage J mf s = Panic s (notFound :: log)) /\
   (phase s = 1 -> stopListen s = [] ->
    gd_Type (Unmarshal_GameData J (TrimSpace (msg mf))).1 = "player_event" ->
    exists log, Forall (fun x => exists f args, x = Printf f args) log /\
      handleMessage J mf s
      = Panic (closing s) (notFound :: ChanSend chStopListen true :: ListenerClose :: log))) /\
  (forall a,
   findById (senderId mf) s = Some a ->
   safe (handleMessage J mf s) /\
   handleMessage J mf s
   = (if phase s =? 0 then handleMessage_lobby J (TrimSpace (msg mf)) (Some a)
      else if phase s =? 1 then handleMessage_game J (TrimSpace (msg mf)) (Some a)
      else skip) s).
Proof.
  intros Hwf. pose proof Hwf as (_&_&_&_&_&_&_&_&_&Hbound). split.
  - intros Hf. split.
    + intros Hphase Htype. unfold_handler. step_m. rewrite Hf, Hphase.
      cbn [Z.eqb]. step_m.
      destruct (Unmarshal_ChatData J (TrimSpace (msg mf))) as [data err].
      cbn [fst] in Htype. rewrite Htype. cbn [String.eqb Ascii.eqb Bool.eqb andb].
      destruct err as [e|]; step_m; eexists; (split; [|reflexivity]);
        repeat constructor; eexists _, _; reflexivity.
    + intros Hphase Hroom Htype. unfold handleMessage, handleMessage_game, deref.
      step_m. rewrite Hf, Hphase. cbn [Z.eqb Pos.eqb]. step_m.
      rewrite (chan_send_room chStopListen true s Hroom). step_m.
      rewrite listener_close_run by exact Hbound. step_m.
      destruct (Unmarshal_GameData J (TrimSpace (msg mf))) as [data err].
      cbn [fst] in Htype. rewrite Htype. cbn [String.eqb Ascii.eqb Bool.eqb andb].
      destruct err as [e|]; step_m; eexists; (split; [|reflexivity]);
        repeat constructor; eexists _, _; reflexivity.
  - intros a Hf. split.
    + apply handleMessage_safe; [exact Hbound | eexists; exact Hf].
    + apply handleMessage_found, Hf.
Qed.

Lemma sender_must_be_subscribed_witness :
  panics (handleMessage Fixture.json (Fixture.chat_from 5) Fixture.lobby2) /\
  safe (handleMessage Fixture.json (Fixture.chat_from 0) Fixture.lobby2).
Proof.
  assert (Hwf : wf Fixture.lobby2) by (apply (bool_decide_unpack _); vm_compute; reflexivity).
  destruct (sender_must_be_subscribed Fixture.json Fixture.lobby2 (Fixture.chat_from 5) Hwf)
    as [Hnone _].
  destruct (sender_must_be_subscribed Fixture.json Fixture.lobby2 (Fixture.chat_from 0) Hwf)
    as [_ Hsome].
  split.
  - destruct Hnone as [Hchat _]; [reflexivity|].
    destruct Hchat as (log&_&Hrun); [reflexivity | reflexivity |].
    rewrite Hrun. exact I.
  - apply (Hsome 0%nat). reflexivity.
Defined.

(** ** The phase *)

Lemma handleMessage_flip (J : JSON) (s : Server) (mf : msgFormat) :
  phase (state_of (handleMessage J mf s)) <> phase s ->
  phase s = 0 /\ phase (state_of (handleMessage J mf s)) = 1 /\
  exists a,
    findById (senderId mf) s = Some a /\
    cd_Type (Unmarshal_ChatData J (TrimSpace (msg mf))).1 = "ready" /\
    isAllReady (store a (with_ready true) s) = true.
Proof.
  unfold_handler. crunch.
  all: intros Hne; try (exfalso; apply Hne; reflexivity).
  all: repeat match goal with
       | H : (_ =? _) = true |- _ => apply Z.eqb_eq in H
       | H : (_ =? _)%string = true |- _ => apply String.eqb_eq in H
       end.
  all: split; [assumption | split; [reflexivity|]].
  all: eexists; split; [reflexivity | split; [assumption | assumption]].
Qed.

Lemma handleMessage_in_game (J : JSON) (s : Server) (mf : msgFormat) :
  phase s = 1 ->
  handleMessage J mf s
  = ((if findById (senderId mf) s is None
      then println "Error: Player not found in list." else skip);;
     handleMessage_game J (TrimSpace (msg mf)) (findById (senderId mf) s)) s.
Proof.
  intros Hphase. unfold handleMessage. step_m. rewrite Hphase. cbn [Z.eqb Pos.eqb].
  rewrite !prepend_nil. reflexivity.
Qed.

(** The state a handled event leads to, when the handler did not panic. *)
Lemma handleDisconnect_shape (i : Z) (s : Server) :
  wf s ->
  exists s1,
    (s1 = s \/
     exists a l1 l2,
       findById i s = Some a /\ players s = l1 ++ a :: l2 /\ s1 = left a (l1 ++ l2) s) /\
    wf s1 /\
    teardown_effect s1 (state_of (handleDisconnect i s)) /\
    launches (actions_of (handleDisconnect i s)) = launches (actions_of (teardown s1)).
Proof.
  intros Hwf. destruct (findById i s) as [a|] eqn:Hf.
  - apply findById_Some in Hf as Ha. destruct Ha as [Ha _].
    destruct (players_split s a) as (l1&l2&Hps&H1&H2);
      [apply players_NoDup, Hwf | exact Ha |].
    exists (left a (l1 ++ l2) s).
    rewrite (handleDisconnect_run i s a l1 l2 Hf Hps H1 H2), state_of_prepend,
      actions_of_prepend, launches_app.
    split; [right; eauto 6 | split; [apply left_wf; assumption | split]].
    + apply teardown_run_effect.
    + reflexivity.
  - exists s. rewrite (handleDisconnect_absent i s Hf), state_of_prepend,
      actions_of_prepend, launches_app.
    split; [left; reflexivity | split; [exact Hwf | split]].
    + apply teardown_run_effect.
    + reflexivity.
Qed.

Lemma teardown_launches (s : Server) : launches (actions_of (teardown s)) = O.
Proof.
  unfold teardown, shutdown, chan_send, listener_close. crunch. all: reflexivity.
Qed.

(** A ticker is launched exactly when the handler sets the ticking flag, in
    the game, for a start message; the listener is closed by then. *)
Lemma handleMessage_launch (J : JSON) (s : Server) (mf : msgFormat) :
  serverListener s <> lnNil ->
  ticking (state_of (handleMessage J mf s)) = ticking s /\
    launches (actions_of (handleMessage J mf s)) = O \/
  phase s = 1 /\ ticking s = false /\ stopListen s = [] /\
    gd_Type (Unmarshal_GameData J (TrimSpace (msg mf))).1 = "start" /\
    ticking (state_of (handleMessage J mf s)) = true /\
    launches (actions_of (handleMessage J mf s)) = 1%nat /\
    serverListener (state_of (handleMessage J mf s)) = lnClosed.
Proof.
  intros Hbound. unfold_handler. crunch.
  all: rewrite ?app_nil_r; cbn [launches]; rewrite ?launches_deliveries.
  all: try (left; split; [step_m; congruence | reflexivity]).
  all: try congruence.
  all: right.
  all: repeat match goal with
       | H : (_ =? _) = true |- _ => apply Z.eqb_eq in H
       | H : (_ =? _)%string = true |- _ => apply String.eqb_eq in H
       | H : (_ <? _)%nat = true |- _ => apply Nat.ltb_lt in H
       end.
  all: destruct (stopListen s); [|cbn in *; unfold chanCap in *; lia].
  all: repeat split; assumption.
Qed.

Lemma Start_turn_conn_state (J : JSON) (c : Conn) (s : Server) :
  ~ panics (Start_turn J (evConn c) s) ->
  exists e rest,
    free_colors s = e :: rest /\
    state_of (Start_turn J (evConn c) s) = joined c e rest s /\
    launches (actions_of (Start_turn J (evConn c) s)) = O.
Proof.
  intros Hnp. rewrite Start_turn_conn in *.
  destruct (free_colors s) as [|e rest] eqn:Hfree.
  - exfalso. apply Hnp. pose proof (handleConnect_empty c s Hfree) as Hp.
    destruct (handleConnect c s); cbn in *; auto.
  - exists e, rest. rewrite (handleConnect_run c s e rest Hfree).
    cbn [state_of actions_of app launches]. rewrite launches_deliveries. repeat split.
Qed.

(** The condition under which a step changes the phase. *)
Lemma Start_turn_phase (J : JSON) (s : Server) (e : Event) :
  wf s -> ~ panics (Start_turn J e s) ->
  phase (state_of (Start_turn J e s)) = phase s \/
  phase s = 0 /\ phase (state_of (Start_turn J e s)) = 1 /\
  exists mf a,
    e = evMsg mf /\ findById (senderId mf) s = Some a /\
    cd_Type (Unmarshal_ChatData J (TrimSpace (msg mf))).1 = "ready" /\
    isAllReady (store a (with_ready true) s) = true.
Proof.
  intros Hwf Hnp. destruct e as [c|mf|i].
  - left. destruct (Start_turn_conn_state J c s Hnp) as (e&rest&_&->&_). reflexivity.
  - cbn [Start_turn].
    destruct (decide (phase (state_of (handleMessage J mf s)) = phase s)) as [E|E];
      [left; exact E | right].
    destruct (handleMessage_flip J s mf E) as (H0&H1&a&Hf&Htype&Hq).
    split; [exact H0 | split; [exact H1|]]. exists mf, a. repeat split; assumption.
  - left. cbn [Start_turn].
    destruct (handleDisconnect_shape i s Hwf) as (s1&Hs1&_&(_&Hp&_)&_).
    rewrite Hp. destruct Hs1 as [->|(a&l1&l2&_&_&->)]; reflexivity.
Qed.

Lemma step_phase (J : JSON) (w w' : World) (l : Label) (out : list Action) :
  wf (srv w) -> step J w l out w' ->
  phase (srv w') = phase (srv w) \/
  phase (srv w) = 0 /\ phase (srv w') = 1 /\
  exists mf a,
    l = lEvent (evMsg mf) /\ findById (senderId mf) (srv w) = Some a /\
    cd_Type (Unmarshal_ChatData J (TrimSpace (msg mf))).1 = "ready" /\
    isAllReady (store a (with_ready true) (srv w)) = true.
Proof.
  intros Hwf Hstep. destruct Hstep as
    [w e s' out _ Hd Hrun | w e s' out _ Hd Hrun | w v rest _ Hs
    | w c s' out _ _ Hrun
    | w e s' out _ _ Hrun | w s' out _ Hrun | w s' out s'' out' _ Hrun Hend];
    cbn [srv].
  - pose proof (Start_turn_phase J (srv w) e Hwf) as H. rewrite Hrun in H.
    destruct H as [H|(H0&H1&mf&a&->&H)]; [intros [] | left; exact H | right].
    split; [exact H0 | split; [exact H1 | eauto]].
  - pose proof (Start_turn_phase J (srv w) e Hwf) as H. rewrite Hrun in H.
    destruct H as [H|(H0&H1&mf&a&->&H)]; [intros [] | left; exact H | right].
    split; [exact H0 | split; [exact H1 | eauto]].
  - left. reflexivity.
  - left. injection Hrun as <- _. reflexivity.
  - left. rewrite hostServer_turn_run in Hrun.
    destruct (stopListen (srv w)); [discriminate|]. injection Hrun as <- _. reflexivity.
  - left. rewrite ticker_turn_run in Hrun.
    destruct (stopTick (srv w)); [|discriminate]. injection Hrun as <- _. reflexivity.
  - left. rewrite ticker_turn_run in Hrun.
    destruct (stopTick (srv w)); [discriminate|]. injection Hrun as <- _.
    revert Hend. unfold ticker_end. step_m. intros [= <- _]. reflexivity.
Qed.

Lemma steps_in_game (J : JSON) (w w' : World) (ls : list Label) (out : list Action) :
  steps J w ls out w' -> wf (srv w) -> phase (srv w) = 1 -> phase (srv w') = 1.
Proof.
  induction 1 as [|w l out w' ls outs w'' Hstep _ IH]; intros Hwf Hphase; [exact Hphase|].
  apply IH; [eapply step_wf; eassumption|].
  destruct (step_phase J w w' l out Hwf Hstep) as [->|(H0&_)]; [exact Hphase | congruence].
Qed.

(** C6. In every reachable state the phase is 0 (lobby) or 1 (game).  A
    step leaves the phase as it is, or takes it from 0 to 1, and that only
    by handling a ready message of a subscribed player that completes the
    quorum.  From a state in the game every run leads to states in the game,
    so the phase changes at most once and never goes back; and in such a
    state [handleMessage] is the code of the game phase: no message runs the
    lobby's chat and ready handling. *)
Theorem phase_never_regresses (J : JSON) (w : World) :
  reachable J w ->
  (phase (srv w) = 0 \/ phase (srv w) = 1) /\
  (forall l out w',
     step J w l out w' ->
     phase (srv w') = phase (srv w) \/
     phase (srv w) = 0 /\ phase (srv w') = 1 /\
     exists mf a,
       l = lEvent (evMsg mf) /\ findById (senderId mf) (srv w) = Some a /\
       cd_Type (Unmarshal_ChatData J (TrimSpace (msg mf))).1 = "ready" /\
       isAllReady (store a (with_ready true) (srv w)) = true) /\
  (forall ls out w',
     phase (srv w) = 1 -> steps J w ls out w' ->
     phase (srv w') = 1 /\
     forall mf,
       handleMessage J mf (srv w')
       = ((if findById (senderId mf) (srv w') is None
           then println "Error: Player not found in list." else skip);;
          handleMessage_game J (TrimSpace (msg mf)) (findById (senderId mf) (srv w')))
           (srv w')).
Proof.
  intros Hreach. pose proof (reachable_wf J w Hreach) as Hwf.
  split; [apply Hwf | split].
  - intros l out w' Hstep. apply (step_phase J w w' l out Hwf Hstep).
  - intros ls out w' Hphase Hsteps.
    pose proof (steps_in_game J w w' ls out Hsteps Hwf Hphase) as Hphase'.
    split; [exact Hphase'|]. intros mf. apply handleMessage_in_game, Hphase'.
Qed.

Lemma phase_never_regresses_witness :
  phase (srv Fixture.w_game0) = 1 /\
  phase (srv Fixture.w_game1) = 1 /\
  forall mf,
    handleMessage Fixture.json mf (srv Fixture.w_game1)
    = ((if findById (senderId mf) (srv Fixture.w_game1) is None
        then println "Error: Player not found in list." else skip);;
       handleMessage_game Fixture.json (TrimSpace (msg mf))
         (findById (senderId mf) (srv Fixture.w_game1)))
        (srv Fixture.w_game1).
Proof.
  split; [reflexivity|]. destruct steps_game0_game1 as [out Hsteps].
  exact (proj2 (proj2 (phase_never_regresses Fixture.json Fixture.w_game0 reachable_game0))
           _ out Fixture.w_game1 eq_refl Hsteps).
Defined.

(** ** The listener *)

Lemma stop_requests_app (out1 out2 : list Action) :
  stop_requests (out1 ++ out2) = (stop_requests out1 + stop_requests out2)%nat.
Proof.
  induction out1 as [|a out1 IH]; [reflexivity|].
  destruct a as [| |[] ?| |]; cbn [app stop_requests]; rewrite IH; reflexivity.
Qed.

Lemma closes_app (out1 out2 : list Action) :
  closes (out1 ++ out2) = (closes out1 + closes out2)%nat.
Proof.
  induction out1 as [|a out1 IH]; [reflexivity|].
  destruct a; cbn [app closes]; rewrite IH; reflexivity.
Qed.

Lemma stop_requests_deliveries (m : string) (x : Z) (s : Server) :
  stop_requests (deliveries m x s) = O.
Proof.
  unfold deliveries.
  induction (filter _ (players s)) as [|q l IH]; [reflexivity | exact IH].
Qed.

Lemma closes_deliveries (m : string) (x : Z) (s : Server) : closes (deliveries m x s) = O.
Proof.
  unfold deliveries.
  induction (filter _ (players s)) as [|q l IH]; [reflexivity | exact IH].
Qed.


(** A message handled in the game sends the stop request and closes the
    listener, once each, when the channel has room. *)
Lemma handleMessage_game_listener (J : JSON) (s : Server) (mf : msgFormat) :
  phase s = 1 -> stopListen s = [] -> serverListener s <> lnNil ->
  stopListen (state_of (handleMessage J mf s)) = [true] /\
  serverListener (state_of (handleMessage J mf s)) = lnClosed /\
  stop_requests (actions_of (handleMessage J mf s)) = 1%nat /\
  closes (actions_of (handleMessage J mf s)) = 1%nat.
Proof.
  intros Hphase Hroom Hbound. unfold_handler. step_m. rewrite Hphase.
  cbn [Z.eqb Pos.eqb]. destruct (findById (senderId mf) s); step_m; rewrite Hroom;
    cbn [length Nat.ltb Nat.leb chanCap]; crunch.
  all: try congruence.
  all: rewrite ?app_nil_r; cbn [stop_requests closes];
       rewrite ?stop_requests_deliveries, ?closes_deliveries.
  all: repeat split.
Qed.

(** What a handled event does to the listener and its channel. *)
Lemma Start_turn_listener (J : JSON) (s : Server) (e : Event) :
  wf s -> ~ panics (Start_turn J e s) ->
  stopListen (state_of (Start_turn J e s)) = stopListen s /\
    serverListener (state_of (Start_turn J e s)) = serverListener s \/
  stopListen s = [] /\ stopListen (state_of (Start_turn J e s)) = [true] /\
    serverListener (state_of (Start_turn J e s)) = lnClosed.
Proof.
  intros Hwf Hnp. pose proof Hwf as (_&_&_&_&_&_&_&_&_&Hbound).
  destruct e as [c|mf|i].
  - left. destruct (Start_turn_conn_state J c s Hnp) as (e&rest&_&->&_). split; reflexivity.
  - cbn [Start_turn]. destruct (handleMessage_effect J mf s) as (_&_&_&_&Hl&_).
    destruct Hl as [Hl|(_&H1&H2&[H3|H3])]; [left; exact Hl | right; auto | contradiction].
  - cbn [Start_turn].
    destruct (handleDisconnect_shape i s Hwf) as (s1&Hs1&Hwf1&(_&_&_&_&_&Hl&_)&_).
    assert (E : stopListen s1 = stopListen s /\ serverListener s1 = serverListener s)
      by (destruct Hs1 as [->|(a&l1&l2&_&_&->)]; split; reflexivity).
    destruct E as [E1 E2]. rewrite E1, E2 in Hl.
    destruct Hl as [Hl|(H1&H2&[H3|H3])]; [left; exact Hl | right; auto | contradiction].
Qed.

Lemma received_alive (w : World) (e : Event) :
  deliverable w e -> received e (acceptLoop w) <> alGone -> acceptLoop w <> alGone.
Proof. destruct e as [c| |]; cbn; [intros [-> _] _; discriminate | tauto..]. Qed.

Lemma received_held (w : World) (e : Event) :
  deliverable w e ->
  (conns_handled [lEvent e] + held_conns (received e (acceptLoop w))
   <= held_conns (acceptLoop w))%nat.
Proof. destruct e as [c| |]; cbn; [intros [-> _]; cbn; lia | lia..]. Qed.

Lemma step_listener (J : JSON) (w w' : World) (l : Label) (out : list Action) :
  wf (srv w) -> step J w l out w' ->
  (listener_inv w -> listener_inv w') /\
  (serverListener (srv w) = lnClosed ->
   serverListener (srv w') = lnClosed /\
   (conns_handled [l] + held_conns (acceptLoop w') <= held_conns (acceptLoop w))%nat).
Proof.
  intros Hwf Hstep. destruct Hstep as
    [w e s' out _ Hd Hrun | w e s' out _ Hd Hrun | w v rest _ Hs
    | w c s' out _ Hopen Hrun
    | w e s' out Hal Hc Hrun | w s' out _ Hrun | w s' out s'' out' _ Hrun Hend];
    unfold listener_inv; cbn [srv acceptLoop].
  - pose proof (Start_turn_listener J (srv w) e Hwf) as H. rewrite Hrun in H.
    cbn [state_of] in H. destruct H as [[H1 H2]|(H1&H2&H3)]; [intros [] | |].
    + rewrite H1, H2. split.
      * intros Hinv Hal. apply Hinv. exact (received_alive w e Hd Hal).
      * intros Hclosed. split; [exact Hclosed | exact (received_held w e Hd)].
    + rewrite H2, H3. split; [discriminate|]. intros Hclosed.
      split; [reflexivity | exact (received_held w e Hd)].
  - pose proof (Start_turn_listener J (srv w) e Hwf) as H. rewrite Hrun in H.
    cbn [state_of] in H. destruct H as [[H1 H2]|(H1&H2&H3)]; [intros [] | |].
    + rewrite H1, H2. split.
      * intros Hinv Hal. apply Hinv. exact (received_alive w e Hd Hal).
      * intros Hclosed. split; [exact Hclosed | exact (received_held w e Hd)].
    + rewrite H2, H3. split; [discriminate|]. intros Hclosed.
      split; [reflexivity | exact (received_held w e Hd)].
  - split; [tauto|]. intros Hclosed. split; [exact Hclosed | cbn; lia].
  - injection Hrun as <- _. split; [intros _ _ Hclosed; congruence|].
    intros Hclosed. congruence.
  - split; [intros _ Hgone; congruence|]. intros _. rewrite hostServer_turn_run in Hrun.
    destruct (stopListen (srv w)); [discriminate|]. injection Hrun as <- _.
    split; [exact Hc | rewrite Hal; cbn; lia].
  - rewrite ticker_turn_run in Hrun.
    destruct (stopTick (srv w)); [|discriminate]. injection Hrun as <- _.
    split; [tauto|]. intros Hclosed. split; [exact Hclosed | cbn; lia].
  - rewrite ticker_turn_run in Hrun.
    destruct (stopTick (srv w)); [discriminate|]. injection Hrun as <- _.
    revert Hend. unfold ticker_end. step_m. intros [= <- _]. cbn.
    split; [tauto|]. intros Hclosed. split; [exact Hclosed | lia].
Qed.









(** ** The ticker *)

(** What a handled event does to the ticking flag, the ticker's channel,
    the players and the listener, and how many tickers it launches. *)
Lemma Start_turn_ticker (J : JSON) (w : World) (e : Event) :
  wf (srv w) -> deliverable w e -> ~ panics (Start_turn J e (srv w)) ->
  let s := srv w in
  let s' := state_of (Start_turn J e (srv w)) in
  let k := launches (actions_of (Start_turn J e (srv w))) in
  (serverListener s' = serverListener s \/ serverListener s' = lnClosed) /\
  ((* a connection *)
   (exists c, acceptLoop w = alHandOver c /\ e = evConn c) /\ players s' <> [] /\
     ticking s' = ticking s /\ stopTick s' = stopTick s /\ k = O \/
   (* a message or a departure that launches nothing *)
   received e (acceptLoop w) = acceptLoop w /\
   players s <> [] /\ ticking s' = ticking s /\ k = O /\
     (stopTick s' = stopTick s \/
      ticking s = true /\ players s' = [] /\ stopTick s = []) \/
   (* a start message that launches the ticker *)
   received e (acceptLoop w) = acceptLoop w /\
   players s <> [] /\ ticking s = false /\ ticking s' = true /\ k = 1%nat /\
     stopTick s' = stopTick s /\ players s' = players s /\ serverListener s' = lnClosed).
Proof.
  intros Hwf Hd Hnp s s' k. subst s s' k.
  pose proof Hwf as (_&_&_&_&_&_&_&_&_&Hbound).
  split.
  { destruct (Start_turn_listener J (srv w) e Hwf Hnp) as [[_ H]|(_&_&H)]; auto. }
  destruct e as [c|mf|i].
  - left. destruct Hd as (Hal&_).
    destruct (Start_turn_conn_state J c (srv w) Hnp) as (e&rest&_&->&->).
    unfold joined. step_m. split; [eauto|]. repeat split; try assumption.
    intros H. apply app_eq_nil in H as [_ H]. discriminate.
  - right. cbn [Start_turn]. destruct Hd as [a Hf].
    assert (Hne : players (srv w) <> []).
    { apply findById_Some in Hf as [Ha _]. intros E. rewrite E in Ha. inversion Ha. }
    destruct (handleMessage_effect J mf (srv w)) as ((Hps&_)&Ht&_).
    destruct (handleMessage_launch J (srv w) mf Hbound) as [[H1 H2]|(_&H1&_&_&H2&H3&H4)].
    + left. split; [reflexivity|]. repeat split; try assumption. left. exact Ht.
    + right. split; [reflexivity|]. repeat split; assumption.
  - right. left. cbn [Start_turn]. destruct Hd as [a Hf].
    assert (Hne : players (srv w) <> []).
    { apply findById_Some in Hf as [Ha _]. intros E. rewrite E in Ha. inversion Ha. }
    destruct (handleDisconnect_shape i (srv w) Hwf)
      as (s1&Hs1&_&((Hps&_)&_&Htick&Hsame&Hstop&_)&Hk).
    rewrite teardown_launches in Hk.
    assert (E : ticking s1 = ticking (srv w) /\ stopTick s1 = stopTick (srv w))
      by (destruct Hs1 as [->|(?&?&?&_&_&->)]; split; reflexivity).
    destruct E as [E1 E2]. rewrite E1 in *. rewrite E2 in *.
    split; [reflexivity|].
    split; [exact Hne | split; [exact Htick | split; [exact Hk|]]].
    destruct Hstop as [Hstop|(H1&H2&H3)]; [left; exact Hstop | right].
    split; [exact H1 | split; [|exact H2]].
    destruct (decide (players s1 = [])) as [Hnil|Hsome]; [rewrite Hps; exact Hnil|].
    rewrite (Hsame Hsome) in H3. rewrite E2 in H3. congruence.
Qed.

Lemma prepend_Done {A} (l : list Action) (o : Outcome A) (a : A) (s : Server)
    (out : list Action) :
  prepend l o = Done a s out -> exists out', o = Done a s out'.
Proof. destruct o; cbn; intros H; [|discriminate..]. injection H as -> -> _. eauto. Qed.

(** [teardown] returns with no player left only when it could send the
    listener its stop request. *)
Lemma teardown_done (s s' : Server) (out : list Action) :
  teardown s = Done tt s' out -> players s = [] -> stopListen s = [].
Proof.
  intros Hrun Hps. destruct (stopListen s) as [|v l] eqn:E; [reflexivity|]. exfalso.
  revert Hrun. unfold teardown, shutdown. step_m.
  rewrite Hps. cbn [length Nat.ltb Nat.leb].
  destruct (ticking s); step_m.
  - destruct (stopTick s) as [|v' l'] eqn:Et.
    + rewrite (chan_send_room chStopTick true s Et). step_m.
      rewrite chan_send_full by (cbn; rewrite E; discriminate). discriminate.
    + rewrite chan_send_full by (cbn; rewrite Et; discriminate). discriminate.
  - rewrite chan_send_full by (cbn; rewrite E; discriminate). discriminate.
Qed.

(** A handler that returns with no player left, where there was one, found
    the listener's channel empty. *)
Lemma Start_turn_emptied (J : JSON) (e : Event) (s s' : Server) (out : list Action) :
  wf s -> Start_turn J e s = Done tt s' out ->
  players s <> [] -> players s' = [] -> stopListen s = [].
Proof.
  intros Hwf Hrun Hne Hnil. destruct e as [c|mf|i].
  - exfalso. assert (Hnp : ~ panics (Start_turn J (evConn c) s)) by (rewrite Hrun; intros []).
    destruct (Start_turn_conn_state J c s Hnp) as (e&rest&_&Hs&_).
    rewrite Hrun in Hs. cbn [state_of] in Hs. subst s'. revert Hnil. unfold joined. step_m.
    intros H. apply app_eq_nil in H as [_ H]. discriminate.
  - exfalso. cbn [Start_turn] in Hrun.
    destruct (handleMessage_effect J mf s) as ((Hps&_)&_). rewrite Hrun in Hps.
    cbn [state_of] in Hps. congruence.
  - cbn [Start_turn] in Hrun. destruct (findById i s) as [a|] eqn:Hf.
    + apply findById_Some in Hf as Ha. destruct Ha as [Ha _].
      destruct (players_split s a) as (l1&l2&Hps&H1&H2);
        [apply players_NoDup, Hwf | exact Ha |].
      rewrite (handleDisconnect_run i s a l1 l2 Hf Hps H1 H2) in Hrun.
      apply prepend_Done in Hrun as [out' Hrun].
      destruct (decide (players (left a (l1 ++ l2) s) = [])) as [Hl|Hl].
      * exact (teardown_done _ _ _ Hrun Hl).
      * destruct (teardown_run_effect (left a (l1 ++ l2) s)) as (_&_&_&Hsame&_).
        rewrite Hrun in Hsame. cbn [state_of] in Hsame. rewrite (Hsame Hl) in Hnil.
        contradiction.
    + rewrite (handleDisconnect_absent i s Hf) in Hrun.
      apply prepend_Done in Hrun as [out' Hrun].
      destruct (teardown_run_effect s) as (_&_&_&Hsame&_).
      rewrite Hrun in Hsame. cbn [state_of] in Hsame. rewrite (Hsame Hne) in Hnil.
      contradiction.
Qed.
Lemma hist_event (J : JSON) (w : World) (e : Event) (n : nat) (b : Broker) :
  wf (srv w) -> listener_inv w -> hist n w -> broker w = brRunning ->
  deliverable w e -> ~ panics (Start_turn J e (srv w)) ->
  (b = brRunning ->
   exists out, Start_turn J e (srv w) = Done tt (state_of (Start_turn J e (srv w))) out) ->
  hist (n + launches (actions_of (Start_turn J e (srv w))))
    {| srv := state_of (Start_turn J e (srv w)); broker := b;
       acceptLoop := received e (acceptLoop w);
       tickers := (tickers w + launches (actions_of (Start_turn J e (srv w))))%nat |}.
Proof.
  intros Hwf Hinv (Ht&Hn&Hon&Hreq&Hgone) Hb Hd Hnp Hdone.
  destruct (Start_turn_ticker J w e Hwf Hd Hnp) as (Hl&Hcase).
  unfold hist, deserted in *. cbn [srv tickers broker acceptLoop].
  destruct Hcase as
    [((c&Hal&->)&Hps&Htick&Hstop&->)
    |[(Hrec&Hne&Htick&->&Hstop)|(Hrec&Hne&Hoff&Hon'&->&Hstop&Hps&Hclosed)]].
  - (* a connection: the accept loop held it and the Broker runs *)
    assert (Hnd : ~ (acceptLoop w = alGone \/ broker w <> brRunning))
      by (intros [Hx|Hx]; congruence).
    assert (Hempty : stopTick (srv w) = []).
    { destruct (stopTick (srv w)) as [|v l] eqn:E; [reflexivity|].
      destruct Hreq as (_&_&_&Hx); [discriminate | contradiction]. }
    rewrite Htick, Hstop, !Nat.add_0_r.
    split; [exact Ht | split; [exact Hn | split; [|split]]].
    + intros Hx. destruct (Hon Hx) as [-> Hc]. split; [reflexivity|].
      destruct Hl as [->| ->]; [exact Hc | reflexivity].
    + intros Hx. rewrite Hempty in Hx. contradiction.
    + intros H1 H2. destruct (Hgone H1 H2) as (_&_&Hx). contradiction.
  - (* nothing is launched *)
    rewrite Hrec, Htick, !Nat.add_0_r.
    assert (Hempty : stopTick (srv w) = []).
    { destruct (stopTick (srv w)) as [|v l] eqn:E; [reflexivity|].
      destruct Hreq as (_&Hx&_); [discriminate | contradiction]. }
    assert (Hclosed : ticking (srv w) = true ->
                      serverListener (state_of (Start_turn J e (srv w))) = lnClosed).
    { intros Hx. destruct (Hon Hx) as [_ H']. destruct Hl as [->| ->]; [exact H' | reflexivity]. }
    split; [exact Ht | split; [exact Hn | split; [|split]]].
    + intros Hx. split; [apply Hon, Hx | apply Hclosed, Hx].
    + intros Hx. destruct Hstop as [Hstop|(Hy&Hz&_)]; [congruence|].
      split; [apply Hon, Hy | split; [exact Hz | split; [apply Hclosed, Hy|]]].
      destruct b; [left | right; discriminate..].
      destruct (Hdone eq_refl) as [out Hrun].
      pose proof (Start_turn_emptied J e (srv w) _ out Hwf Hrun Hne Hz) as Hroom.
      destruct (Hon Hy) as [_ Hc].
      destruct (acceptLoop w) eqn:Hal; [exfalso | exfalso | reflexivity];
        (apply Hinv; [rewrite Hal; discriminate | exact Hc | exact Hroom]).
    + intros H1 H2. destruct (Hgone H1 H2) as [Hx _]. contradiction.
  - (* the ticker is launched: it is the first *)
    rewrite Hrec, Hon', Hstop, Hps.
    assert (Hn0 : n = O).
    { destruct n as [|[|n]]; [reflexivity | | lia].
      destruct (Hgone eq_refl Hoff) as [Hx _]. contradiction. }
    assert (Hempty : stopTick (srv w) = []).
    { destruct (stopTick (srv w)) as [|v l] eqn:E; [reflexivity|].
      destruct Hreq as (_&Hx&_); [discriminate | contradiction]. }
    subst n. rewrite Hoff in Ht. rewrite Ht, Hempty.
    split; [reflexivity | split; [cbn; lia | split; [|split]]].
    + intros _. split; [reflexivity | exact Hclosed].
    + intros Hx. contradiction.
    + intros _ Hx. discriminate.
Qed.

Lemma step_hist (J : JSON) (w w' : World) (l : Label) (out : list Action) (n : nat) :
  wf (srv w) -> listener_inv w -> hist n w -> step J w l out w' ->
  hist (n + launches out) w'.
Proof.
  intros Hwf Hinv Hh Hstep. destruct Hstep as
    [w e s' out Hb Hd Hrun | w e s' out Hb Hd Hrun | w v rest _ Hs
    | w c s' out _ Hopen Hrun
    | w e s' out _ Hc Hrun | w s' out Hpos Hrun | w s' out s'' out' Hpos Hrun Hend].
  - pose proof (hist_event J w e n brRunning Hwf Hinv Hh Hb Hd) as H. rewrite Hrun in H.
    apply H; [intros [] | intros _; eexists; reflexivity].
  - pose proof (hist_event J w e n brStuck Hwf Hinv Hh Hb Hd) as H. rewrite Hrun in H.
    apply H; [intros [] | discriminate].
  - cbn [launches]. rewrite Nat.add_0_r. destruct Hh as (Ht&Hn&Hon&Hreq&Hgone).
    unfold hist, deserted in *. step_m.
    split; [exact Ht | split; [exact Hn | split; [exact Hon | split]]].
    + intros Hx. destruct (Hreq Hx) as (?&?&?&_).
      repeat split; try assumption. right. discriminate.
    + intros H1 H2. destruct (Hgone H1 H2) as (?&?&_).
      repeat split; try assumption. right. discriminate.
  - injection Hrun as <- <-. cbn [launches]. rewrite Nat.add_0_r.
    destruct Hh as (Ht&Hn&Hon&Hreq&Hgone). unfold hist, deserted in *. step_m.
    split; [exact Ht | split; [exact Hn | split; [exact Hon | split]]].
    + intros Hx. destruct (Hreq Hx) as (_&_&Hx'&_). congruence.
    + intros H1 H2. destruct (Hgone H1 H2) as (_&Hx'&_). congruence.
  - rewrite hostServer_turn_run in Hrun.
    destruct (stopListen (srv w)); [discriminate|]. injection Hrun as <- <-.
    cbn [launches]. rewrite Nat.add_0_r.
    destruct Hh as (Ht&Hn&Hon&Hreq&Hgone). unfold hist, deserted in *. step_m.
    split; [exact Ht | split; [exact Hn | split; [exact Hon | split]]].
    + intros Hx. destruct (Hreq Hx) as (?&?&?&_). repeat split; try assumption. left. reflexivity.
    + intros H1 H2. destruct (Hgone H1 H2) as (?&?&_).
      repeat split; try assumption. left. reflexivity.
  - rewrite ticker_turn_run in Hrun.
    destruct (stopTick (srv w)); [|discriminate]. injection Hrun as <- <-.
    rewrite launches_deliveries, Nat.add_0_r. destruct w; exact Hh.
  - rewrite ticker_turn_run in Hrun.
    destruct (stopTick (srv w)) as [|v rest] eqn:Hreq; [discriminate|].
    injection Hrun as <- <-. revert Hend. unfold ticker_end. step_m. intros [= <- <-].
    rewrite !launches_app, launches_deliveries. cbn [launches]. rewrite !Nat.add_0_r.
    destruct Hh as (Ht&Hn&Hon&Hreq'&Hgone). rewrite Hreq in Hreq'.
    destruct Hreq' as (Hn1&Hps&Hclosed&Hdes); [discriminate|].
    assert (Hrest : rest = []).
    { destruct Hwf as (_&_&_&_&_&_&H&_). rewrite Hreq in H.
      destruct rest; [reflexivity | cbn in H; unfold chanCap in H; lia]. }
    assert (Hticking : ticking (srv w) = true).
    { destruct (ticking (srv w)); [reflexivity | lia]. }
    unfold hist, deserted. cbn [srv tickers broker acceptLoop]. step_m.
    rewrite Ht, Hticking, Hrest.
    repeat split; try assumption; try congruence.
Qed.

Lemma steps_hist (J : JSON) (w w' : World) (ls : list Label) (out : list Action) (n : nat) :
  steps J w ls out w' -> wf (srv w) -> listener_inv w -> hist n w ->
  hist (n + launches out) w'.
Proof.
  intros Hsteps. revert n.
  induction Hsteps as [|w l out w' ls outs w'' Hstep _ IH]; intros n Hwf Hinv Hh.
  - cbn [launches]. rewrite Nat.add_0_r. exact Hh.
  - rewrite launches_app, Nat.add_assoc.
    apply IH; [eapply step_wf; eassumption | | eapply step_hist; eassumption].
    exact (proj1 (step_listener J w w' l out Hwf Hstep) Hinv).
Qed.

Lemma hist_boot : hist 0 boot.
Proof. unfold hist, deserted. cbn. repeat split; try lia; try congruence. Qed.

Lemma reachable_hist (J : JSON) (w : World) : reachable J w -> exists n, hist n w.
Proof.
  intros (ls&out&Hsteps). exists (launches out).
  apply (steps_hist J boot w ls out 0 Hsteps wf_boot); [|exact hist_boot].
  intros _ H. discriminate.
Qed.





(** ** A Broker that cannot go on *)

(** With the Broker stuck and the accept loop gone, no step takes anything
    out of the listener's channel or puts anything into the server's: a send
    blocked on the first stays blocked, and the stop case of the Broker's
    [select] never fires. *)
Lemma step_stuck_forever (J : JSON) (w w' : World) (l : Label) (out : list Action) :
  step J w l out w' ->
  broker w = brStuck -> acceptLoop w = alGone ->
  broker w' = brStuck /\ acceptLoop w' = alGone /\
  stopListen (srv w') = stopListen (srv w) /\
  stopServer (srv w') = stopServer (srv w) /\
  players (srv w') = players (srv w).
Proof.
  intros Hstep Hb Hup. destruct Hstep as
    [w e s' out Hrun' _ _ | w e s' out Hrun' _ _ | w v rest Hrun' _
    | w c s' out Hup' _ _
    | w e s' out Hup' _ _ | w s' out _ Hrun | w s' out s'' out' _ Hrun Hend];
    try congruence; cbn [srv broker acceptLoop].
  - rewrite ticker_turn_run in Hrun.
    destruct (stopTick (srv w)); [|discriminate]. injection Hrun as <- _. repeat split; assumption.
  - rewrite ticker_turn_run in Hrun.
    destruct (stopTick (srv w)); [discriminate|]. injection Hrun as <- _.
    revert Hend. unfold ticker_end. step_m. intros [= <- _]. repeat split; assumption.
Qed.

Lemma steps_stuck_forever (J : JSON) (w w' : World) (ls : list Label) (out : list Action) :
  steps J w ls out w' ->
  broker w = brStuck -> acceptLoop w = alGone ->
  broker w' = brStuck /\ acceptLoop w' = alGone /\
  stopListen (srv w') = stopListen (srv w) /\
  stopServer (srv w') = stopServer (srv w) /\
  players (srv w') = players (srv w).
Proof.
  induction 1 as [|w l out w' ls outs w'' Hstep _ IH]; intros Hb Hup; [repeat split; assumption|].
  destruct (step_stuck_forever J w w' l out Hstep Hb Hup) as (Hb'&Hup'&E1&E2&E3).
  destruct (IH Hb' Hup') as (?&?&?&?&?). repeat split; congruence.
Qed.

(** C5, where the code fails it.  After two messages of the game the
    accept loop is gone and a stop request that no one will take lies in the
    listener's channel.  When then the last player leaves,
    [handleDisconnect] removes the player, returns the color, sends the
    ticker its stop request, and blocks in [shutdown] on the listener's full
    channel: nothing is sent to [stopServer], and in no run from there does
    the Broker leave its loop. *)
Theorem teardown_blocks :
  reachable Fixture.json Fixture.w_game2_alone /\
  players Fixture.game2_alone = [1%nat] /\
  acceptLoop Fixture.w_game2_alone = alGone /\
  stopListen Fixture.game2_alone = [true] /\
  handleDisconnect 1 Fixture.game2_alone
  = Blocked Fixture.game2_stuck
      [Printf ("Client with color: %s unsubscribed" +:+ nl) [AStr "#00ff00"];
       Printf ("Client with id: %d disconnected" +:+ nl) [AInt 1];
       ChanSend chStopTick true;
       Printf ("Initiating shutdown" +:+ nl) []] /\
  players Fixture.game2_stuck = [] /\
  stopServer Fixture.game2_stuck = [] /\
  forall ls out w',
    steps Fixture.json Fixture.w_game2_stuck ls out w' ->
    broker w' = brStuck /\ stopListen (srv w') = [true] /\ stopServer (srv w') = [].
Proof.
  split; [exact reachable_game2_alone|].
  split; [reflexivity|]. split; [reflexivity|]. split; [reflexivity|].
  split; [vm_compute; reflexivity|]. split; [reflexivity|]. split; [reflexivity|].
  intros ls out w' Hsteps.
  destruct (steps_stuck_forever _ _ _ _ _ Hsteps eq_refl eq_refl) as (Hb&_&Hl&Hs&_).
  split; [exact Hb | split; [rewrite Hl | rewrite Hs]; reflexivity].
Qed.

(** C8, where the code fails it.  In the same state of the game, a line
    that is no JSON text and a line of an unknown type are not dropped with
    the loop going on: the handler blocks on the listener's full channel
    before it has looked at the line, and in no run from there does the
    Broker handle another event. *)
Theorem protocol_error_blocks :
  reachable Fixture.json Fixture.w_game2 /\
  acceptLoop Fixture.w_game2 = alGone /\
  json_checkValid Fixture.json (TrimSpace (msg (Fixture.broken_from 0))) <> None /\
  gd_Type (Unmarshal_GameData Fixture.json (TrimSpace (msg (Fixture.ping_from 0)))).1 = "ping" /\
  handleMessage Fixture.json (Fixture.broken_from 0) Fixture.game2 = Blocked Fixture.game2 [] /\
  handleMessage Fixture.json (Fixture.ping_from 0) Fixture.game2 = Blocked Fixture.game2 [] /\
  forall ls out w',
    steps Fixture.json Fixture.w_game2_blocked ls out w' ->
    broker w' = brStuck /\ stopListen (srv w') = [true].
Proof.
  split; [exact reachable_game2|].
  split; [reflexivity|]. split; [discriminate|]. split; [reflexivity|].
  split; [vm_compute; reflexivity|]. split; [vm_compute; reflexivity|].
  intros ls out w' Hsteps.
  destruct (steps_stuck_forever _ _ _ _ _ Hsteps eq_refl eq_refl) as (Hb&_&Hl&_).
  split; [exact Hb | rewrite Hl; reflexivity].
Qed.

(** ** Protocol errors *)

Lemma malformed_types (J : JSON) (m : string) :
  json_checkValid J m <> None -> lobby_type J m = EmptyString /\ game_type J m = EmptyString.
Proof.
  unfold lobby_type, game_type, Unmarshal_ChatData, Unmarshal_GameData.
  destruct (json_checkValid J m); [split; reflexivity | congruence].
Qed.

Lemma eqb_neq (x y : string) : x <> y -> String.eqb x y = false.
Proof. apply String.eqb_neq. Qed.

(** In the lobby, and in the game when the stop request for the listener
    can be sent, a protocol error is logged and the line dropped: the handler
    returns, nothing is written to a connection, no ticker is launched, and
    the players, their ready flags, the pool, the phase and the ticking flag
    are as before. *)
Theorem protocol_error_dropped (J : JSON) (s : Server) (mf : msgFormat) :
  wf s ->
  protocol_error J s (TrimSpace (msg mf)) ->
  phase s = 0 \/ stopListen s = [] ->
  exists s' out,
    handleMessage J mf s = Done tt s' out /\
    same_session s s' /\
    writes out = [] /\ launches out = O /\
    (exists f args, Printf f args ∈ out) /\
    (phase s = 0 -> s' = s /\ only_logs out).
Proof.
  intros Hwf Herr Hroom. pose proof Hwf as (_&_&_&_&_&Hphase&_&_&_&Hbound).
  assert (Hcase :
    phase s = 0 /\ String.eqb (lobby_type J (TrimSpace (msg mf))) "chat" = false /\
      String.eqb (lobby_type J (TrimSpace (msg mf))) "ready" = false \/
    phase s = 1 /\ stopListen s = [] /\
      String.eqb (game_type J (TrimSpace (msg mf))) "start" = false /\
      String.eqb (game_type J (TrimSpace (msg mf))) "player_event" = false).
  { destruct Herr as [Hbad|[(H0&H1&H2)|(H0&H1&H2)]].
    - destruct (malformed_types J _ Hbad) as [-> ->].
      destruct Hphase as [H0|H1]; [left | right]; repeat split; try assumption.
      destruct Hroom; [congruence | assumption].
    - left. repeat split; [assumption | apply eqb_neq; assumption..].
    - right. repeat split; [assumption | | apply eqb_neq; assumption..].
      destruct Hroom; [congruence | assumption]. }
  unfold lobby_type, game_type in Hcase.
  destruct Hcase as [(H0&H1&H2)|(H0&H3&H1&H2)].
  - unfold handleMessage, handleMessage_lobby. step_m. rewrite H0. cbn [Z.eqb].
    destruct (Unmarshal_ChatData J (TrimSpace (msg mf))) as [data err]. cbn [fst] in *.
    rewrite H1, H2.
    destruct (findById (senderId mf) s), err; step_m;
      (eexists _, _; split; [reflexivity|]);
      (split; [repeat split|]); (split; [reflexivity|]); (split; [reflexivity|]);
      (split; [eexists _, _; left | intros _; split; [reflexivity | repeat constructor]]).
  - unfold handleMessage, handleMessage_game. step_m. rewrite H0. cbn [Z.eqb Pos.eqb].
    destruct (Unmarshal_GameData J (TrimSpace (msg mf))) as [data err]. cbn [fst] in *.
    rewrite H1, H2.
    destruct (findById (senderId mf) s), err; step_m;
      rewrite (chan_send_room chStopListen true s H3); step_m;
      rewrite listener_close_run by exact Hbound; step_m;
      (eexists _, _; split; [reflexivity|]);
      (split; [repeat split|]); (split; [reflexivity|]); (split; [reflexivity|]);
      (split; [eexists _, _; apply list_elem_of_In; cbn; eauto 10 | intros; congruence]).
Qed.

Lemma protocol_error_dropped_witness :
  exists out,
    handleMessage Fixture.json (Fixture.broken_from 0) Fixture.lobby2
    = Done tt Fixture.lobby2 out /\
    writes out = [] /\ only_logs out.
Proof.
  destruct (protocol_error_dropped Fixture.json Fixture.lobby2 (Fixture.broken_from 0))
    as (s'&out&Hrun&_&Hw&_&_&Hlobby).
  - apply (bool_decide_unpack _). vm_compute. reflexivity.
  - left. discriminate.
  - left. reflexivity.
  - destruct (Hlobby eq_refl) as [-> Hlogs]. exists out. repeat split; assumption.
Defined.

(** ** Teardown when the channels have room *)

Lemma teardown_last (s : Server) :
  players s = [] -> stopListen s = [] -> stopServer s = [] -> stopTick s = [] ->
  serverListener s <> lnNil ->
  exists s' out,
    teardown s = Done tt s' out /\
    same_roster s s' /\ phase s' = phase s /\ ticking s' = ticking s /\
    stopTick s' = (if ticking s then [true] else []) /\
    stopListen s' = [true] /\ serverListener s' = lnClosed /\ stopServer s' = [true] /\
    stop_requests out = 1%nat /\ closes out = 1%nat /\
    ChanSend chStopServer true ∈ out /\
    (ticking s = true -> ChanSend chStopTick true ∈ out).
Proof.
  intros Hps Hl Hs Ht Hbound. unfold teardown, shutdown. step_m. rewrite Hps.
  cbn [length Nat.ltb Nat.leb].
  destruct (ticking s) eqn:Hon; step_m.
  - rewrite (chan_send_room chStopTick true s Ht). step_m.
    rewrite chan_send_room by exact Hl. step_m.
    rewrite listener_close_run by exact Hbound. step_m.
    rewrite chan_send_room by exact Hs. step_m.
    eexists _, _. split; [reflexivity|]. step_m.
    split; [eapply same_roster_fields; [apply same_roster_refl | reflexivity ..]|].
    repeat split; intros;
      first [ assumption | reflexivity
            | apply (proj2 (list_elem_of_In _ _)); cbn; auto 10 ].
  - rewrite chan_send_room by exact Hl. step_m.
    rewrite listener_close_run by exact Hbound. step_m.
    rewrite chan_send_room by exact Hs. step_m.
    eexists _, _. split; [reflexivity|]. step_m.
    split; [eapply same_roster_fields; [apply same_roster_refl | reflexivity ..]|].
    repeat split; intros;
      first [ assumption | reflexivity | discriminate
            | apply (proj2 (list_elem_of_In _ _)); cbn; auto 10 ].
Qed.

(** When the last player leaves and the channels have room,
    [handleDisconnect] removes the player, returns the color to the back of
    the pool, sends the ticker its stop request if the ticking flag is set,
    sends the listener its stop request and closes it, and sends the stop
    request of the Broker loop, whose [select] can then leave the loop.  When
    a player is left, it removes the player, returns the color, and does
    none of these. *)
Theorem last_player_teardown (J : JSON) (w : World) (i : Z) (a : ptr) :
  reachable J w -> broker w = brRunning ->
  findById i (srv w) = Some a ->
  (players (srv w) = [a] -> stopListen (srv w) = [] -> stopServer (srv w) = [] ->
   exists out w1 out' w2,
     step J w (lEvent (evDconn i)) out w1 /\
     handleDisconnect i (srv w) = Done tt (srv w1) out /\
     players (srv w1) = [] /\
     free_colors (srv w1) = free_colors (srv w) ++ [color (heap (srv w) !!! a)] /\
     stopTick (srv w1) = (if ticking (srv w) then [true] else []) /\
     stopListen (srv w1) = [true] /\ serverListener (srv w1) = lnClosed /\
     stopServer (srv w1) = [true] /\
     step J w1 lStop out' w2 /\ broker w2 = brStopped) /\
  (players (srv w) <> [a] ->
   exists l,
     l <> [] /\
     handleDisconnect i (srv w)
     = Done tt (left a l (srv w))
         [Printf ("Client with color: %s unsubscribed" +:+ nl)
            [AStr (color (heap (srv w) !!! a))];
          Printf ("Client with id: %d disconnected" +:+ nl) [AInt i]]).
Proof.
  intros Hreach Hb Hf. pose proof (reachable_wf J w Hreach) as Hwf.
  pose proof (findById_Some _ _ _ Hf) as [Ha _].
  destruct (players_split (srv w) a) as (l1&l2&Hps&H1&H2);
    [apply players_NoDup, Hwf | exact Ha |].
  pose proof (handleDisconnect_run i (srv w) a l1 l2 Hf Hps H1 H2) as Hrun.
  split.
  - intros Hone Hl Hs.
    assert (E : l1 ++ l2 = []).
    { rewrite Hone in Hps. destruct l1 as [|b [|c l1]]; cbn in Hps.
      - injection Hps as <-. reflexivity.
      - injection Hps as _ Hps. discriminate.
      - injection Hps as _ Hps. discriminate. }
    rewrite E in Hrun.
    assert (Ht : stopTick (srv w) = []).
    { destruct (reachable_hist J w Hreach) as (n&_&_&_&Hreq&_).
      destruct (stopTick (srv w)); [reflexivity|].
      destruct Hreq as (_&Hnil&_); [discriminate|]. rewrite Hnil in Ha. inversion Ha. }
    destruct (teardown_last (left a [] (srv w)))
      as (s'&out&Htd&(Hp&Hfree&_)&_&_&Htick&Hl'&Hc&Hs'&_); try assumption; try reflexivity.
    { apply Hwf. }
    rewrite Htd in Hrun. cbn [prepend] in Hrun.
    eexists _, {| srv := s'; broker := brRunning; acceptLoop := acceptLoop w;
                  tickers := _ |}, _,
      {| srv := set_chan chStopServer [] s'; broker := brStopped;
         acceptLoop := acceptLoop w; tickers := _ |}.
    split; [apply (step_done J w (evDconn i)); [exact Hb | eexists; exact Hf | exact Hrun]|].
    cbn [srv broker]. split; [exact Hrun|].
    split; [rewrite Hp; reflexivity|]. split; [rewrite Hfree; reflexivity|].
    split; [exact Htick|]. split; [exact Hl'|]. split; [exact Hc|]. split; [exact Hs'|].
    split; [|reflexivity].
    apply (step_stop J {| srv := s'; broker := brRunning; acceptLoop := acceptLoop w;
                          tickers := _ |} true []); [reflexivity | exact Hs'].
  - intros Hmore. exists (l1 ++ l2).
    assert (Hne : l1 ++ l2 <> []).
    { intros E. apply app_eq_nil in E as [-> ->]. apply Hmore. exact Hps. }
    split; [exact Hne|]. rewrite Hrun. unfold teardown. step_m.
    destruct (l1 ++ l2) as [|b l]; [congruence|]. reflexivity.
Qed.

Lemma last_player_teardown_witness :
  exists out w1 out' w2,
    step Fixture.json Fixture.w_lobby1 (lEvent (evDconn 0)) out w1 /\
    stopServer (srv w1) = [true] /\
    step Fixture.json w1 lStop out' w2 /\ broker w2 = brStopped.
Proof.
  destruct (last_player_teardown Fixture.json Fixture.w_lobby1 0 0%nat reachable_lobby1
              eq_refl eq_refl) as [Hlast _].
  destruct (Hlast eq_refl eq_refl eq_refl)
    as (out&w1&out'&w2&Hstep&_&_&_&_&_&_&Hs&Hstop&Hb).
  exists out, w1, out', w2. repeat split; assumption.
Defined.

(** * Further properties of the code *)

(** ** Admission *)

Lemma wf_lengths (s : Server) :
  wf s -> (length (free_colors s) + length (players s) = 3)%nat.
Proof.
  intros (_&_&_&_&Hperm&_). apply Permutation_length in Hperm.
  rewrite length_app in Hperm. unfold held in Hperm. rewrite length_fmap in Hperm.
  exact Hperm.
Qed.

Lemma handleConnect_empty_run (c : Conn) (s : Server) :
  free_colors s = [] ->
  exists s', handleConnect c s = Panic s' [Printf ("Serving %s" +:+ nl) [AAddr c]].
Proof.
  intros Hfree. unfold handleConnect, new_client, subscribe. step_m. rewrite Hfree. step_m.
  eexists. reflexivity.
Qed.

(** The pool bounds the admission.  There are never more than three players.
    With fewer than three, [handleConnect] returns with one player more; with
    three, the pool is empty and [subscribe] panics, on the [nil] element
    [Front] returns, before anything is written to the connection. *)
Theorem admission_bounded (c : Conn) (s : Server) :
  wf s ->
  (length (players s) <= 3)%nat /\
  ((length (players s) < 3)%nat ->
   exists p s' out,
     handleConnect c s = Done p s' out /\
     length (players s') = S (length (players s))) /\
  (length (players s) = 3%nat ->
   panics (handleConnect c s) /\ writes (actions_of (handleConnect c s)) = []).
Proof.
  intros Hwf. pose proof (wf_lengths s Hwf) as Hlen.
  split; [lia | split].
  - intros Hlt. destruct (free_colors s) as [|e rest] eqn:Hfree; [cbn in Hlen; lia|].
    eexists _, _, _. split; [apply (handleConnect_run c s e rest Hfree)|].
    unfold joined. step_m. rewrite length_app. cbn. lia.
  - intros Hfull. destruct (free_colors s) as [|e rest] eqn:Hfree; [|cbn in Hlen; lia].
    destruct (handleConnect_empty_run c s Hfree) as [s' ->]. split; [exact I | reflexivity].
Qed.

Lemma admission_bounded_witness :
  (exists p s' out, handleConnect 9%nat Fixture.lobby2 = Done p s' out) /\
  panics (handleConnect 10%nat Crowd.lobby3).
Proof.
  assert (Hwf2 : wf Fixture.lobby2) by (apply (bool_decide_unpack _); vm_compute; reflexivity).
  assert (Hwf3 : wf Crowd.lobby3) by (apply (bool_decide_unpack _); vm_compute; reflexivity).
  split.
  - destruct (admission_bounded 9%nat Fixture.lobby2 Hwf2) as (_&Hroom&_).
    destruct Hroom as (p&s'&out&Hrun&_); [cbn; lia|]. eauto.
  - destruct (admission_bounded 10%nat Crowd.lobby3 Hwf3) as (_&_&Hfull).
    apply Hfull. reflexivity.
Defined.

(** The old players keep their structs when a new one is put in the store. *)
Lemma joined_lookup (c : Conn) (e : string) (rest : list string) (s : Server) (q : ptr) :
  (q < length (heap s))%nat -> heap (joined c e rest s) !!! q = heap s !!! q.
Proof. intros Hq. unfold joined. step_m. apply lookup_total_app_l. exact Hq. Qed.

Lemma joined_new (c : Conn) (e : string) (rest : list string) (s : Server) :
  heap (joined c e rest s) !!! length (heap s)
  = {| id := ids s; conn := c; color := e; ready := false |}.
Proof. unfold joined. step_m. apply lookup_total_last. Qed.

Lemma filter_Forall {A} (P : A -> Prop) `{!forall x, Decision (P x)} (l : list A) :
  Forall P l -> filter P l = l.
Proof.
  induction 1 as [|x l Hx _ IH]; [reflexivity|].
  rewrite filter_cons, decide_True by exact Hx. f_equal. exact IH.
Qed.

Lemma joined_others (c : Conn) (e : string) (rest : list string) (s : Server) :
  wf s ->
  filter (fun q => id (heap (joined c e rest s) !!! q) <> ids s) (players (joined c e rest s))
  = players s.
Proof.
  intros Hwf. pose proof Hwf as (Hheap&_&Hids&_).
  assert (Hps : players (joined c e rest s) = players s ++ [length (heap s)])
    by (unfold joined; step_m; reflexivity).
  rewrite Hps, filter_app, filter_cons, decide_False, filter_nil, app_nil_r.
  - apply filter_Forall, Forall_forall. intros q Hq.
    rewrite joined_lookup by (rewrite Forall_forall in Hheap; exact (Hheap q Hq)).
    rewrite Forall_forall in Hids.
    assert (Hin : id (heap s !!! q) ∈ player_ids s).
    { unfold player_ids. apply list_elem_of_fmap. exists q. split; [reflexivity | exact Hq]. }
    specialize (Hids _ Hin). cbn beta in Hids. lia.
  - rewrite joined_new. cbn. intros H. apply H. reflexivity.
Qed.

(** What [handleConnect] tells whom.  The new connection is told its color,
    the color at the front of the pool, and then every player that was there
    before is sent the notice that this color has connected, in the order of
    the list; the newcomer gets no notice.  The new player has the id the
    counter held and is not ready, so the quorum does not hold after a
    connection, whatever the ready flags of the others, and the phase stays
    what it was. *)
Theorem newcomer_greeted (c : Conn) (s : Server) (e : string) (rest : list string) :
  wf s -> free_colors s = e :: rest ->
  exists p s' out,
    handleConnect c s = Done p s' out /\
    writes out
    = (c, connectMsg e +:+ nl)
        :: ((fun q => (conn (heap s !!! q), joinedMsg e +:+ nl)) <$> players s) /\
    heap s' !!! p = {| id := ids s; conn := c; color := e; ready := false |} /\
    (forall q, q ∈ players s -> heap s' !!! q = heap s !!! q) /\
    phase s' = phase s /\
    isAllReady s' = false.
Proof.
  intros Hwf Hfree. pose proof Hwf as (Hheap&_).
  eexists (length (heap s)), (joined c e rest s), _.
  split; [apply (handleConnect_run c s e rest Hfree)|].
  split; [|split; [apply joined_new | split; [|split]]].
  - rewrite writes_app, writes_deliveries, joined_others by exact Hwf.
    cbn [writes omap written app]. f_equal.
    apply Forall_fmap_ext_1. eapply Forall_impl; [exact Hheap|].
    intros q Hq. cbn beta in *. rewrite joined_lookup by exact Hq. reflexivity.
  - intros q Hq. apply joined_lookup. rewrite Forall_forall in Hheap. exact (Hheap q Hq).
  - reflexivity.
  - destruct (isAllReady (joined c e rest s)) eqn:Hall; [exfalso | reflexivity].
    apply isAllReady_iff in Hall as [_ Hall]. rewrite Forall_forall in Hall.
    assert (Hin : length (heap s) ∈ players (joined c e rest s)).
    { unfold joined. step_m. apply elem_of_app. right. apply list_elem_of_singleton.
      reflexivity. }
    specialize (Hall _ Hin). cbn beta in Hall. rewrite joined_new in Hall. discriminate.
Qed.

Lemma newcomer_greeted_witness :
  exists p s' out,
    handleConnect 9%nat Fixture.lobby2r = Done p s' out /\
    writes out
    = [(9%nat, connectMsg "#0000ff" +:+ nl);
       (7%nat, joinedMsg "#0000ff" +:+ nl);
       (8%nat, joinedMsg "#0000ff" +:+ nl)] /\
    isAllReady s' = false.
Proof.
  assert (Hwf : wf Fixture.lobby2r) by (apply (bool_decide_unpack _); vm_compute; reflexivity).
  destruct (newcomer_greeted 9%nat Fixture.lobby2r "#0000ff" [] Hwf eq_refl)
    as (p&s'&out&Hrun&Hw&_&_&_&Hq).
  exists p, s', out. split; [exact Hrun | split; [exact Hw | exact Hq]].
Defined.

(** ** Looking players up *)

Lemma findById_in_app (h : list client) (l1 l2 : list ptr) (i : Z) :
  findById_in h (l1 ++ l2) i
  = match findById_in h l1 i with
    | Some a => Some a
    | None => findById_in h l2 i
    end.
Proof.
  induction l1 as [|b l1 IH]; [reflexivity|]. cbn [app findById_in].
  destruct (id (h !!! b) =? i); [reflexivity | exact IH].
Qed.

Lemma findById_in_ext (h h' : list client) (l : list ptr) (i : Z) :
  Forall (fun q => id (h' !!! q) = id (h !!! q)) l ->
  findById_in h' l i = findById_in h l i.
Proof.
  induction 1 as [|b l Hb _ IH]; [reflexivity|]. cbn [findById_in].
  rewrite Hb, IH. reflexivity.
Qed.

Lemma findById_in_absent (h : list client) (l : list ptr) (i : Z) :
  Forall (fun a => id (h !!! a) <> i) l -> findById_in h l i = None.
Proof.
  induction 1 as [|b l Hb _ IH]; [reflexivity|]. cbn [findById_in].
  destruct (Z.eqb_spec (id (h !!! b)) i); [contradiction | exact IH].
Qed.

(** States with the same players and the same ids answer [findById] alike. *)
Lemma findById_same_roster (s s' : Server) (i : Z) :
  same_roster s s' -> findById i s' = findById i s.
Proof.
  intros (Hps&_&_&Hids&_). unfold findById, player_ids in *. rewrite Hps in *. clear Hps.
  revert Hids. generalize (players s). intros l. induction l as [|b l IH]; [reflexivity|].
  cbn [fmap list_fmap findById_in]. intros [= Hb Hl]. rewrite Hb, (IH Hl). reflexivity.
Qed.

Lemma players_fresh (s : Server) :
  wf s -> Forall (fun a => id (heap s !!! a) <> ids s) (players s).
Proof.
  intros (_&_&Hids&_). rewrite Forall_forall. intros q Hq. rewrite Forall_forall in Hids.
  assert (Hin : id (heap s !!! q) ∈ player_ids s).
  { unfold player_ids. apply list_elem_of_fmap. exists q. split; [reflexivity | exact Hq]. }
  specialize (Hids _ Hin). cbn beta in Hids. lia.
Qed.

Lemma joined_findById (c : Conn) (e : string) (rest : list string) (s : Server) (i : Z) :
  wf s ->
  findById i (joined c e rest s)
  = if decide (i = ids s) then Some (length (heap s)) else findById i s.
Proof.
  intros Hwf. pose proof Hwf as (Hheap&_).
  assert (Hold :
    findById_in (heap (joined c e rest s)) (players s) i = findById_in (heap s) (players s) i).
  { apply findById_in_ext. eapply Forall_impl; [exact Hheap|].
    intros q Hq. cbn beta in *. rewrite joined_lookup by exact Hq. reflexivity. }
  assert (Hps : players (joined c e rest s) = players s ++ [length (heap s)])
    by (unfold joined; step_m; reflexivity).
  unfold findById. rewrite Hps, findById_in_app, Hold. cbn [findById_in].
  rewrite joined_new. cbn [id]. destruct (decide (i = ids s)) as [->|Hi].
  - rewrite (findById_in_absent _ _ _ (players_fresh s Hwf)), Z.eqb_refl. reflexivity.
  - destruct (findById_in (heap s) (players s) i); [reflexivity|].
    destruct (Z.eqb_spec (ids s) i); [congruence | reflexivity].
Qed.

(** [findById] after a connection.  The id the newcomer got, the value of
    the counter, was no player's before and is the newcomer's after; every
    other id finds what it found before. *)
Theorem connect_then_find (c : Conn) (s : Server) (e : string) (rest : list string) :
  wf s -> free_colors s = e :: rest ->
  exists p s' out,
    handleConnect c s = Done p s' out /\
    findById (ids s) s = None /\
    findById (ids s) s' = Some p /\
    forall i, i <> ids s -> findById i s' = findById i s.
Proof.
  intros Hwf Hfree.
  eexists (length (heap s)), (joined c e rest s), _.
  split; [apply (handleConnect_run c s e rest Hfree)|].
  split; [apply findById_in_absent, players_fresh, Hwf | split].
  - rewrite joined_findById, decide_True by (exact Hwf || reflexivity). reflexivity.
  - intros i Hi. rewrite joined_findById, decide_False by assumption. reflexivity.
Qed.

Lemma connect_then_find_witness :
  exists p s' out,
    handleConnect 9%nat Fixture.lobby2 = Done p s' out /\
    findById 2 Fixture.lobby2 = None /\
    findById 2 s' = Some p.
Proof.
  assert (Hwf : wf Fixture.lobby2) by (apply (bool_decide_unpack _); vm_compute; reflexivity).
  destruct (connect_then_find 9%nat Fixture.lobby2 "#0000ff" [] Hwf eq_refl)
    as (p&s'&out&Hrun&Hnone&Hsome&_).
  exists p, s', out. split; [exact Hrun | split; [exact Hnone | exact Hsome]].
Defined.

(** ** Departure *)

Lemma safe_prepend {A} (out : list Action) (o : Outcome A) : safe (prepend out o) <-> safe o.
Proof. destruct o; reflexivity. Qed.

Lemma teardown_safe (s : Server) : serverListener s <> lnNil -> safe (teardown s).
Proof.
  intros Hbound. unfold teardown, shutdown, chan_send, listener_close. crunch.
  all: try exact I.
  all: congruence.
Qed.

Lemma teardown_idle (s : Server) : players s <> [] -> teardown s = Done tt s [].
Proof.
  intros Hne. unfold teardown. step_m. destruct (players s); [congruence | reflexivity].
Qed.

Lemma filter_remove (a : ptr) (l1 l2 : list ptr) :
  a ∉ l1 -> a ∉ l2 -> filter (fun q => q <> a) (l1 ++ a :: l2) = l1 ++ l2.
Proof.
  intros H1 H2. rewrite filter_app, filter_cons, decide_False by (intros H; apply H; reflexivity).
  rewrite !filter_Forall; [reflexivity | |]; apply Forall_forall; intros q Hq ->; auto.
Qed.

Lemma left_findById (a : ptr) (l1 l2 : list ptr) (s : Server) (j : Z) :
  NoDup (player_ids s) -> players s = l1 ++ a :: l2 ->
  findById j (left a (l1 ++ l2) s)
  = if decide (j = id (heap s !!! a)) then None else findById j s.
Proof.
  intros Hnd Hps. unfold findById, left. step_m. rewrite Hps, !findById_in_app.
  cbn [findById_in]. destruct (decide (j = id (heap s !!! a))) as [->|Hj].
  - assert (Hothers : Forall (fun q => id (heap s !!! q) <> id (heap s !!! a)) (l1 ++ l2)).
    { unfold player_ids in Hnd. rewrite Hps, fmap_app, fmap_cons in Hnd.
      apply NoDup_app in Hnd as (_&Hl1&Hnd). apply NoDup_cons in Hnd as [Hl2 _].
      apply Forall_app. split; apply Forall_forall; intros q Hq E.
      - apply (Hl1 (id (heap s !!! q))).
        + apply list_elem_of_fmap. eauto.
        + rewrite E. left.
      - apply Hl2. rewrite <- E. apply list_elem_of_fmap. eauto. }
    rewrite <- findById_in_app. apply findById_in_absent, Hothers.
  - destruct (Z.eqb_spec (id (heap s !!! a)) j); [congruence | reflexivity].
Qed.

(** [handleDisconnect] for the id of a subscribed player does not panic; it
    takes this player, and no other, out of the list, leaving the others in
    their order, and puts the player's color at the back of the pool.
    Afterwards [findById] finds no player for the id, and for every other id
    what it found before. *)
Theorem disconnect_then_gone (i : Z) (s : Server) (a : ptr) :
  wf s -> findById i s = Some a ->
  safe (handleDisconnect i s) /\
  players (state_of (handleDisconnect i s)) = filter (fun q => q <> a) (players s) /\
  free_colors (state_of (handleDisconnect i s))
  = free_colors s ++ [color (heap s !!! a)] /\
  findById i (state_of (handleDisconnect i s)) = None /\
  (forall j, j <> i -> findById j (state_of (handleDisconnect i s)) = findById j s).
Proof.
  intros Hwf Hf. pose proof Hwf as (_&Hnd&_&_&_&_&_&_&_&Hbound).
  pose proof (findById_Some _ _ _ Hf) as [Ha Hid].
  destruct (players_split s a) as (l1&l2&Hps&H1&H2); [apply players_NoDup, Hnd | exact Ha |].
  rewrite (handleDisconnect_run i s a l1 l2 Hf Hps H1 H2), state_of_prepend.
  destruct (teardown_run_effect (left a (l1 ++ l2) s)) as (Hroster&_).
  split; [apply safe_prepend, teardown_safe; exact Hbound|].
  pose proof Hroster as (Hp&Hfree&_).
  split; [rewrite Hp, Hps, filter_remove by assumption; reflexivity|].
  split; [rewrite Hfree; reflexivity|].
  split.
  - rewrite (findById_same_roster _ _ _ Hroster), (left_findById a l1 l2 s i Hnd Hps).
    rewrite decide_True by congruence. reflexivity.
  - intros j Hj.
    rewrite (findById_same_roster _ _ _ Hroster), (left_findById a l1 l2 s j Hnd Hps).
    rewrite decide_False by congruence. reflexivity.
Qed.

Lemma disconnect_then_gone_witness :
  players (state_of (handleDisconnect 1 Crowd.lobby3)) = [0%nat; 2%nat] /\
  findById 1 (state_of (handleDisconnect 1 Crowd.lobby3)) = None /\
  findById 2 (state_of (handleDisconnect 1 Crowd.lobby3)) = Some 2%nat.
Proof.
  assert (Hwf : wf Crowd.lobby3) by (apply (bool_decide_unpack _); vm_compute; reflexivity).
  destruct (disconnect_then_gone 1 Crowd.lobby3 1%nat Hwf eq_refl) as (_&Hps&_&Hnone&Hrest).
  split; [exact Hps | split; [exact Hnone|]].
  rewrite Hrest by discriminate. reflexivity.
Defined.

(** A disconnect notice for an id that no player has.  [findById] fails,
    the failure is logged, and [unsubscribe] is called with [nil]: it
    compares [nil] with every player and removes none, with no panic.  While
    a player is registered nothing else happens: the state is unchanged.
    With no player registered the handler goes on to the teardown and, the
    channels having room, asks the Broker loop to stop. *)
Theorem stray_disconnect (i : Z) (s : Server) :
  findById i s = None ->
  (players s <> [] ->
   handleDisconnect i s
   = Done tt s
       [Printf "Error during disconnect" [];
        Printf ("Client with id: %d disconnected" +:+ nl) [AInt i]]) /\
  (players s = [] -> stopTick s = [] -> stopListen s = [] -> stopServer s = [] ->
   serverListener s <> lnNil ->
   exists s' out,
     handleDisconnect i s = Done tt s' out /\
     stopListen s' = [true] /\ serverListener s' = lnClosed /\ stopServer s' = [true]).
Proof.
  intros Hf. rewrite (handleDisconnect_absent i s Hf). split.
  - intros Hne. rewrite (teardown_idle s Hne). reflexivity.
  - intros Hps Ht Hl Hs Hbound.
    destruct (teardown_last s Hps Hl Hs Ht Hbound) as (s'&out&Hrun&_&_&_&_&Hl'&Hc&Hs'&_).
    rewrite Hrun. cbn [prepend]. eexists _, _. split; [reflexivity|]. auto.
Qed.

Lemma stray_disconnect_witness :
  handleDisconnect 5 Fixture.lobby2
  = Done tt Fixture.lobby2
      [Printf "Error during disconnect" [];
       Printf ("Client with id: %d disconnected" +:+ nl) [AInt 5]] /\
  exists s' out,
    handleDisconnect 5 (bound Create) = Done tt s' out /\ stopServer s' = [true].
Proof.
  split.
  - apply (stray_disconnect 5 Fixture.lobby2 eq_refl). discriminate.
  - destruct (stray_disconnect 5 (bound Create) eq_refl) as [_ H].
    destruct H as (s'&out&Hrun&_&_&Hs); try reflexivity; [discriminate|].
    exists s', out. split; [exact Hrun | exact Hs].
Defined.

(** A player who connects and leaves again while another player stays: the
    list of players is what it was, the color the player had, the one at the
    front of the pool, is now at its back, the id counter has moved on by
    one, and the phase, the ticking flag and the channels are untouched. *)
Theorem connect_disconnect (c : Conn) (s : Server) (e : string) (rest : list string) :
  wf s -> ids s < max_int -> free_colors s = e :: rest -> players s <> [] ->
  exists s' out,
    (_ ← handleConnect c; handleDisconnect (ids s)) s = Done tt s' out /\
    players s' = players s /\
    free_colors s' = rest ++ [e] /\
    ids s' = ids s + 1 /\
    (forall i, findById i s' = findById i s) /\
    phase s' = phase s /\ ticking s' = ticking s /\
    stopTick s' = stopTick s /\ stopListen s' = stopListen s /\
    stopServer s' = stopServer s /\ serverListener s' = serverListener s.
Proof.
  intros Hwf Hids Hfree Hne. pose proof Hwf as (Hheap&_&_&Hpos&_).
  pose proof (wf_joined c e rest s Hwf Hfree Hids) as Hwf'.
  assert (Hps : players (joined c e rest s) = players s ++ length (heap s) :: [])
    by (unfold joined; step_m; reflexivity).
  assert (Hf : findById (ids s) (joined c e rest s) = Some (length (heap s))).
  { rewrite joined_findById, decide_True by (exact Hwf || reflexivity). reflexivity. }
  assert (Hnew : length (heap s) ∉ players s).
  { intros Hin. rewrite Forall_forall in Hheap. specialize (Hheap _ Hin). cbn beta in Hheap. lia. }
  unfold mbind, M_bind, bind. rewrite (handleConnect_run c s e rest Hfree).
  rewrite (handleDisconnect_run _ _ _ _ [] Hf Hps Hnew) by (apply not_elem_of_nil).
  rewrite app_nil_r, teardown_idle by (unfold left; step_m; exact Hne).
  cbn [prepend]. eexists _, _. split; [reflexivity|].
  split; [reflexivity|]. split; [unfold left; step_m; rewrite joined_new; reflexivity|].
  split; [unfold left, joined; step_m; apply wrap_int_succ; lia|].
  split; [|repeat split].
  intros i. pose proof (left_findById (length (heap s)) (players s) [] (joined c e rest s) i)
    as Hl. rewrite app_nil_r in Hl. rewrite Hl by (exact Hps || apply Hwf').
  rewrite joined_new. cbn [id]. rewrite joined_findById by exact Hwf.
  destruct (decide (i = ids s)) as [->|Hi]; [|reflexivity].
  symmetry. apply findById_in_absent, players_fresh, Hwf.
Qed.

Lemma connect_disconnect_witness :
  exists s' out,
    (_ ← handleConnect 9%nat; handleDisconnect 2) Fixture.lobby2 = Done tt s' out /\
    players s' = players Fixture.lobby2 /\
    free_colors s' = ["#0000ff"] /\
    ids s' = 3.
Proof.
  assert (Hwf : wf Fixture.lobby2) by (apply (bool_decide_unpack _); vm_compute; reflexivity).
  destruct (connect_disconnect 9%nat Fixture.lobby2 "#0000ff" [] Hwf)
    as (s'&out&Hrun&Hps&Hfree&Hids&_); [reflexivity | reflexivity | discriminate |].
  exists s', out. repeat split; assumption.
Defined.

(** ** The ticker *)

Lemma Start_turn_ticking_in_game (J : JSON) (e : Event) (s : Server) :
  wf s -> ~ panics (Start_turn J e s) ->
  ticking_in_game s -> ticking_in_game (state_of (Start_turn J e s)).
Proof.
  intros Hwf Hnp Hk. unfold ticking_in_game in *. destruct e as [c|mf|i].
  - destruct (Start_turn_conn_state J c s Hnp) as (e&rest&_&->&_). exact Hk.
  - cbn [Start_turn].
    destruct (handleMessage_effect J mf s) as (_&_&_&Hphase&_&Htick).
    intros Hon. destruct Htick as [Htick|(H1&_&_)].
    + rewrite Htick in Hon. specialize (Hk Hon).
      destruct Hphase as [->|[H0 _]]; [exact Hk | congruence].
    + destruct Hphase as [->|[H0 _]]; [exact H1 | congruence].
  - cbn [Start_turn].
    destruct (handleDisconnect_shape i s Hwf) as (s1&Hs1&_&(_&Hphase&Htick&_)&_).
    rewrite Hphase, Htick. destruct Hs1 as [->|(a&l1&l2&_&_&->)]; exact Hk.
Qed.

Lemma step_ticking_in_game (J : JSON) (w w' : World) (l : Label) (out : list Action) :
  wf (srv w) -> step J w l out w' ->
  ticking_in_game (srv w) -> ticking_in_game (srv w').
Proof.
  intros Hwf Hstep Hk. destruct Hstep as
    [w e s' out _ Hd Hrun | w e s' out _ Hd Hrun | w v rest _ Hs
    | w c s' out _ _ Hrun
    | w e s' out _ _ Hrun | w s' out _ Hrun | w s' out s'' out' _ Hrun Hend];
    cbn [srv].
  - pose proof (Start_turn_ticking_in_game J e (srv w) Hwf) as H. rewrite Hrun in H.
    apply H; [intros [] | exact Hk].
  - pose proof (Start_turn_ticking_in_game J e (srv w) Hwf) as H. rewrite Hrun in H.
    apply H; [intros [] | exact Hk].
  - exact Hk.
  - injection Hrun as <- _. exact Hk.
  - rewrite hostServer_turn_run in Hrun.
    destruct (stopListen (srv w)); [discriminate|]. injection Hrun as <- _. exact Hk.
  - rewrite ticker_turn_run in Hrun.
    destruct (stopTick (srv w)); [|discriminate]. injection Hrun as <- _. exact Hk.
  - rewrite ticker_turn_run in Hrun.
    destruct (stopTick (srv w)); [discriminate|]. injection Hrun as <- _.
    revert Hend. unfold ticker_end. step_m. intros [= <- _]. intros H. discriminate.
Qed.

Lemma reachable_ticking_in_game (J : JSON) (w : World) :
  reachable J w -> ticking_in_game (srv w).
Proof.
  intros (ls&out&Hsteps).
  assert (H : forall w0, steps J w0 ls out w -> wf (srv w0) ->
                         ticking_in_game (srv w0) -> ticking_in_game (srv w)).
  { clear Hsteps. intros w0 Hsteps.
    induction Hsteps as [|w1 l o w2 ls' outs w3 Hstep _ IH]; intros Hwf Hk; [exact Hk|].
    apply IH; [eapply step_wf; eassumption | eapply step_ticking_in_game; eassumption]. }
  apply (H boot Hsteps wf_boot). intros Hon. discriminate.
Qed.

(** One turn of the ticker's loop.  The tick line goes to every player, in
    the order of the list: no player has the id -1 that [sendAllClients] is
    told to leave out.  The loop is done exactly when a stop request waits in
    [stopTick]; the turn takes that request and changes nothing else.  At its
    end the ticker unsets the ticking flag. *)
Theorem tick_reaches_everyone (s : Server) :
  wf s ->
  exists done s' out,
    ticker_turn s = Done done s' out /\
    writes out = (fun q => (conn (heap s !!! q), tickMsg +:+ nl)) <$> players s /\
    (done = true <-> stopTick s <> []) /\
    s' = set_chan chStopTick (tail (stopTick s)) s /\
    ticker_end s' = Done tt (set_ticking false s') [Printf ("Ticking stopped" +:+ nl) []].
Proof.
  intros Hwf. rewrite ticker_turn_run.
  assert (Hw : writes (deliveries tickMsg (-1) s)
               = (fun q => (conn (heap s !!! q), tickMsg +:+ nl)) <$> players s).
  { rewrite writes_deliveries, (filter_all s Hwf). reflexivity. }
  destruct (stopTick s) as [|v rest] eqn:Hstop.
  - eexists false, s, _. split; [reflexivity|]. split; [exact Hw|].
    split; [split; [discriminate | intros H; congruence]|].
    split; [|reflexivity]. destruct s; cbn in *. rewrite Hstop. reflexivity.
  - eexists true, _, _. split; [reflexivity|]. split.
    + rewrite writes_app, Hw. cbn [writes omap written]. apply app_nil_r.
    + split; [split; [discriminate | reflexivity]|]. split; reflexivity.
Qed.

Lemma tick_reaches_everyone_witness :
  exists done s' out,
    ticker_turn Fixture.game1 = Done done s' out /\
    writes out = [(7%nat, tickMsg +:+ nl); (8%nat, tickMsg +:+ nl)].
Proof.
  assert (Hwf : wf Fixture.game1) by (apply (bool_decide_unpack _); vm_compute; reflexivity).
  destruct (tick_reaches_everyone Fixture.game1 Hwf) as (done&s'&out&Hrun&Hw&_).
  exists done, s', out. split; [exact Hrun | exact Hw].
Defined.

(** The ticker in the runs of the server.  The ticking flag is set, and a
    ticker runs, only in the game.  The ticker is asked to stop only when
    the last player has left: while a player is registered no stop request
    waits in [stopTick], so a turn of the ticker writes the tick line to
    every player and the ticker goes on. *)
Theorem ticker_runs_in_game (J : JSON) (w : World) :
  reachable J w ->
  (ticking (srv w) = true -> phase (srv w) = 1) /\
  ((0 < tickers w)%nat -> ticking (srv w) = true) /\
  (players (srv w) <> [] ->
   stopTick (srv w) = [] /\
   forall out w',
     step J w lTick out w' ->
     srv w' = srv w /\ tickers w' = tickers w /\
     writes out
     = (fun q => (conn (heap (srv w) !!! q), tickMsg +:+ nl)) <$> players (srv w)).
Proof.
  intros Hreach. pose proof (reachable_wf J w Hreach) as Hwf.
  destruct (reachable_hist J w Hreach) as (n&Ht&_&_&Hreq&_).
  split; [apply (reachable_ticking_in_game J w Hreach) | split].
  - intros Hpos. destruct (ticking (srv w)); [reflexivity | lia].
  - intros Hne.
    assert (Hempty : stopTick (srv w) = []).
    { destruct (stopTick (srv w)) as [|v l] eqn:E; [reflexivity|].
      destruct Hreq as (_&Hps&_); [discriminate | contradiction]. }
    split; [exact Hempty|]. intros out w' Hstep.
    inversion Hstep as [| | | | |w0 s' out0 _ Hrun|w0 s' out0 s'' out' _ Hrun _]; subst;
      rewrite ticker_turn_run, Hempty in Hrun; [|discriminate].
    injection Hrun as <- <-. cbn [srv tickers].
    split; [reflexivity | split; [reflexivity|]].
    rewrite writes_deliveries, (filter_all _ Hwf). reflexivity.
Qed.

Lemma ticker_runs_in_game_witness :
  phase (srv Fixture.w_game1) = 1 /\ stopTick (srv Fixture.w_game1) = [].
Proof.
  destruct (ticker_runs_in_game Fixture.json Fixture.w_game1 reachable_game1)
    as (Hphase&_&Hgo).
  split; [apply Hphase; reflexivity|].
  destruct Hgo as [Hempty _]; [discriminate | exact Hempty].
Defined.

(** ** Ids *)







(** ** The players' structs *)

Lemma kept_refl (c : client) : kept c c.
Proof. repeat split. auto. Qed.

Lemma kept_ready (a q : ptr) (h : list client) :
  kept (h !!! q) (alter (with_ready true) a h !!! q).
Proof.
  destruct (with_ready_lookup true a q h) as (H1&H2&H3).
  split; [exact H1 | split; [exact H3 | split; [exact H2|]]].
  rewrite list_lookup_total_alter. case_decide as H; [|auto].
  destruct H as [-> _]. reflexivity.
Qed.

Lemma handleMessage_kept (J : JSON) (mf : msgFormat) (s : Server) (q : ptr) :
  kept (heap s !!! q) (heap (state_of (handleMessage J mf s)) !!! q).
Proof.
  unfold_handler. crunch.
  all: first [apply kept_refl | apply kept_ready].
Qed.

Lemma teardown_heap (s : Server) : heap (state_of (teardown s)) = heap s.
Proof.
  unfold teardown, shutdown, chan_send, listener_close. crunch.
  all: reflexivity.
Qed.

Lemma Start_turn_kept (J : JSON) (e : Event) (s : Server) (q : ptr) :
  wf s -> ~ panics (Start_turn J e s) -> q ∈ players s ->
  kept (heap s !!! q) (heap (state_of (Start_turn J e s)) !!! q).
Proof.
  intros Hwf Hnp Hq. destruct e as [c|mf|i].
  - destruct (Start_turn_conn_state J c s Hnp) as (e&rest&_&->&_).
    rewrite joined_lookup by (apply player_in_heap; assumption). apply kept_refl.
  - apply handleMessage_kept.
  - cbn [Start_turn]. destruct (findById i s) as [a|] eqn:Hf.
    + pose proof (findById_Some _ _ _ Hf) as [Ha _].
      destruct (players_split s a) as (l1&l2&Hps&H1&H2);
        [apply players_NoDup, Hwf | exact Ha |].
      rewrite (handleDisconnect_run i s a l1 l2 Hf Hps H1 H2), state_of_prepend,
        teardown_heap.
      apply kept_refl.
    + rewrite (handleDisconnect_absent i s Hf), state_of_prepend, teardown_heap.
      apply kept_refl.
Qed.

(** No step of the system takes anything back from a registered player:
    the struct of a player keeps its id, its connection and its color, and a
    ready flag that is set stays set (nothing in the code unsets one). *)
Theorem player_struct_kept (J : JSON) (w w' : World) (l : Label) (out : list Action)
    (q : ptr) :
  reachable J w -> step J w l out w' -> q ∈ players (srv w) ->
  id (heap (srv w') !!! q) = id (heap (srv w) !!! q) /\
  conn (heap (srv w') !!! q) = conn (heap (srv w) !!! q) /\
  color (heap (srv w') !!! q) = color (heap (srv w) !!! q) /\
  (ready (heap (srv w) !!! q) = true -> ready (heap (srv w') !!! q) = true).
Proof.
  intros Hreach Hstep Hq. pose proof (reachable_wf J w Hreach) as Hwf.
  change (kept (heap (srv w) !!! q) (heap (srv w') !!! q)).
  destruct Hstep as
    [w e s' out _ Hd Hrun | w e s' out _ Hd Hrun | w v rest _ Hs
    | w c s' out _ _ Hrun
    | w e s' out _ _ Hrun | w s' out _ Hrun | w s' out s'' out' _ Hrun Hend];
    cbn [srv].
  - pose proof (Start_turn_kept J e (srv w) q Hwf) as H. rewrite Hrun in H.
    apply H; [intros [] | exact Hq].
  - pose proof (Start_turn_kept J e (srv w) q Hwf) as H. rewrite Hrun in H.
    apply H; [intros [] | exact Hq].
  - apply kept_refl.
  - injection Hrun as <- _. apply kept_refl.
  - rewrite hostServer_turn_run in Hrun.
    destruct (stopListen (srv w)); [discriminate|]. injection Hrun as <- _. apply kept_refl.
  - rewrite ticker_turn_run in Hrun.
    destruct (stopTick (srv w)); [|discriminate]. injection Hrun as <- _. apply kept_refl.
  - rewrite ticker_turn_run in Hrun.
    destruct (stopTick (srv w)); [discriminate|]. injection Hrun as <- _.
    revert Hend. unfold ticker_end. step_m. intros [= <- _]. apply kept_refl.
Qed.

Lemma step_lobby2r_game0 :
  exists out,
    step Fixture.json Fixture.w_lobby2r (lEvent (evMsg (Fixture.ready_from 1))) out
      Fixture.w_game0.
Proof.
  exists (actions_of (Start_turn Fixture.json (evMsg (Fixture.ready_from 1)) Fixture.lobby2r)).
  refine (step_done Fixture.json Fixture.w_lobby2r (evMsg (Fixture.ready_from 1))
            Fixture.game0 _ _ _ _);
    [reflexivity | by eexists | vm_compute; reflexivity].
Qed.

Lemma player_struct_kept_witness :
  ready (heap Fixture.lobby2r !!! 0%nat) = true /\
  ready (heap Fixture.game0 !!! 0%nat) = true.
Proof.
  split; [reflexivity|]. destruct step_lobby2r_game0 as [out Hstep].
  apply (player_struct_kept Fixture.json Fixture.w_lobby2r Fixture.w_game0 _ out 0%nat
           reachable_lobby2r Hstep).
  - apply (proj2 (list_elem_of_In _ _)). cbn. auto.
  - reflexivity.
Defined.

(** ** The end of the Broker loop *)

Lemma teardown_stop (s : Server) :
  stopServer (state_of (teardown s)) <> stopServer s ->
  serverListener (state_of (teardown s)) = lnClosed.
Proof.
  unfold teardown, shutdown, chan_send, listener_close. crunch.
  all: intros H; first [reflexivity | congruence].
Qed.

Lemma Start_turn_stop (J : JSON) (e : Event) (s : Server) :
  wf s -> ~ panics (Start_turn J e s) ->
  (stopServer s <> [] -> serverListener s = lnClosed) ->
  stopServer (state_of (Start_turn J e s)) <> [] ->
  serverListener (state_of (Start_turn J e s)) = lnClosed.
Proof.
  intros Hwf Hnp Hinv. pose proof Hwf as (_&_&_&_&_&_&_&_&_&Hbound).
  destruct e as [c|mf|i].
  - destruct (Start_turn_conn_state J c s Hnp) as (e&rest&_&->&_). exact Hinv.
  - cbn [Start_turn]. destruct (handleMessage_effect J mf s) as (_&_&Hs&_&Hl&_).
    rewrite Hs. intros Hne.
    destruct Hl as [[_ ->]|(_&_&_&[H|H])]; [exact (Hinv Hne) | exact H | contradiction].
  - cbn [Start_turn]. intros Hne.
    destruct (findById i s) as [a|] eqn:Hf.
    + pose proof (findById_Some _ _ _ Hf) as [Ha _].
      destruct (players_split s a) as (l1&l2&Hps&H1&H2);
        [apply players_NoDup, Hwf | exact Ha |].
      rewrite (handleDisconnect_run i s a l1 l2 Hf Hps H1 H2), state_of_prepend in *.
      destruct (decide (stopServer (state_of (teardown (left a (l1 ++ l2) s)))
                        = stopServer (left a (l1 ++ l2) s))) as [E|E];
        [|exact (teardown_stop _ E)].
      rewrite E in Hne.
      destruct (teardown_run_effect (left a (l1 ++ l2) s)) as (_&_&_&_&_&Hl&_).
      destruct Hl as [[_ ->]|(_&_&[H|H])]; [exact (Hinv Hne) | exact H | contradiction].
    + rewrite (handleDisconnect_absent i s Hf), state_of_prepend in *.
      destruct (decide (stopServer (state_of (teardown s)) = stopServer s)) as [E|E];
        [|exact (teardown_stop _ E)].
      rewrite E in Hne.
      destruct (teardown_run_effect s) as (_&_&_&_&_&Hl&_).
      destruct Hl as [[_ ->]|(_&_&[H|H])]; [exact (Hinv Hne) | exact H | contradiction].
Qed.

Lemma step_stop_inv (J : JSON) (w w' : World) (l : Label) (out : list Action) :
  wf (srv w) -> step J w l out w' -> stop_inv w -> stop_inv w'.
Proof.
  intros Hwf Hstep Hinv. unfold stop_inv in *. destruct Hstep as
    [w e s' out Hb Hd Hrun | w e s' out Hb Hd Hrun | w v rest _ Hs
    | w c s' out _ _ Hrun
    | w e s' out _ _ Hrun | w s' out _ Hrun | w s' out s'' out' _ Hrun Hend];
    cbn [srv broker].
  - pose proof (Start_turn_stop J e (srv w) Hwf) as H. rewrite Hrun in H.
    intros [Hne|Hx]; [|discriminate]. apply H; [intros [] | auto | exact Hne].
  - pose proof (Start_turn_stop J e (srv w) Hwf) as H. rewrite Hrun in H.
    intros [Hne|Hx]; [|discriminate]. apply H; [intros [] | auto | exact Hne].
  - intros _. apply Hinv. left. rewrite Hs. discriminate.
  - injection Hrun as <- _. exact Hinv.
  - rewrite hostServer_turn_run in Hrun.
    destruct (stopListen (srv w)); [discriminate|]. injection Hrun as <- _. exact Hinv.
  - rewrite ticker_turn_run in Hrun.
    destruct (stopTick (srv w)); [|discriminate]. injection Hrun as <- _. exact Hinv.
  - rewrite ticker_turn_run in Hrun.
    destruct (stopTick (srv w)); [discriminate|]. injection Hrun as <- _.
    revert Hend. unfold ticker_end. step_m. intros [= <- _]. exact Hinv.
Qed.

Lemma reachable_stop_inv (J : JSON) (w : World) : reachable J w -> stop_inv w.
Proof.
  intros (ls&out&Hsteps).
  assert (H : forall w0, steps J w0 ls out w -> wf (srv w0) -> stop_inv w0 -> stop_inv w).
  { clear Hsteps. intros w0 Hsteps.
    induction Hsteps as [|w1 l o w2 ls' outs w3 Hstep _ IH]; intros Hwf Hk; [exact Hk|].
    apply IH; [eapply step_wf; eassumption | eapply step_stop_inv; eassumption]. }
  apply (H boot Hsteps wf_boot). intros [Hne|Hb]; [contradiction | discriminate].
Qed.






(** ** [strings.TrimSpace] and the relay *)

Lemma TrimSpace_trimmed (s : string) :
  TrimSpace s = string_of_bytes (trimmed (bytes_of_string s)).
Proof. reflexivity. Qed.

Lemma trimFront_untrimmable (n : nat) (bs : list N) :
  (length bs <= n)%nat -> untrimmable_front (trimFront n bs).
Proof.
  revert bs. induction n as [|n IH]; intros bs Hlen.
  - destruct bs; [|cbn in Hlen; lia]. repeat split.
  - cbn [trimFront]. destruct bs as [|b bs]; [repeat split|]. cbn [length] in Hlen.
    destruct (isSpaceRune (take 1 (b :: bs))) eqn:E1;
      [apply IH; rewrite length_drop; cbn [length]; lia|].
    destruct (isSpaceRune (take 2 (b :: bs))) eqn:E2;
      [apply IH; rewrite length_drop; cbn [length]; lia|].
    destruct (isSpaceRune (take 3 (b :: bs))) eqn:E3;
      [apply IH; rewrite length_drop; cbn [length]; lia|].
    repeat split; assumption.
Qed.

Lemma trimBack_untrimmable (n : nat) (rbs : list N) :
  (length rbs <= n)%nat -> untrimmable_back (trimBack n rbs).
Proof.
  revert rbs. induction n as [|n IH]; intros rbs Hlen.
  - destruct rbs; [|cbn in Hlen; lia]. repeat split.
  - cbn [trimBack]. destruct rbs as [|b rbs]; [repeat split|]. cbn [length] in Hlen.
    destruct (isSpaceRune (reverse (take 1 (b :: rbs)))) eqn:E1;
      [apply IH; rewrite length_drop; cbn [length]; lia|].
    destruct (isSpaceRune (reverse (take 2 (b :: rbs)))) eqn:E2;
      [apply IH; rewrite length_drop; cbn [length]; lia|].
    destruct (isSpaceRune (reverse (take 3 (b :: rbs)))) eqn:E3;
      [apply IH; rewrite length_drop; cbn [length]; lia|].
    repeat split; assumption.
Qed.

Lemma trimFront_stable (n : nat) (bs : list N) :
  untrimmable_front bs -> trimFront n bs = bs.
Proof. intros (H1&H2&H3). destruct n; [reflexivity|]. cbn [trimFront]. rewrite H1, H2, H3. reflexivity. Qed.

Lemma trimBack_stable (n : nat) (rbs : list N) :
  untrimmable_back rbs -> trimBack n rbs = rbs.
Proof. intros (H1&H2&H3). destruct n; [reflexivity|]. cbn [trimBack]. rewrite H1, H2, H3. reflexivity. Qed.

Lemma trimFront_drop (n : nat) (bs : list N) : exists k, trimFront n bs = drop k bs.
Proof.
  revert bs. induction n as [|n IH]; intros bs; [exists O; reflexivity|]. cbn [trimFront].
  destruct (isSpaceRune (take 1 bs));
    [destruct (IH (drop 1 bs)) as [k ->]; rewrite drop_drop; eauto|].
  destruct (isSpaceRune (take 2 bs));
    [destruct (IH (drop 2 bs)) as [k ->]; rewrite drop_drop; eauto|].
  destruct (isSpaceRune (take 3 bs));
    [destruct (IH (drop 3 bs)) as [k ->]; rewrite drop_drop; eauto|].
  exists O. reflexivity.
Qed.

Lemma trimBack_drop (n : nat) (rbs : list N) : exists k, trimBack n rbs = drop k rbs.
Proof.
  revert rbs. induction n as [|n IH]; intros rbs; [exists O; reflexivity|]. cbn [trimBack].
  destruct (isSpaceRune (reverse (take 1 rbs)));
    [destruct (IH (drop 1 rbs)) as [k ->]; rewrite drop_drop; eauto|].
  destruct (isSpaceRune (reverse (take 2 rbs)));
    [destruct (IH (drop 2 rbs)) as [k ->]; rewrite drop_drop; eauto|].
  destruct (isSpaceRune (reverse (take 3 rbs)));
    [destruct (IH (drop 3 rbs)) as [k ->]; rewrite drop_drop; eauto|].
  exists O. reflexivity.
Qed.

(** A prefix of a sequence with no white space at its front has none. *)
Lemma untrimmable_front_take (m : nat) (bs : list N) :
  untrimmable_front bs -> untrimmable_front (take m bs).
Proof.
  intros (H1&H2&H3). unfold untrimmable_front. rewrite !take_take.
  destruct m as [|[|[|m]]]; cbn [Nat.min]; rewrite ?take_0; repeat split; assumption.
Qed.

(** What [TrimSpace] keeps has no white space at either end, and is made of
    bytes of the string. *)
Lemma trimmed_untrimmable (bs : list N) :
  untrimmable_front (trimmed bs) /\ untrimmable_back (reverse (trimmed bs)).
Proof.
  unfold trimmed. cbn zeta. set (front := trimFront (length bs) bs).
  rewrite reverse_involutive. split.
  - destruct (trimBack_drop (length front) (reverse front)) as [k ->].
    rewrite drop_reverse, reverse_involutive. apply untrimmable_front_take.
    apply trimFront_untrimmable. lia.
  - apply trimBack_untrimmable. rewrite length_reverse. lia.
Qed.

Lemma trimmed_Forall (P : N -> Prop) (bs : list N) : Forall P bs -> Forall P (trimmed bs).
Proof.
  intros H. unfold trimmed. cbn zeta.
  destruct (trimFront_drop (length bs) bs) as [k ->].
  destruct (trimBack_drop (length (drop k bs)) (reverse (drop k bs))) as [k' ->].
  apply Forall_reverse, Forall_drop, Forall_reverse, Forall_drop, H.
Qed.

Lemma trimmed_stable (bs : list N) :
  untrimmable_front bs -> untrimmable_back (reverse bs) -> trimmed bs = bs.
Proof.
  intros Hf Hb. unfold trimmed. cbn zeta. rewrite (trimFront_stable _ _ Hf).
  rewrite (trimBack_stable _ _ Hb). apply reverse_involutive.
Qed.

(** Strings and their bytes. *)
Lemma bytes_of_string_bounded (s : string) : Forall (fun b => (b < 256)%N) (bytes_of_string s).
Proof.
  unfold bytes_of_string. apply Forall_fmap, Forall_forall. intros a _. apply N_ascii_bounded.
Qed.

Lemma bytes_of_string_of_bytes (bs : list N) :
  Forall (fun b => (b < 256)%N) bs -> bytes_of_string (string_of_bytes bs) = bs.
Proof.
  intros H. unfold bytes_of_string, string_of_bytes.
  rewrite list_ascii_of_string_of_list_ascii, <- list_fmap_compose.
  induction H as [|b bs Hb _ IH]; [reflexivity|]. cbn [fmap list_fmap compose].
  rewrite N_ascii_embedding by exact Hb. f_equal. exact IH.
Qed.

Lemma bytes_of_string_app (s t : string) :
  bytes_of_string (s +:+ t) = bytes_of_string s ++ bytes_of_string t.
Proof.
  unfold bytes_of_string. rewrite <- fmap_app. f_equal.
  induction s as [|a s IH]; [reflexivity|].
  change (String a s +:+ t) with (String a (s +:+ t)). cbn [list_ascii_of_string app].
  f_equal. exact IH.
Qed.

Ltac split_pos p n :=
  try reflexivity;
  lazymatch n with
  | O => idtac
  | S ?n' => destruct p as [p|p|]; [split_pos p n' | split_pos p n' | try reflexivity]
  end.

(** No white-space rune has an encoding of two or three bytes that ends in a
    line feed. *)
Lemma isSpaceRune_before_nl (bs : list N) : bs <> [] -> isSpaceRune (bs ++ [10%N]) = false.
Proof.
  intros Hne. destruct bs as [|a [|b [|c bs]]]; [contradiction | | |]; cbn [app].
  - destruct a as [|p]; [reflexivity|]. split_pos p 9%nat.
  - destruct a as [|p]; [reflexivity|]. split_pos p 9%nat.
    all: destruct b as [|q]; [reflexivity|]; split_pos q 9%nat.
  - assert (E : exists d l, bs ++ [10%N] = d :: l)
      by (destruct bs; cbn [app]; eauto).
    destruct E as (d&l&->).
    destruct a as [|p]; [reflexivity|]. split_pos p 9%nat.
    all: destruct b as [|q]; [reflexivity|]; split_pos q 9%nat.
    all: destruct c as [|r]; [reflexivity|]; split_pos r 9%nat.
Qed.

Lemma untrimmable_front_nl (bs : list N) :
  bs <> [] -> untrimmable_front bs -> untrimmable_front (bs ++ [10%N]).
Proof.
  intros Hne (H1&H2&H3). unfold untrimmable_front.
  destruct bs as [|a [|b [|c bs]]]; [contradiction | | |]; cbn [app take] in *.
  - repeat split; [exact H1 | apply (isSpaceRune_before_nl [a]); discriminate..].
  - repeat split; [exact H1 | exact H2 | apply (isSpaceRune_before_nl [a; b]); discriminate].
  - repeat split; assumption.
Qed.

Lemma trimmed_nl (bs : list N) :
  untrimmable_front bs -> untrimmable_back (reverse bs) -> trimmed (bs ++ [10%N]) = bs.
Proof.
  intros Hf Hb. destruct (decide (bs = [])) as [->|Hne]; [reflexivity|].
  unfold trimmed. cbn zeta.
  rewrite (trimFront_stable _ _ (untrimmable_front_nl bs Hne Hf)).
  rewrite reverse_snoc, length_app, Nat.add_1_r. cbn [trimBack take drop length].
  change (isSpaceRune (reverse [10%N])) with true. cbn iota.
  rewrite (trimBack_stable _ _ Hb). apply reverse_involutive.
Qed.

(** The relay is stable.  What [handleMessage] relays is the sender's line
    trimmed by [strings.TrimSpace], with a line feed.  Trimming is
    idempotent, and the relayed line trims to the same text: a receiver that
    trims what it reads (as the test's [assertReceive] does) gets the
    trimmed text of the sender, and the server, given a relayed line as
    input, does exactly what it did with the original.  A line that has no
    white space at its ends, sent with one line feed (as the test's
    [sendMessage] does), trims to itself. *)
Theorem relay_stable (J : JSON) (s : Server) (mf : msgFormat) :
  TrimSpace (TrimSpace (msg mf)) = TrimSpace (msg mf) /\
  TrimSpace (TrimSpace (msg mf) +:+ nl) = TrimSpace (msg mf) /\
  handleMessage J {| senderId := senderId mf; msg := TrimSpace (msg mf) +:+ nl |} s
  = handleMessage J mf s /\
  (TrimSpace (msg mf) = msg mf -> TrimSpace (msg mf +:+ nl) = msg mf).
Proof.
  pose proof (trimmed_untrimmable (bytes_of_string (msg mf))) as [Hf Hb].
  pose proof (trimmed_Forall _ _ (bytes_of_string_bounded (msg mf))) as Hbytes.
  assert (H1 : TrimSpace (TrimSpace (msg mf)) = TrimSpace (msg mf)).
  { rewrite (TrimSpace_trimmed (TrimSpace (msg mf))), (TrimSpace_trimmed (msg mf)).
    rewrite (bytes_of_string_of_bytes _ Hbytes), (trimmed_stable _ Hf Hb). reflexivity. }
  assert (H2 : TrimSpace (TrimSpace (msg mf) +:+ nl) = TrimSpace (msg mf)).
  { rewrite (TrimSpace_trimmed (TrimSpace (msg mf) +:+ nl)), bytes_of_string_app.
    rewrite (TrimSpace_trimmed (msg mf)), (bytes_of_string_of_bytes _ Hbytes).
    change (bytes_of_string nl) with [10%N]. rewrite (trimmed_nl _ Hf Hb). reflexivity. }
  split; [exact H1 | split; [exact H2 | split]].
  - unfold handleMessage. cbn [msg senderId]. rewrite H2. reflexivity.
  - intros E. rewrite <- E at 1. rewrite H2. exact E.
Qed.

Lemma relay_stable_witness :
  TrimSpace (Fixture.chatLine "#ff0000" +:+ nl) = Fixture.chatLine "#ff0000".
Proof.
  destruct (relay_stable Fixture.json Fixture.lobby2
              {| senderId := 0; msg := Fixture.chatLine "#ff0000" |}) as (_&_&_&H).
  apply H. vm_compute. reflexivity.
Defined.

(** ** What a message is read for *)

Lemma store_ready_twice (a : ptr) (s : Server) :
  store a (with_ready true) (store a (with_ready true) s) = store a (with_ready true) s.
Proof.
  assert (E : alter (with_ready true) a (alter (with_ready true) a (heap s))
              = alter (with_ready true) a (heap s)).
  { rewrite list_alter_alter_eq. apply list_alter_ext; [|reflexivity]. intros x _. reflexivity. }
  unfold store, set_heap. cbn. rewrite E. reflexivity.
Qed.

(** Ready is idempotent.  A ready message of a subscribed player that does
    not complete the quorum sets the player's flag and writes nothing; the
    same message handled again returns with the same state and writes
    nothing. *)
Theorem ready_idempotent (J : JSON) (s : Server) (mf : msgFormat) (a : ptr) :
  phase s = 0 ->
  findById (senderId mf) s = Some a ->
  cd_Type (Unmarshal_ChatData J (TrimSpace (msg mf))).1 = "ready" ->
  isAllReady (store a (with_ready true) s) = false ->
  exists out1 out2,
    handleMessage J mf s = Done tt (store a (with_ready true) s) out1 /\
    handleMessage J mf (store a (with_ready true) s)
    = Done tt (store a (with_ready true) s) out2 /\
    writes out1 = [] /\ writes out2 = [].
Proof.
  intros Hphase Hf Htype Hq.
  destruct (json_marshal_ok J {| sg_Type := "start_game"; sg_Colors := held s |}) as [js Hjs].
  destruct (handleMessage_ready J s mf a js Hphase Hf Htype Hjs) as (log1&Hw1&_&Hrun1).
  rewrite Hq in Hrun1.
  assert (Hf1 : findById (senderId mf) (store a (with_ready true) s) = Some a).
  { rewrite (findById_same_roster s _ _ (same_roster_ready true a s)). exact Hf. }
  assert (Hjs1 : json_marshalStartGame J
                   {| sg_Type := "start_game";
                      sg_Colors := held (store a (with_ready true) s) |} = inl js).
  { rewrite held_store_ready. exact Hjs. }
  destruct (handleMessage_ready J (store a (with_ready true) s) mf a js Hphase Hf1 Htype Hjs1)
    as (log2&Hw2&_&Hrun2).
  rewrite store_ready_twice, Hq in Hrun2.
  exists log1, log2. repeat split; assumption.
Qed.

Lemma ready_idempotent_witness :
  exists out1 out2,
    handleMessage Fixture.json (Fixture.ready_from 0) Fixture.lobby2
    = Done tt Fixture.lobby2r out1 /\
    handleMessage Fixture.json (Fixture.ready_from 0) Fixture.lobby2r
    = Done tt Fixture.lobby2r out2.
Proof.
  destruct (ready_idempotent Fixture.json Fixture.lobby2 (Fixture.ready_from 0) 0%nat)
    as (out1&out2&H1&H2&_); [reflexivity..|].
  exists out1, out2. split; [exact H1 | exact H2].
Defined.

(** The server reads a message for its type tag only.  Two decoders that
    agree on the type tag of a line (in the lobby also on the error, which is
    logged; in the game on whether there is one) make [handleMessage] do the
    same, whatever they decode as color, message, coordinates or direction:
    none of these fields is read, so a chat line is relayed whatever color
    it claims, and a player event whatever move it reports. *)
Theorem payload_ignored (J J' : JSON) (s : Server) (mf : msgFormat) :
  (phase s = 0 ->
   cd_Type (Unmarshal_ChatData J (TrimSpace (msg mf))).1
   = cd_Type (Unmarshal_ChatData J' (TrimSpace (msg mf))).1 ->
   (Unmarshal_ChatData J (TrimSpace (msg mf))).2
   = (Unmarshal_ChatData J' (TrimSpace (msg mf))).2 ->
   json_marshalStartGame J = json_marshalStartGame J' ->
   handleMessage J mf s = handleMessage J' mf s) /\
  (phase s = 1 ->
   gd_Type (Unmarshal_GameData J (TrimSpace (msg mf))).1
   = gd_Type (Unmarshal_GameData J' (TrimSpace (msg mf))).1 ->
   (is_Some (Unmarshal_GameData J (TrimSpace (msg mf))).2
    <-> is_Some (Unmarshal_GameData J' (TrimSpace (msg mf))).2) ->
   handleMessage J mf s = handleMessage J' mf s).
Proof.
  split.
  - intros Hphase Htype Herr Hmarshal. unfold handleMessage. step_m.
    rewrite Hphase. cbn [Z.eqb]. unfold handleMessage_lobby.
    destruct (Unmarshal_ChatData J (TrimSpace (msg mf))) as [d e].
    destruct (Unmarshal_ChatData J' (TrimSpace (msg mf))) as [d' e'].
    cbn [fst snd] in *. subst e'. rewrite <- Htype, Hmarshal. reflexivity.
  - intros Hphase Htype Herr. unfold handleMessage. step_m.
    rewrite Hphase. cbn [Z.eqb Pos.eqb]. unfold handleMessage_game.
    destruct (Unmarshal_GameData J (TrimSpace (msg mf))) as [d e].
    destruct (Unmarshal_GameData J' (TrimSpace (msg mf))) as [d' e'].
    cbn [fst snd] in *. rewrite <- Htype.
    assert (He : (if e is Some _
                  then printf "Error processing chat message: '%s'" [AStr (TrimSpace (msg mf))]
                  else skip)
                 = (if e' is Some _
                    then printf "Error processing chat message: '%s'"
                           [AStr (TrimSpace (msg mf))]
                    else skip)).
    { destruct e, e'; try reflexivity.
      - destruct Herr as [H _]. destruct H; [eauto | discriminate].
      - destruct Herr as [_ H]. destruct H; [eauto | discriminate]. }
    rewrite He. reflexivity.
Qed.

Lemma payload_ignored_witness :
  handleMessage Fixture.json (Fixture.event_from 1) Fixture.game1'
  = handleMessage Crowd.blind (Fixture.event_from 1) Fixture.game1' /\
  gd_Event (Unmarshal_GameData Fixture.json (TrimSpace (msg (Fixture.event_from 1)))).1
  = {| CoordX := 3; CoordY := 4; Direction := "up" |} /\
  gd_Event (Unmarshal_GameData Crowd.blind (TrimSpace (msg (Fixture.event_from 1)))).1
  = {| CoordX := 0; CoordY := 0; Direction := EmptyString |}.
Proof.
  split; [|split; reflexivity].
  destruct (payload_ignored Fixture.json Crowd.blind Fixture.game1' (Fixture.event_from 1))
    as [_ H].
  apply H; [reflexivity | reflexivity |]. split; intros [x Hx]; discriminate.
Defined.

(** ** A departure is silent *)

Lemma teardown_writes (s : Server) : writes (actions_of (teardown s)) = [].
Proof.
  unfold teardown, shutdown, chan_send, listener_close. crunch.
  all: reflexivity.
Qed.

(** [handleDisconnect] writes to no connection, launches nothing, leaves the
    phase and the players' structs as they are: the other players are not
    told that one has left, and the quorum is not looked at, so the game does
    not start when the player who leaves was the only one not ready; it
    starts with the next ready message. *)
Theorem departure_is_silent (i : Z) (s : Server) :
  wf s ->
  writes (actions_of (handleDisconnect i s)) = [] /\
  launches (actions_of (handleDisconnect i s)) = O /\
  phase (state_of (handleDisconnect i s)) = phase s /\
  heap (state_of (handleDisconnect i s)) = heap s.
Proof.
  intros Hwf. destruct (findById i s) as [a|] eqn:Hf.
  - pose proof (findById_Some _ _ _ Hf) as [Ha _].
    destruct (players_split s a) as (l1&l2&Hps&H1&H2);
      [apply players_NoDup, Hwf | exact Ha |].
    rewrite (handleDisconnect_run i s a l1 l2 Hf Hps H1 H2), state_of_prepend,
      actions_of_prepend, writes_app, launches_app, teardown_writes, teardown_launches,
      teardown_heap.
    destruct (teardown_run_effect (left a (l1 ++ l2) s)) as (_&->&_). repeat split.
  - rewrite (handleDisconnect_absent i s Hf), state_of_prepend,
      actions_of_prepend, writes_app, launches_app, teardown_writes, teardown_launches,
      teardown_heap.
    destruct (teardown_run_effect s) as (_&->&_). repeat split.
Qed.

Lemma departure_is_silent_witness :
  isAllReady Crowd.lobby3r = false /\
  isAllReady (state_of (handleDisconnect 2 Crowd.lobby3r)) = true /\
  phase (state_of (handleDisconnect 2 Crowd.lobby3r)) = 0 /\
  writes (actions_of (handleDisconnect 2 Crowd.lobby3r)) = [].
Proof.
  assert (Hwf : wf Crowd.lobby3r) by (apply (bool_decide_unpack _); vm_compute; reflexivity).
  destruct (departure_is_silent 2 Crowd.lobby3r Hwf) as (Hw&_&Hphase&_).
  split; [reflexivity | split; [vm_compute; reflexivity | split; [exact Hphase | exact Hw]]].
Defined.

(** ** The stop requests for the listener *)

Lemma handleMessage_sends (J : JSON) (mf : msgFormat) (s : Server) :
  (stop_requests (actions_of (handleMessage J mf s)) + length (stopListen s))%nat
  = length (stopListen (state_of (handleMessage J mf s))).
Proof.
  unfold_handler. crunch.
  all: rewrite ?app_nil_r; cbn [stop_requests];
       rewrite ?stop_requests_app, ?stop_requests_deliveries; cbn [stop_requests];
       rewrite ?length_app; cbn [length]; lia.
Qed.

Lemma teardown_sends (s : Server) :
  (stop_requests (actions_of (teardown s)) + length (stopListen s))%nat
  = length (stopListen (state_of (teardown s))).
Proof.
  unfold teardown, shutdown, chan_send, listener_close. crunch.
  all: rewrite ?app_nil_r; cbn [stop_requests]; rewrite ?length_app; cbn [length]; lia.
Qed.

Lemma Start_turn_sends (J : JSON) (e : Event) (s : Server) :
  wf s -> ~ panics (Start_turn J e s) ->
  (stop_requests (actions_of (Start_turn J e s)) + length (stopListen s))%nat
  = length (stopListen (state_of (Start_turn J e s))).
Proof.
  intros Hwf Hnp. destruct e as [c|mf|i].
  - destruct (Start_turn_conn_state J c s Hnp) as (e&rest&Hfree&_).
    rewrite Start_turn_conn, (handleConnect_run c s e rest Hfree).
    cbn [actions_of state_of app stop_requests]. rewrite stop_requests_deliveries.
    reflexivity.
  - apply handleMessage_sends.
  - cbn [Start_turn]. destruct (findById i s) as [a|] eqn:Hf.
    + pose proof (findById_Some _ _ _ Hf) as [Ha _].
      destruct (players_split s a) as (l1&l2&Hps&H1&H2);
        [apply players_NoDup, Hwf | exact Ha |].
      rewrite (handleDisconnect_run i s a l1 l2 Hf Hps H1 H2), state_of_prepend,
        actions_of_prepend, stop_requests_app, <- teardown_sends.
      reflexivity.
    + rewrite (handleDisconnect_absent i s Hf), state_of_prepend,
        actions_of_prepend, stop_requests_app, <- teardown_sends.
      reflexivity.
Qed.

Lemma step_sends (J : JSON) (w w' : World) (l : Label) (out : list Action) :
  wf (srv w) -> step J w l out w' ->
  (stop_requests out + length (stopListen (srv w)) + taken (acceptLoop w))%nat
  = (length (stopListen (srv w')) + taken (acceptLoop w'))%nat.
Proof.
  intros Hwf Hstep. destruct Hstep as
    [w e s' out _ Hd Hrun | w e s' out _ Hd Hrun | w v rest _ Hs
    | w c s' out Hal _ Hrun
    | w e s' out Hal _ Hrun | w s' out _ Hrun | w s' out s'' out' _ Hrun Hend];
    cbn [srv acceptLoop].
  - pose proof (Start_turn_sends J e (srv w) Hwf) as H. rewrite Hrun in H.
    cbn [actions_of state_of] in H. rewrite H by (intros []).
    destruct e as [c| |]; [destruct Hd as [-> _]|..]; reflexivity.
  - pose proof (Start_turn_sends J e (srv w) Hwf) as H. rewrite Hrun in H.
    cbn [actions_of state_of] in H. rewrite H by (intros []).
    destruct e as [c| |]; [destruct Hd as [-> _]|..]; reflexivity.
  - reflexivity.
  - injection Hrun as <- <-. rewrite Hal. reflexivity.
  - rewrite hostServer_turn_run in Hrun.
    destruct (stopListen (srv w)) as [|v rest]; [discriminate|]. injection Hrun as <- <-.
    rewrite Hal. cbn. lia.
  - rewrite ticker_turn_run in Hrun.
    destruct (stopTick (srv w)); [|discriminate]. injection Hrun as <- <-.
    rewrite stop_requests_deliveries. reflexivity.
  - rewrite ticker_turn_run in Hrun.
    destruct (stopTick (srv w)); [discriminate|]. injection Hrun as <- <-.
    revert Hend. unfold ticker_end. step_m. intros [= <- <-].
    rewrite !stop_requests_app, stop_requests_deliveries. reflexivity.
Qed.

Lemma steps_sends (J : JSON) (w w' : World) (ls : list Label) (out : list Action) :
  steps J w ls out w' -> wf (srv w) ->
  (stop_requests out + length (stopListen (srv w)) + taken (acceptLoop w))%nat
  = (length (stopListen (srv w')) + taken (acceptLoop w'))%nat.
Proof.
  induction 1 as [|w l out w' ls outs w'' Hstep _ IH]; intros Hwf; [reflexivity|].
  pose proof (IH (step_wf J w w' l out Hstep Hwf)) as H1.
  pose proof (step_sends J w w' l out Hwf Hstep) as H2.
  rewrite stop_requests_app. lia.
Qed.

(** The stop request for the listener is sent at most twice in the life of
    the server.  In a run from the start, the requests sent are those that
    wait in [stopListen], at most one, and the one the accept loop took when
    it stopped.  A message handled in the game blocks the Broker when a
    request waits, and sends one when none does: so at most two messages are
    ever handled in the game, and the next one blocks the Broker in its
    send. *)
Theorem stop_requests_bounded (J : JSON) (ls : list Label) (out : list Action) (w : World) :
  steps J boot ls out w ->
  stop_requests out = (length (stopListen (srv w)) + taken (acceptLoop w))%nat /\
  (stop_requests out <= 2)%nat /\
  (phase (srv w) = 1 ->
   forall mf,
     (stopListen (srv w) = [] ->
      stop_requests (actions_of (handleMessage J mf (srv w))) = 1%nat) /\
     (stopListen (srv w) <> [] ->
      exists log, handleMessage J mf (srv w) = Blocked (srv w) log /\ only_logs log)).
Proof.
  intros Hsteps. pose proof (steps_wf J boot w ls out Hsteps wf_boot) as Hwf.
  pose proof (steps_sends J boot w ls out Hsteps wf_boot) as Hsends.
  cbn [boot srv acceptLoop taken bound Create set_serverListener stopListen length] in Hsends.
  pose proof Hwf as (_&_&_&_&_&_&_&Hcap&_&Hbound). unfold chanCap in Hcap.
  split; [lia | split].
  - destruct (acceptLoop w); cbn [taken] in *; lia.
  - intros Hphase mf. split.
    + intros Hroom. apply handleMessage_game_listener; assumption.
    + intros Hfull. unfold handleMessage, handleMessage_game. step_m.
      rewrite Hphase. cbn [Z.eqb Pos.eqb].
      destruct (findById (senderId mf) (srv w)); step_m;
        rewrite (chan_send_full chStopListen true (srv w) Hfull); step_m;
        eexists; (split; [reflexivity|]); repeat constructor.
Qed.

Lemma stop_requests_bounded_witness :
  exists ls out,
    steps Fixture.json boot ls out Fixture.w_game2 /\ stop_requests out = 2%nat /\
    exists log,
      handleMessage Fixture.json (Fixture.event_from 0) Fixture.game2
      = Blocked Fixture.game2 log.
Proof.
  destruct reachable_game2 as (ls&out&Hsteps).
  destruct (stop_requests_bounded Fixture.json ls out Fixture.w_game2 Hsteps)
    as (Hcount&_&Hgame).
  exists ls, out. split; [exact Hsteps | split; [exact Hcount|]].
  destruct (Hgame eq_refl (Fixture.event_from 0)) as [_ Hfull].
  destruct Hfull as (log&Hrun&_); [discriminate|]. exists log. exact Hrun.
Defined.

(** ** The test's check of the start-game notice *)

Lemma mark_length (colors : list string) (r : string) (ok : list bool) :
  length ok = length colors -> length (mark colors r ok) = length colors.
Proof. intros H. unfold mark. rewrite length_zip_with. lia. Qed.

Lemma mark_lookup (colors : list string) (r : string) (ok : list bool) (j : nat) (c : string) :
  length ok = length colors -> colors !! j = Some c ->
  mark colors r ok !! j = Some true <-> ok !! j = Some true \/ r = c.
Proof.
  intros Hlen Hc. unfold mark. rewrite lookup_zip_with, Hc. cbn [mbind option_bind].
  destruct (ok !! j) as [b|] eqn:Hb.
  - cbn [mbind option_bind]. destruct (String.eqb_spec r c) as [->|Hne].
    + split; [auto | reflexivity].
    + split; [auto | intros [H|H]; [exact H | contradiction]].
  - apply lookup_ge_None in Hb. apply lookup_lt_Some in Hc. lia.
Qed.

Lemma colorsOk_from (colors received : list string) (ok : list bool) :
  length ok = length colors ->
  length (foldl (fun ok r => mark colors r ok) ok received) = length colors /\
  forall j c,
    colors !! j = Some c ->
    foldl (fun ok r => mark colors r ok) ok received !! j = Some true
    <-> ok !! j = Some true \/ c ∈ received.
Proof.
  revert ok. induction received as [|r rs IH]; intros ok Hlen; cbn [foldl].
  - split; [exact Hlen|]. intros j c _. split; [auto | intros [H|H]; [exact H|]].
    by apply elem_of_nil in H.
  - destruct (IH (mark colors r ok) (mark_length colors r ok Hlen)) as [Hl Hj].
    split; [exact Hl|]. intros j c Hc.
    rewrite (Hj j c Hc), (mark_lookup colors r ok j c Hlen Hc), elem_of_cons.
    split; [intros [[H| ->]|H]; auto | intros [H|[->|H]]; auto].
Qed.

(** What the test checks of a start-game notice: that its type is
    [start_game] and that every expected color is among the colors it
    lists.  It does not check the order of the colors, nor that the notice
    lists no other colors.  The notice [handleMessage] encodes, whose colors
    are the colors the players hold, passes the check for these colors. *)
Theorem startGame_check (startData : StartGame) (colors : list string) :
  (assertStartGameReceived startData colors = true <->
   sg_Type startData = "start_game" /\ colors ⊆ sg_Colors startData) /\
  forall s,
    assertStartGameReceived {| sg_Type := "start_game"; sg_Colors := held s |} (held s)
    = true.
Proof.
  assert (Hcheck : forall sd cs,
    assertStartGameReceived sd cs = true <->
    sg_Type sd = "start_game" /\ cs ⊆ sg_Colors sd).
  { intros sd cs. unfold assertStartGameReceived, colorsOk.
    destruct (colorsOk_from cs (sg_Colors sd) (replicate (length cs) false)) as [Hl Hj];
      [apply length_replicate|].
    rewrite andb_true_iff, String.eqb_eq, forallb_forall.
    split; intros [Ht Hall]; (split; [exact Ht|]).
    - intros c Hc. apply list_elem_of_lookup in Hc as [j Hc].
      destruct (foldl (fun ok r => mark cs r ok) (replicate (length cs) false)
                  (sg_Colors sd) !! j) as [b|] eqn:Hb.
      + assert (b = true) as ->.
        { apply Hall, list_elem_of_In, list_elem_of_lookup. eauto. }
        apply (Hj j c Hc) in Hb as [Hb|Hb]; [|exact Hb].
        apply lookup_replicate in Hb as [Hb _]. discriminate.
      + apply lookup_ge_None in Hb. apply lookup_lt_Some in Hc. lia.
    - intros b Hb. apply list_elem_of_In, list_elem_of_lookup in Hb as [j Hb].
      assert (Hlt : (j < length cs)%nat) by (apply lookup_lt_Some in Hb; lia).
      apply lookup_lt_is_Some in Hlt as [c Hc].
      assert (Ht' : foldl (fun ok r => mark cs r ok) (replicate (length cs) false)
                      (sg_Colors sd) !! j = Some true).
      { apply (Hj j c Hc). right. apply Hall, list_elem_of_lookup. eauto. }
      congruence. }
  split; [apply Hcheck|]. intros s. apply Hcheck. split; reflexivity.
Qed.

(** ** The teardown while the listener is open *)

Lemma step_listen_inv (J : JSON) (w w' : World) (l : Label) (out : list Action) :
  wf (srv w) -> step J w l out w' -> listen_inv (srv w) -> listen_inv (srv w').
Proof.
  intros Hwf Hstep Hinv. unfold listen_inv in *. destruct Hstep as
    [w e s' out _ Hd Hrun | w e s' out _ Hd Hrun | w v rest _ Hs
    | w c s' out _ _ Hrun
    | w e s' out _ Hc Hrun | w s' out _ Hrun | w s' out s'' out' _ Hrun Hend];
    cbn [srv].
  - pose proof (Start_turn_listener J (srv w) e Hwf) as H. rewrite Hrun in H.
    cbn [state_of] in H. destruct H as [[-> ->]|(_&_&->)]; [intros [] | exact Hinv | auto].
  - pose proof (Start_turn_listener J (srv w) e Hwf) as H. rewrite Hrun in H.
    cbn [state_of] in H. destruct H as [[-> ->]|(_&_&->)]; [intros [] | exact Hinv | auto].
  - exact Hinv.
  - injection Hrun as <- _. exact Hinv.
  - rewrite hostServer_turn_run in Hrun.
    destruct (stopListen (srv w)); [discriminate|]. injection Hrun as <- _.
    intros _. exact Hc.
  - rewrite ticker_turn_run in Hrun.
    destruct (stopTick (srv w)); [|discriminate]. injection Hrun as <- _. exact Hinv.
  - rewrite ticker_turn_run in Hrun.
    destruct (stopTick (srv w)); [discriminate|]. injection Hrun as <- _.
    revert Hend. unfold ticker_end. step_m. intros [= <- _]. exact Hinv.
Qed.

Lemma reachable_listen_inv (J : JSON) (w : World) : reachable J w -> listen_inv (srv w).
Proof.
  intros (ls&out&Hsteps).
  assert (H : forall w0, steps J w0 ls out w -> wf (srv w0) ->
                         listen_inv (srv w0) -> listen_inv (srv w)).
  { clear Hsteps. intros w0 Hsteps.
    induction Hsteps as [|w1 l o w2 ls' outs w3 Hstep _ IH]; intros Hwf Hk; [exact Hk|].
    apply IH; [eapply step_wf; eassumption | eapply step_listen_inv; eassumption]. }
  apply (H boot Hsteps wf_boot). intros Hne. contradiction.
Qed.

(** While the listener is open no stop request was ever sent: the three
    control channels are empty and no ticker runs.  So, in the lobby before
    any teardown and in the game before its first message, the departure of
    the last player always runs the teardown to its end: the player is
    removed, the listener is sent its stop request and closed, and the Broker
    loop is sent its own. *)
Theorem teardown_completes_while_open (J : JSON) (w : World) :
  reachable J w -> serverListener (srv w) = lnOpen ->
  stopListen (srv w) = [] /\ stopServer (srv w) = [] /\ stopTick (srv w) = [] /\
  ticking (srv w) = false /\
  forall i a,
    findById i (srv w) = Some a -> players (srv w) = [a] ->
    exists s' out,
      handleDisconnect i (srv w) = Done tt s' out /\
      players s' = [] /\ stopListen s' = [true] /\ serverListener s' = lnClosed /\
      stopServer s' = [true] /\ stopTick s' = [].
Proof.
  intros Hreach Hopen. pose proof (reachable_wf J w Hreach) as Hwf.
  pose proof (reachable_listen_inv J w Hreach) as Hl.
  pose proof (reachable_stop_inv J w Hreach) as Hs.
  destruct (reachable_hist J w Hreach) as (n&_&_&Hon&Hreq&_).
  unfold listen_inv, stop_inv in *.
  assert (E1 : stopListen (srv w) = []).
  { destruct (stopListen (srv w)); [reflexivity|]. rewrite Hl in Hopen; discriminate. }
  assert (E2 : stopServer (srv w) = []).
  { destruct (stopServer (srv w)); [reflexivity|].
    rewrite Hs in Hopen; [discriminate | left; discriminate]. }
  assert (E3 : stopTick (srv w) = []).
  { destruct (stopTick (srv w)); [reflexivity|].
    destruct Hreq as (_&_&Hc&_); [discriminate | congruence]. }
  assert (E4 : ticking (srv w) = false).
  { destruct (ticking (srv w)); [|reflexivity]. destruct Hon as [_ Hc]; congruence. }
  split; [exact E1 | split; [exact E2 | split; [exact E3 | split; [exact E4|]]]].
  intros i a Hf Hps.
  assert (Hsplit : players (srv w) = [] ++ a :: []) by exact Hps.
  rewrite (handleDisconnect_run i (srv w) a [] [] Hf Hsplit)
    by (apply not_elem_of_nil).
  destruct (teardown_last (left a ([] ++ []) (srv w)))
    as (s'&out&Htd&(Hp&_)&_&Htick&Hst&Hl'&Hc&Hs'&_);
    try assumption; try reflexivity; [apply Hwf|].
  rewrite Htd. cbn [prepend]. eexists _, _. split; [reflexivity|].
  split; [rewrite Hp; reflexivity|]. split; [exact Hl'|]. split; [exact Hc|].
  split; [exact Hs'|]. rewrite Hst. cbn [left]. unfold left. step_m. rewrite E4. reflexivity.
Qed.

Lemma teardown_completes_while_open_witness :
  exists s' out,
    handleDisconnect 0 Fixture.lobby1 = Done tt s' out /\
    players s' = [] /\ stopServer s' = [true].
Proof.
  destruct (teardown_completes_while_open Fixture.json Fixture.w_lobby1 reachable_lobby1
              eq_refl) as (_&_&_&_&H).
  destruct (H 0 0%nat eq_refl eq_refl) as (s'&out&Hrun&Hps&_&_&Hs&_).
  exists s', out. split; [exact Hrun | split; [exact Hps | exact Hs]].
Defined.
